(** * The Grand Tree: dual-state morphing engine

    A shallow embedding of the morphing core of the scene:

    - [App]: the gesture state, the exponential smoothing loop that turns
      the open/closed classification into the [progress] scalar, and the
      camera rig (src/App.tsx); [Double] is the same loop on the binary64
      numbers the program computes with;
    - [GestureHandler]: the [predict] step that turns detector landmarks
      into a gesture sample (src/components/GestureHandler.tsx);
    - [Foliage], [Ornaments], [Polaroids]: the procedural generation of
      formed and chaos positions and the per-frame animation
      (src/components/Foliage.tsx, the Ornaments component, and
      src/components/Polaroids.tsx);
    - [OrnamentsComponent], [SceneContent]: the Ornaments component around
      its data, that is its render with the memo on its props, its colour
      effect on the instanced mesh, and the props [SceneContent] passes.

    Number model.  Except in [Double], a JavaScript [number] and a GLSL
    [float] are modelled as a real number: [+], [-], [*], [/],
    [Math.sqrt], [Math.sin], [Math.cos] and [Math.acos] are the exact
    operations of [R]; rounding is not modelled, and a store into a
    [Float32Array] keeps the value.  [Math.random()] is modelled by an
    explicit source of draws, each in [0,1), consumed in program order. *)

From Stdlib Require Import Reals Lra Lia ZArith List.
From stdpp Require Import base option list gmap strings.
From Stdlib Require Floats.
Import ListNotations.

Set Warnings "-abstract-large-number".

#[local] Open Scope R_scope.

(** ** Vectors and three.js arithmetic helpers *)

Record Vec3 : Type := mkVec3 { vx : R; vy : R; vz : R }.

Definition vadd (a b : Vec3) : Vec3 :=
  mkVec3 (vx a + vx b) (vy a + vy b) (vz a + vz b).

Definition norm2 (a : Vec3) : R := vx a * vx a + vy a * vy a + vz a * vz a.

(** [THREE.MathUtils.lerp(x, y, t)] is [(1 - t) * x + t * y]. *)
Definition lerp (x y t : R) : R := (1 - t) * x + t * y.

(** [Vector3.lerpVectors(v1, v2, alpha)] sets each component to
    [v1.c + (v2.c - v1.c) * alpha]. *)
Definition lerpVectors (v1 v2 : Vec3) (alpha : R) : Vec3 :=
  mkVec3 (vx v1 + (vx v2 - vx v1) * alpha)
         (vy v1 + (vy v2 - vy v1) * alpha)
         (vz v1 + (vz v2 - vz v1) * alpha).

(** [a > b] on numbers, as a boolean. *)
Definition Rgtb (a b : R) : bool := if Rlt_dec b a then true else false.

(** ** The gesture source: [predict] of GestureHandler.tsx *)

Module GestureHandler.

(** One normalised hand landmark (only [x] and [y] are read). *)
Record Landmark : Type := mkLandmark { lx : R; ly : R }.

(** The argument of [onGestureUpdate]. *)
Record Sample : Type := mkSample {
  s_isOpen : bool;
  s_x : R;
  s_y : R;
  s_detected : bool
}.

(** Distance of a fingertip to the wrist. *)
Definition tipDist (wrist tip : Landmark) : R :=
  sqrt ((lx tip - lx wrist) ^ 2 + (ly tip - ly wrist) ^ 2).

(** The detected branch of [predict]: hand centre and openness.  A
    landmark index that is missing makes the source read a field of
    [undefined], which throws; that is [None] here. *)
Definition classify (landmarks : list Landmark) : option Sample :=
  wrist ← landmarks !! 0%nat;
  thumbTip ← landmarks !! 4%nat;
  indexTip ← landmarks !! 8%nat;
  middleTip ← landmarks !! 12%nat;
  ringTip ← landmarks !! 16%nat;
  pinkyTip ← landmarks !! 20%nat;
  let centerX := (lx thumbTip + lx pinkyTip) / 2 in
  let centerY := (ly thumbTip + ly wrist) / 2 in
  let normalizedX := (centerX - 0.5) * 2 in
  let normalizedY := (centerY - 0.5) * 2 in
  let tips := [indexTip; middleTip; ringTip; pinkyTip] in
  let avgDist := fold_left (fun acc tip => acc + tipDist wrist tip) tips 0 / 4 in
  let isOpen := Rgtb avgDist 0.3 in
  Some (mkSample isOpen (- normalizedX) (- normalizedY) true).

(** The sample sent when the detector reports no hand. *)
Definition notDetected : Sample := mkSample false 0 0 false.

(** [results.landmarks && results.landmarks.length > 0]: the detector's
    result is absent ([None]) or a list of hands. *)
Definition hasLandmarks (results : option (list (list Landmark))) : bool :=
  match results with
  | Some (_ :: _) => true
  | _ => false
  end.

(** What one call of [predict] sees. *)
Record PredictInput : Type := mkPredictInput {
  refsReady : bool;                              (* videoRef and landmarkerRef set *)
  currentTime : R;                               (* videoRef.current.currentTime *)
  results : option (list (list Landmark))        (* detectForVideo(...).landmarks *)
}.

Inductive Outcome : Type :=
| Threw                      (* a TypeError inside the detected branch *)
| Sent (s : Sample)          (* onGestureUpdate was called with s *)
| Silent.                    (* no call of onGestureUpdate *)

(** [predict]: state is [lastVideoTimeRef.current]. *)
Definition predict (lastVideoTime : R) (inp : PredictInput) : R * Outcome :=
  if negb (refsReady inp) then (lastVideoTime, Silent)
  else if Req_dec_T (currentTime inp) lastVideoTime then (lastVideoTime, Silent)
  else if hasLandmarks (results inp) then
    let landmarks := hd [] (default [] (results inp)) in   (* results.landmarks[0] *)
    match classify landmarks with
    | Some s => (currentTime inp, Sent s)
    | None => (currentTime inp, Threw)
    end
  else (currentTime inp, Sent notDetected).

End GestureHandler.

(** ** The signal filter and camera rig: App.tsx *)

Module App.
Import GestureHandler.

(** [HandGestureData] of the types file. *)
Record HandGestureData : Type := mkHandGestureData {
  isOpen : bool;
  handPosition : R * R;
  detected : bool
}.

(** Initial [useState] value. *)
Definition initialGesture : HandGestureData :=
  mkHandGestureData false (0, 0) false.

(** [handleGestureUpdate]: the new gesture state replaces the old one. *)
Definition handleGestureUpdate (data : Sample) : HandGestureData :=
  mkHandGestureData (s_isOpen data) (s_x data, s_y data) (s_detected data).

(** The gesture state after one [predict] call. *)
Definition afterPredict (g : HandGestureData) (o : Outcome) : HandGestureData :=
  match o with
  | Sent s => handleGestureUpdate s
  | _ => g
  end.

(** [const target = gestureData.isOpen ? 1 : 0]. *)
Definition target (g : HandGestureData) : R := if isOpen g then 1 else 0.

Definition targetOf (open : bool) : R := if open then 1 else 0.

(** The smoothing constant written in the loop. *)
Definition k : R := 0.05.

(** One pass of [loop]: [progressRef.current += (target - progressRef.current) * 0.05]. *)
Definition loop (open : bool) (progress : R) : R :=
  progress + (targetOf open - progress) * 0.05.

(** [n] consecutive passes with the same classification. *)
Fixpoint ticks (n : nat) (open : bool) (progress : R) : R :=
  match n with
  | O => progress
  | S n' => ticks n' open (loop open progress)
  end.

(** Passes over an arbitrary sequence of classifications, one per frame. *)
Definition run (samples : list bool) (progress : R) : R :=
  fold_left (fun p open => loop open p) samples progress.

(** Every value [progressRef.current] takes along the sequence. *)
Fixpoint trace (samples : list bool) (progress : R) : list R :=
  match samples with
  | [] => [progress]
  | open :: rest => progress :: trace rest (loop open progress)
  end.

(** [useRef(0)]. *)
Definition progress0 : R := 0.

(** The [handX]/[handY] props handed to the scene. *)
Definition handX (g : HandGestureData) : R :=
  if detected g then fst (handPosition g) else 0.
Definition handY (g : HandGestureData) : R :=
  if detected g then snd (handPosition g) else 0.

(** [CameraRig]'s frame callback: the new camera position. *)
Definition CameraRig (targetX targetY : R) (cam : Vec3) : Vec3 :=
  let baseX := 0 in
  let BaseY := 2 in
  let BaseZ := 18 in
  let x := lerp (vx cam) (baseX + targetX * 10) 0.05 in
  let y := lerp (vy cam) (BaseY + targetY * 5) 0.05 in
  mkVec3 x y BaseZ.

Fixpoint cameraSteps (n : nat) (targetX targetY : R) (cam : Vec3) : Vec3 :=
  match n with
  | O => cam
  | S n' => cameraSteps n' targetX targetY (CameraRig targetX targetY cam)
  end.

(** Gesture states reachable from the initial one through [predict]. *)
Inductive reachable : HandGestureData -> Prop :=
| reach_init : reachable initialGesture
| reach_predict g last inp :
    reachable g -> reachable (afterPredict g (snd (predict last inp))).

End App.

(** ** The store: random source and Vector3 objects

    A [THREE.Vector3] is a mutable object; methods such as [lerpVectors],
    [copy] and [setScalar] write into their receiver.  Vectors therefore
    live in a heap indexed by object identity, and the generation and
    animation code runs in a state monad over it. *)

Definition loc : Type := nat.

Record Quat : Type := mkQuat { qx : R; qy : R; qz : R; qw : R }.

(** The local matrix of an object is kept as the position, quaternion and
    scale it is composed from ([Matrix4.compose]). *)
Record Transform : Type := mkTransform {
  t_position : Vec3;
  t_quaternion : Quat;
  t_scale : Vec3
}.

Definition vzero : Vec3 := mkVec3 0 0 0.
Definition qidentity : Quat := mkQuat 0 0 0 1.
Definition tidentity : Transform := mkTransform vzero qidentity (mkVec3 1 1 1).

Record World : Type := mkWorld {
  rng : nat -> R;                          (* the draws Math.random() will return *)
  heap : gmap loc Vec3;                    (* every live Vector3 *)
  tempQuat : Quat;                         (* tempObj.quaternion (and its Euler rotation) *)
  tempMatrix : Transform;                  (* tempObj.matrix *)
  instanceMatrix : option (list Transform) (* meshRef.current?.instanceMatrix, a slot per instance *)
}.

Definition JS (A : Type) : Type := World -> A * World.

#[export] Instance JS_ret : MRet JS := fun A a w => (a, w).
#[export] Instance JS_bind : MBind JS :=
  fun A B f m w => let '(a, w') := m w in f a w'.

Definition get_world : JS World := fun w => (w, w).
Definition put_world (w : World) : JS unit := fun _ => (tt, w).

(** [Math.random()]: take the next draw. *)
Definition random : JS R :=
  fun w => (rng w 0%nat,
            mkWorld (fun n => rng w (S n)) (heap w) (tempQuat w) (tempMatrix w)
                    (instanceMatrix w)).

Definition set_heap (h : gmap loc Vec3) (w : World) : World :=
  mkWorld (rng w) h (tempQuat w) (tempMatrix w) (instanceMatrix w).

(** [new THREE.Vector3(x, y, z)]: a fresh object. *)
Definition newVector3 (x y z : R) : JS loc :=
  fun w => let l := fresh (dom (heap w)) in
           (l, set_heap (<[l := mkVec3 x y z]> (heap w)) w).

(** The value behind a reference. *)
Definition valueAt (h : gmap loc Vec3) (l : loc) : Vec3 := default vzero (h !! l).

(** Read a vector through its reference. *)
Definition readV (l : loc) : JS Vec3 :=
  fun w => (valueAt (heap w) l, w).

(** Overwrite the components of an existing vector. *)
Definition writeV (l : loc) (v : Vec3) : JS unit :=
  fun w => (tt, set_heap (<[l := v]> (heap w)) w).

Fixpoint mapM {A B : Type} (f : A -> JS B) (l : list A) : JS (list B) :=
  match l with
  | [] => mret []
  | a :: l' => b ← f a; bs ← mapM f l'; mret (b :: bs)
  end.

(** [for (let i = start; i < start + n; i++) body], threading the locals. *)
Fixpoint forLoop {S : Type} (start n : nat) (body : nat -> S -> JS S) (s : S) : JS S :=
  match n with
  | O => mret s
  | Datatypes.S n' => s' ← body start s; forLoop (Datatypes.S start) n' body s'
  end.

(** [arr.forEach((d, i) => body)], index starting at [i]. *)
Fixpoint forEachFrom {A : Type} (i : nat) (body : A -> nat -> JS unit) (l : list A) : JS unit :=
  match l with
  | [] => mret tt
  | a :: l' => _ ← body a i; forEachFrom (S i) body l'
  end.

Definition forEach {A : Type} (body : A -> nat -> JS unit) (l : list A) : JS unit :=
  forEachFrom 0 body l.

(** [MathUtils.generateUUID()], which the constructors of [Object3D] and
    [BufferGeometry] call: four draws, used for the uuid only. *)
Definition generateUUID : JS unit :=
  _ ← random; _ ← random; _ ← random; _ ← random; mret tt.

Inductive Exn : Type := RangeError | TypeError.

Inductive Completion (A : Type) : Type :=
| Normal (a : A)
| Thrown (e : Exn).
Arguments Normal {A} a.
Arguments Thrown {A} e.

(** Spherical-to-Cartesian conversion used by the chaos samplers. *)
Definition sphericalToCartesian (radius phi theta : R) : Vec3 :=
  mkVec3 (radius * sin phi * cos theta)
         (radius * sin phi * sin theta)
         (radius * cos phi).

(** ** The sampling rules in the specification's words

    Each takes the uniform draws in [0,1) it consumes. *)

Module Spec.

(** Formed position in the cone: height uniform on (0, treeHeight);
    [radiusAtY = (treeHeight - y)/treeHeight * maxRadius]; angle uniform on
    (0, 2*pi); [r = sqrt(U) * radiusAtY]; [x = r cos(angle)],
    [z = r sin(angle)]; final height [y - treeHeight/3]. *)
Definition radiusAtY (treeHeight maxRadius y : R) : R :=
  (treeHeight - y) / treeHeight * maxRadius.

Definition coneFormed (treeHeight maxRadius uY uAngle uR : R) : Vec3 :=
  let y := uY * treeHeight in
  let angle := uAngle * (2 * PI) in
  let r := sqrt uR * radiusAtY treeHeight maxRadius y in
  mkVec3 (r * cos angle) (y - treeHeight / 3) (r * sin angle).

(** Chaos position on a spherical shell: radius uniform over
    [Rmin, Rmin + Rrange], theta uniform over [0, 2*pi),
    [phi = acos(Uniform(-1,1))], standard spherical-to-Cartesian
    conversion. *)
Definition shellChaos (Rmin Rrange uRadius uTheta uPhi : R) : Vec3 :=
  let chaosRadius := Rmin + uRadius * Rrange in
  let theta := uTheta * (2 * PI) in
  let phi := acos (2 * uPhi - 1) in
  mkVec3 (chaosRadius * sin phi * cos theta)
         (chaosRadius * sin phi * sin theta)
         (chaosRadius * cos phi).

End Spec.

(** The store after [n] more draws have been taken. *)
Definition advance (n : nat) (w : World) : World :=
  mkWorld (fun m => rng w (n + m)%nat) (heap w) (tempQuat w) (tempMatrix w)
          (instanceMatrix w).

(** Every draw lies in [0,1), as [Math.random()] guarantees. *)
Definition validDraws (w : World) : Prop := forall n, 0 <= rng w n < 1.

(** A store with an empty heap whose every draw is [u]. *)
Definition constDraws (u : R) : World :=
  mkWorld (fun _ => u) ∅ qidentity tidentity None.

(** ** Foliage.tsx: generation *)

Module Foliage.

Record Buffers : Type := mkBuffers {
  positions : list R;
  chaosPositions : list R;
  randoms : list R
}.

Definition treeHeight : R := 14.
Definition maxRadius : R := 5.

(** Body of the generation loop for index [i]. *)
Definition body (i : nat) (b : Buffers) : JS Buffers :=
  (* 1. formed position (cone) *)
  u1 ← random;
  let y := u1 * treeHeight in
  let radiusAtY := ((treeHeight - y) / treeHeight) * maxRadius in
  u2 ← random;
  let angle := u2 * PI * 2 in
  u3 ← random;
  let r := sqrt u3 * radiusAtY in
  let x := r * cos angle in
  let z := r * sin angle in
  let positions1 := <[(i * 3)%nat := x]> (positions b) in
  let positions2 := <[(i * 3 + 1)%nat := y - (treeHeight / 3)]> positions1 in
  let positions3 := <[(i * 3 + 2)%nat := z]> positions2 in
  (* 2. chaos position (sphere explosion) *)
  u4 ← random;
  let chaosRadius := 15 + u4 * 10 in
  u5 ← random;
  let theta := u5 * PI * 2 in
  u6 ← random;
  let phi := acos ((u6 * 2) - 1) in
  let chaos1 := <[(i * 3)%nat := chaosRadius * sin phi * cos theta]> (chaosPositions b) in
  let chaos2 := <[(i * 3 + 1)%nat := chaosRadius * sin phi * sin theta]> chaos1 in
  let chaos3 := <[(i * 3 + 2)%nat := chaosRadius * cos phi]> chaos2 in
  u7 ← random;
  mret (mkBuffers positions3 chaos3 (<[i := u7]> (randoms b))).

(** The [useMemo] body for a given entity count. *)
Definition generateN (count : nat) : JS Buffers :=
  forLoop 0 count body
    (mkBuffers (replicate (count * 3) 0) (replicate (count * 3) 0) (replicate count 0)).

Definition count : nat := 15000.

Definition generate : JS Buffers := generateN count.

(** The vertex shader's position computation.  [smoothstep(0,1,x)] clamps
    [x] to [0,1] and returns [t*t*(3 - 2*t)]; [mix(a,b,t)] is
    [a*(1-t) + b*t]. *)
Definition clamp (x lo hi : R) : R := Rmin (Rmax x lo) hi.

Definition smoothstep (edge0 edge1 x : R) : R :=
  let t := clamp ((x - edge0) / (edge1 - edge0)) 0 1 in
  t * t * (3 - 2 * t).

Definition mix (a b t : R) : R := a * (1 - t) + b * t.

Definition mix3 (a b : Vec3) (t : R) : Vec3 :=
  mkVec3 (mix (vx a) (vx b) t) (mix (vy a) (vy b) t) (mix (vz a) (vz b) t).

(** The oscillating offset added to the chaos position. *)
Definition noise (uTime aRandom : R) : Vec3 :=
  mkVec3 (sin (uTime * 0.5 + aRandom * 10) * 0.5)
         (cos (uTime * 0.3 + aRandom * 20) * 0.5)
         (sin (uTime * 0.7 + aRandom * 30) * 0.5).

(** [finalPos] of [foliageVertexShader]. *)
Definition finalPos (uTime uProgress : R) (position aChaosPos : Vec3) (aRandom : R) : Vec3 :=
  let t := smoothstep 0 1 uProgress in
  let chaosMovement := vadd aChaosPos (noise uTime aRandom) in
  mix3 position chaosMovement t.

(** The component's per-frame state: the three attribute buffers and the
    shader uniforms ([None] while [shaderRef.current] is null). *)
Record Uniforms : Type := mkUniforms { uTime : R; uProgress : R }.

Record State : Type := mkState {
  buffers : Buffers;
  shader : option Uniforms
}.

(** The [useFrame] callback. *)
Definition frame (elapsedTime progress : R) (s : State) : State :=
  match shader s with
  | Some _ => mkState (buffers s) (Some (mkUniforms elapsedTime progress))
  | None => s
  end.

(** Successive frames, each with its elapsed time and progress value. *)
Definition frames (fs : list (R * R)) (s : State) : State :=
  fold_left (fun s f => frame (fst f) (snd f) s) fs s.

(** Vertex [i] of a buffer attribute with [itemSize = 3]. *)
Definition attr3 (array : list R) (i : nat) : option Vec3 :=
  match array !! (i * 3)%nat, array !! (i * 3 + 1)%nat, array !! (i * 3 + 2)%nat with
  | Some x, Some y, Some z => Some (mkVec3 x y z)
  | _, _, _ => None
  end.

(** The attributes of vertex [i]: [position], [aChaosPos], [aRandom]. *)
Definition entityAt (b : Buffers) (i : nat) : option (Vec3 * Vec3 * R) :=
  match attr3 (positions b) i, attr3 (chaosPositions b) i, randoms b !! i with
  | Some p, Some c, Some a => Some (p, c, a)
  | _, _, _ => None
  end.

(** What the generation loop produces for its [j]-th index from the draws
    [u] it sees from its start: seven draws per index, in program order. *)
Definition drawn (u : nat -> R) (j : nat) : Vec3 * Vec3 * R :=
  (Spec.coneFormed treeHeight maxRadius (u (7 * j)%nat) (u (7 * j + 1)%nat) (u (7 * j + 2)%nat),
   Spec.shellChaos 15 10 (u (7 * j + 3)%nat) (u (7 * j + 4)%nat) (u (7 * j + 5)%nat),
   u (7 * j + 6)%nat).

(** The position the shader gives vertex [i] under the current uniforms. *)
Definition vertex (s : State) (i : nat) : option Vec3 :=
  u ← shader s;
  '(p, c, a) ← entityAt (buffers s) i;
  Some (finalPos (uTime u) (uProgress u) p c a).

End Foliage.

(** ** three.js quaternion operations used by [Object3D] *)

(** [Quaternion.setFromAxisAngle(axis, angle)]. *)
Definition setFromAxisAngle (axis : Vec3) (angle : R) : Quat :=
  let halfAngle := angle / 2 in
  let s := sin halfAngle in
  mkQuat (vx axis * s) (vy axis * s) (vz axis * s) (cos halfAngle).

(** [Quaternion.multiplyQuaternions(a, b)]. *)
Definition multiplyQuaternions (a b : Quat) : Quat :=
  mkQuat (qx a * qw b + qw a * qx b + qy a * qz b - qz a * qy b)
         (qy a * qw b + qw a * qy b + qz a * qx b - qx a * qz b)
         (qz a * qw b + qw a * qz b + qx a * qy b - qy a * qx b)
         (qw a * qw b - qx a * qx b - qy a * qy b - qz a * qz b).

(** [Quaternion.setFromEuler] for the default order XYZ, which
    [rotation.set(x, y, z)] triggers. *)
Definition setFromEuler (x y z : R) : Quat :=
  let c1 := cos (x / 2) in
  let c2 := cos (y / 2) in
  let c3 := cos (z / 2) in
  let s1 := sin (x / 2) in
  let s2 := sin (y / 2) in
  let s3 := sin (z / 2) in
  mkQuat (s1 * c2 * c3 + c1 * s2 * s3)
         (c1 * s2 * c3 - s1 * c2 * s3)
         (c1 * c2 * s3 + s1 * s2 * c3)
         (c1 * c2 * c3 - s1 * s2 * s3).

(** [Vector3.normalize()]: divide by [length() || 1]. *)
Definition normalize (v : Vec3) : Vec3 :=
  let len := sqrt (norm2 v) in
  let d := if Req_dec_T len 0 then 1 else len in
  mkVec3 (vx v * (1 / d)) (vy v * (1 / d)) (vz v * (1 / d)).

(** [Math.floor] of a number, as an array index. *)
Definition floorIndex (x : R) : nat := Z.to_nat (Int_part x).

(** ** The Ornaments component *)

Module Ornaments.

(** One element of [data]. *)
Record Datum : Type := mkDatum {
  formPos : loc;
  chaosPos : loc;
  scale : R;
  rotSpeed : R;
  rotAxis : loc;
  color : option string;   (* the palette entry given to [new THREE.Color]; [None] is [undefined] *)
  randomOffset : R
}.

Definition treeHeight : R := 12.
Definition maxRadius : R := 5.5.

(** The callback of [.map(() => ...)]: one ornament. *)
Definition entity (colorPalette : list string) : JS Datum :=
  (* formed position *)
  u1 ← random;
  let y := u1 * treeHeight in
  let rAtY := ((treeHeight - y) / treeHeight) * maxRadius in
  u2 ← random;
  let angle := u2 * PI * 2 in
  u3 ← random;
  let r := rAtY * (0.8 + u3 * 0.3) in
  let formX := r * cos angle in
  let formY := y - (treeHeight / 3) in
  let formZ := r * sin angle in
  (* chaos position *)
  u4 ← random;
  let chaosRadius := 10 + u4 * 15 in
  u5 ← random;
  let theta := u5 * PI * 2 in
  u6 ← random;
  let phi := acos ((u6 * 2) - 1) in
  let chaosX := chaosRadius * sin phi * cos theta in
  let chaosY := chaosRadius * sin phi * sin theta in
  let chaosZ := chaosRadius * cos phi in
  u7 ← random;
  let scale := 0.3 + u7 * 0.4 in
  u8 ← random;
  let rotSpeed := (u8 - 0.5) * 2 in
  u9 ← random;
  u10 ← random;
  u11 ← random;
  rotAxis ← newVector3 u9 u10 u11;
  axis ← readV rotAxis;
  _ ← writeV rotAxis (normalize axis);
  (* pick random color *)
  u12 ← random;
  let color := colorPalette !! floorIndex (u12 * INR (length colorPalette)) in
  formPos ← newVector3 formX formY formZ;
  chaosPos ← newVector3 chaosX chaosY chaosZ;
  u13 ← random;
  mret (mkDatum formPos chaosPos scale rotSpeed rotAxis color (u13 * 100)).

(** The formed position computed by [entity] from its first three draws. *)
Definition formedOf (u1 u2 u3 : R) : Vec3 :=
  let y := u1 * treeHeight in
  let rAtY := ((treeHeight - y) / treeHeight) * maxRadius in
  let angle := u2 * PI * 2 in
  let r := rAtY * (0.8 + u3 * 0.3) in
  mkVec3 (r * cos angle) (y - (treeHeight / 3)) (r * sin angle).

(** [d] is the ornament [entity] builds from the thirteen draws
    [u 0 .. u 12], its vectors being read in heap [h]. *)
Definition generatedFrom (colorPalette : list string) (u : nat -> R)
    (h : gmap loc Vec3) (d : Datum) : Prop :=
  h !! formPos d = Some (formedOf (u 0%nat) (u 1%nat) (u 2%nat)) /\
  h !! chaosPos d = Some (Spec.shellChaos 10 15 (u 3%nat) (u 4%nat) (u 5%nat)) /\
  scale d = 0.3 + u 6%nat * 0.4 /\
  rotSpeed d = (u 7%nat - 0.5) * 2 /\
  h !! rotAxis d = Some (normalize (mkVec3 (u 8%nat) (u 9%nat) (u 10%nat))) /\
  color d = colorPalette !! floorIndex (u 11%nat * INR (length colorPalette)) /\
  randomOffset d = u 12%nat * 100.

(** [new Array(count)] accepts an integer length in [0, 2^32 - 1] and
    throws a RangeError otherwise. *)
Definition validArrayLength (count : Z) : bool :=
  (0 <=? count)%Z && (count <? 2 ^ 32)%Z.

(** The [useMemo] body: [new Array(count).fill(0).map(...)]. *)
Definition data (count : Z) (colorPalette : list string) (w : World)
  : Completion (list Datum) * World :=
  if validArrayLength count then
    let '(l, w') := mapM (fun _ : R => entity colorPalette) (replicate (Z.to_nat count) 0) w in
    (Normal l, w')
  else (Thrown RangeError, w).

(** The parts of [tempObj] that are vectors; its quaternion and matrix
    are [tempQuat] and [tempMatrix] of the store. *)
Record Object3D : Type := mkObject3D { o_position : loc; o_scale : loc }.

(** [new THREE.Object3D()]: the uuid first, then the position, the
    identity quaternion, the scale and the matrix. *)
Definition newObject3D : JS Object3D :=
  _ ← generateUUID;
  p ← newVector3 0 0 0;
  s ← newVector3 1 1 1;
  w ← get_world;
  _ ← put_world (mkWorld (rng w) (heap w) qidentity tidentity (instanceMatrix w));
  mret (mkObject3D p s).

(** [tempObj.rotateOnAxis(axis, angle)]. *)
Definition rotateOnAxis (axis : Vec3) (angle : R) : JS unit :=
  fun w => (tt, mkWorld (rng w) (heap w)
                        (multiplyQuaternions (tempQuat w) (setFromAxisAngle axis angle))
                        (tempMatrix w) (instanceMatrix w)).

(** [tempObj.rotation.set(x, y, z)]. *)
Definition rotationSet (x y z : R) : JS unit :=
  fun w => (tt, mkWorld (rng w) (heap w) (setFromEuler x y z)
                        (tempMatrix w) (instanceMatrix w)).

(** [tempObj.updateMatrix()]. *)
Definition updateMatrix (o : Object3D) : JS unit :=
  fun w => (tt, mkWorld (rng w) (heap w) (tempQuat w)
                        (mkTransform (valueAt (heap w) (o_position o))
                                     (tempQuat w)
                                     (valueAt (heap w) (o_scale o)))
                        (instanceMatrix w)).

(** [meshRef.current.setMatrixAt(i, tempObj.matrix)]: a write into the
    instance buffer, ignored when out of range. *)
Definition setMatrixAt (i : nat) : JS unit :=
  fun w => (tt, mkWorld (rng w) (heap w) (tempQuat w) (tempMatrix w)
                        ((fun m => <[i := tempMatrix w]> m) <$> instanceMatrix w)).

(** The frame clock: elapsed time and the time since the previous frame.
    The callback reads only the elapsed time. *)
Record Clock : Type := mkClock { elapsedTime : R; delta : R }.

(** The rotation call made for one ornament. *)
Inductive RotationCall : Type :=
| RotateOnAxis (axis : loc) (angle : R)
| RotationSet (x y z : R).

Definition rotationCall (lerpFactor t : R) (d : Datum) : RotationCall :=
  if Rgtb lerpFactor 0.5
  then RotateOnAxis (rotAxis d) (rotSpeed d * 0.1)
  else RotationSet 0 (t * 0.2 + randomOffset d) 0.

Definition doRotation (c : RotationCall) : JS unit :=
  match c with
  | RotateOnAxis axis angle => a ← readV axis; rotateOnAxis a angle
  | RotationSet x y z => rotationSet x y z
  end.

(** The callback of [data.forEach((d, i) => ...)]. *)
Definition step (tempObj : Object3D) (lerpFactor t : R) (d : Datum) (i : nat) : JS unit :=
  currentPos ← newVector3 0 0 0;
  f ← readV (formPos d);
  c ← readV (chaosPos d);
  _ ← writeV currentPos (lerpVectors f c lerpFactor);
  (* add floating noise *)
  p ← readV currentPos;
  _ ← writeV currentPos (mkVec3 (vx p) (vy p + sin (t * 1.0 + randomOffset d) * 0.1) (vz p));
  p' ← readV currentPos;
  _ ← writeV (o_position tempObj) p';
  (* rotation logic *)
  _ ← doRotation (rotationCall lerpFactor t d);
  _ ← writeV (o_scale tempObj) (mkVec3 (scale d) (scale d) (scale d));
  _ ← updateMatrix tempObj;
  setMatrixAt i.

(** The [useFrame] callback. *)
Definition frame (tempObj : Object3D) (data : list Datum) (progress : R) (clock : Clock)
  : JS unit :=
  fun w =>
    match instanceMatrix w with
    | None => (tt, w)
    | Some _ =>
        let t := elapsedTime clock in
        let lerpFactor := progress in
        forEach (step tempObj lerpFactor t) data w
    end.

(** The position [step] gives an ornament whose formed and chaos
    vectors hold [f] and [c]. *)
Definition positionOf (f c : Vec3) (lerpFactor t offset : R) : Vec3 :=
  let p := lerpVectors f c lerpFactor in
  mkVec3 (vx p) (vy p + sin (t * 1.0 + offset) * 0.1) (vz p).

(** The orientation [step] leaves in [tempObj] when it held [q]. *)
Definition orientationOf (q : Quat) (lerpFactor t : R) (axis : Vec3) (speed offset : R)
  : Quat :=
  if Rgtb lerpFactor 0.5
  then multiplyQuaternions q (setFromAxisAngle axis (speed * 0.1))
  else setFromEuler 0 (t * 0.2 + offset) 0.

(** The orientation of [tempObj] after the callback has run over [data]. *)
Definition orientationAfter (h : gmap loc Vec3) (lerpFactor t : R) (q : Quat)
    (data : list Datum) : Quat :=
  fold_left (fun q d => orientationOf q lerpFactor t (valueAt h (rotAxis d))
                                      (rotSpeed d) (randomOffset d))
            data q.

(** The vectors owned by an entity. *)
Definition static (d : Datum) : list loc := [formPos d; chaosPos d; rotAxis d].

(** An entity's vectors are live objects, none of them a vector of
    [tempObj]. *)
Definition separate (tempObj : Object3D) (h : gmap loc Vec3) (d : Datum) : Prop :=
  forall l, l ∈ static d ->
    is_Some (h !! l) /\ l <> o_position tempObj /\ l <> o_scale tempObj.

(** The state in which the frame callback runs: the entities' vectors
    and the two vectors of [tempObj] are live, and [tempObj]'s are distinct
    from the entities' and from each other. *)
Definition wellFormed (tempObj : Object3D) (data : list Datum) (w : World) : Prop :=
  Forall (separate tempObj (heap w)) data /\
  is_Some (heap w !! o_position tempObj) /\
  is_Some (heap w !! o_scale tempObj) /\
  o_position tempObj <> o_scale tempObj.

(** A small scene: one ornament, [tempObj], and a one-slot instance
    buffer. *)
Definition sampleHeap : gmap loc Vec3 :=
  <[0%nat := mkVec3 1 2 3]>
    (<[1%nat := mkVec3 10 20 30]>
       (<[2%nat := mkVec3 0 1 0]>
          (<[3%nat := vzero]> (<[4%nat := mkVec3 1 1 1]> ∅)))).
Definition sampleDatum : Datum :=
  mkDatum 0%nat 1%nat 0.5 1 2%nat (Some "#FFD700"%string) 0.
Definition sampleTemp : Object3D := mkObject3D 3%nat 4%nat.
Definition sampleWorld : World :=
  mkWorld (fun _ => 0) sampleHeap qidentity tidentity (Some [tidentity]).

(** A scene with two ornaments, turning about the X and the Y axis. *)
Definition sampleHeap2 : gmap loc Vec3 :=
  <[0%nat := mkVec3 1 2 3]>
    (<[1%nat := mkVec3 10 20 30]>
       (<[2%nat := mkVec3 1 0 0]>
          (<[3%nat := vzero]>
             (<[4%nat := mkVec3 1 1 1]>
                (<[5%nat := mkVec3 3 2 1]>
                   (<[6%nat := mkVec3 30 20 10]>
                      (<[7%nat := mkVec3 0 1 0]> ∅))))))).
Definition sampleData2 : list Datum :=
  [mkDatum 0%nat 1%nat 0.5 1 2%nat None 0; mkDatum 5%nat 6%nat 0.5 1 7%nat None 0].
Definition sampleWorld2 : World :=
  mkWorld (fun _ => 0) sampleHeap2 qidentity tidentity (Some [tidentity; tidentity]).

(** The callback run over successive frames on one scratch object and one
    entity list, each frame with a progress value and a clock of its own.
    One render of the component registers the callback with that render's
    progress, scratch object and data, so the frames between two renders
    are the runs in which every progress value is the same
    ([OrnamentsComponent.renderFrames] below); runs with several progress
    values are more than the component can produce. *)
Fixpoint frames (tempObj : Object3D) (data : list Datum) (fs : list (R * Clock)) : JS unit :=
  match fs with
  | [] => mret tt
  | (progress, clock) :: rest =>
      _ ← frame tempObj data progress clock; frames tempObj data rest
  end.

End Ornaments.

(** ** Polaroids.tsx *)

Module Polaroids.

(** One element of [photos]; the url is determined by the index. *)
Record Item : Type := mkItem {
  urlIndex : nat;
  position : Vec3;
  rotation : Vec3;
  randomOffset : R
}.

Definition count : nat := 12.
Definition treeHeight : R := 10.
Definition maxRadius : R := 4.5.

Definition spiralY (i : nat) : R :=
  (INR i / INR count) * treeHeight - (treeHeight / 3).

Definition spiralR (y : R) : R :=
  ((treeHeight / 3 + y + 4) / treeHeight) * maxRadius * 1.1.

Definition spiralAngle (i : nat) : R := INR i * 1.5.

(** Body of the loop in [Polaroids]. *)
Definition body (i : nat) (items : list Item) : JS (list Item) :=
  let y := spiralY i in
  let r := spiralR y in
  let angle := spiralAngle i in
  let x := r * cos angle in
  let z := r * sin angle in
  u ← random;
  mret (items ++ [mkItem i (mkVec3 x y z) (mkVec3 0 (- angle + PI / 2) 0) (u * 100)]).

Definition photos : JS (list Item) := forLoop 0 count body [].

(** The item the loop pushes for index [i] when its draw is [u]. *)
Definition itemAt (i : nat) (u : R) : Item :=
  mkItem i
         (mkVec3 (spiralR (spiralY i) * cos (spiralAngle i))
                 (spiralY i)
                 (spiralR (spiralY i) * sin (spiralAngle i)))
         (mkVec3 0 (- spiralAngle i + PI / 2) 0)
         (u * 100).

(** The cone taper of the random generators, for comparison: the radius
    at recentred height [y] on a cone of the panel set's dimensions. *)
Definition taperR (y : R) : R :=
  ((treeHeight - (y + treeHeight / 3)) / treeHeight) * maxRadius.

(** The [THREE.Group] behind [meshRef]: its position and its Euler
    rotation, the latter kept as the vector (x, y, z). *)
Record Group : Type := mkGroup { g_position : loc; g_rotation : loc }.

(** A rendered [Photo]: its two positions, its props, and [meshRef.current]
    ([None] while the ref is null). *)
Record Photo : Type := mkPhoto {
  formedPos : loc;
  chaosPos : loc;
  meshRef : option Group;
  baseRotation : Vec3;
  phase : R
}.

(** The [useMemo] of [Photo]: the chaos position. *)
Definition chaosPosition : JS loc :=
  u1 ← random;
  let r := 20 + u1 * 10 in
  u2 ← random;
  let theta := u2 * PI * 2 in
  u3 ← random;
  let y := (u3 - 0.5) * 20 in
  newVector3 (r * cos theta) y (r * sin theta).

(** The vector [chaosPosition] builds from its three draws. *)
Definition chaosOf (u1 u2 u3 : R) : Vec3 :=
  let r := 20 + u1 * 10 in
  let theta := u2 * PI * 2 in
  let y := (u3 - 0.5) * 20 in
  mkVec3 (r * cos theta) y (r * sin theta).

(** First render of a [Photo] for an item. *)
Definition mount (it : Item) : JS Photo :=
  f ← newVector3 (vx (position it)) (vy (position it)) (vz (position it));
  c ← chaosPosition;
  gp ← newVector3 0 0 0;
  gr ← newVector3 0 0 0;
  mret (mkPhoto f c (Some (mkGroup gp gr)) (rotation it) (randomOffset it)).

(** The [useFrame] callback of [Photo]. *)
Definition frame (ph : Photo) (progress t : R) : JS unit :=
  match meshRef ph with
  | None => mret tt
  | Some g =>
      (* interpolate position *)
      currPos ← newVector3 0 0 0;
      f ← readV (formedPos ph);
      c ← readV (chaosPos ph);
      _ ← writeV currPos (lerpVectors f c progress);
      (* add float *)
      p ← readV currPos;
      _ ← writeV currPos (mkVec3 (vx p) (vy p + sin (t + phase ph) * 0.2) (vz p));
      p' ← readV currPos;
      _ ← writeV (g_position g) p';
      (* interpolate rotation *)
      let rot := baseRotation ph in
      let targetRot := mkVec3 (vx rot + sin t * 0.1) (vy rot + cos t * 0.1) (vz rot) in
      let chaosRot := mkVec3 (t * 0.5 + phase ph) (t * 0.3) (t * 0.2) in
      writeV (g_rotation g)
             (mkVec3 (lerp (vx targetRot) (vx chaosRot) progress)
                     (lerp (vy targetRot) (vy chaosRot) progress)
                     (lerp (vz targetRot) (vz chaosRot) progress))
  end.

(** Successive frames of one photo, each with its progress value and
    elapsed time. *)
Fixpoint frames (ph : Photo) (fs : list (R * R)) : JS unit :=
  match fs with
  | [] => mret tt
  | (progress, t) :: rest => _ ← frame ph progress t; frames ph rest
  end.

(** The position [frame] gives a photo whose formed and chaos vectors
    hold [f] and [c]. *)
Definition positionOf (f c : Vec3) (progress t offset : R) : Vec3 :=
  let p := lerpVectors f c progress in
  mkVec3 (vx p) (vy p + sin (t + offset) * 0.2) (vz p).

(** The photo's two position vectors are live objects, and so are the
    group's position and rotation, which are distinct from them and from
    each other. *)
Definition wellFormed (ph : Photo) (h : gmap loc Vec3) : Prop :=
  is_Some (h !! formedPos ph) /\ is_Some (h !! chaosPos ph) /\
  forall g, meshRef ph = Some g ->
    is_Some (h !! g_position g) /\ is_Some (h !! g_rotation g) /\
    g_position g <> g_rotation g /\
    g_position g <> formedPos ph /\ g_position g <> chaosPos ph /\
    g_rotation g <> formedPos ph /\ g_rotation g <> chaosPos ph.

(** A small scene: one mounted photo. *)
Definition sampleHeap : gmap loc Vec3 :=
  <[0%nat := mkVec3 1 2 3]>
    (<[1%nat := mkVec3 20 (-10) 0]>
       (<[2%nat := vzero]> (<[3%nat := vzero]> ∅))).
Definition samplePhoto : Photo :=
  mkPhoto 0%nat 1%nat (Some (mkGroup 2%nat 3%nat)) (mkVec3 0 1 0) 0.
Definition sampleWorld : World :=
  mkWorld (fun _ => 0) sampleHeap qidentity tidentity None.

End Polaroids.

(** ** Further parts of the components *)

Module Scene.

(** The camera over a sequence of frames, each with its own aim props. *)
Definition cameraRun (aims : list (R * R)) (cam : Vec3) : Vec3 :=
  fold_left (fun c a => App.CameraRig (fst a) (snd a) c) aims cam.

(** The camera position given to [Canvas]. *)
Definition cameraStart : Vec3 := mkVec3 0 4 18.

(** A hand seen in a mirror: every landmark's [x] becomes [1 - x]. *)
Definition mirror (landmarks : list GestureHandler.Landmark) : list GestureHandler.Landmark :=
  List.map (fun p => GestureHandler.mkLandmark (1 - GestureHandler.lx p) (GestureHandler.ly p))
           landmarks.

(** A landmark inside the normalised image. *)
Definition inImage (p : GestureHandler.Landmark) : Prop :=
  0 <= GestureHandler.lx p <= 1 /\ 0 <= GestureHandler.ly p <= 1.

End Scene.

(** The rest of the foliage shaders: point size and colour in the vertex
    shader, and the fragment shader. *)
Module FoliageShader.

Definition cGold : Vec3 := mkVec3 1.0 0.84 0.0.
Definition cEmerald : Vec3 := mkVec3 0.0 0.4 0.2.
Definition cDarkGreen : Vec3 := mkVec3 0.01 0.2 0.1.

(** [size] at the end of the vertex shader's [main]. *)
Definition size (aRandom : R) : R :=
  let size := Foliage.mix 0.15 0.3 aRandom in
  if Rgtb aRandom 0.9 then size * 1.5 else size.

(** [gl_PointSize], for the view-space depth [mvz] of the vertex. *)
Definition pointSize (aRandom mvz : R) : R := size aRandom * (300.0 / - mvz).

(** [vColor] at the end of the vertex shader's [main]. *)
Definition vColor (uTime : R) (position : Vec3) (aRandom : R) : Vec3 :=
  let heightFactor := (vy position + 5.0) / 15.0 in
  let baseColor := Foliage.mix3 cDarkGreen cEmerald (heightFactor + aRandom * 0.2) in
  let baseColor := if Rgtb aRandom 0.9 then cGold else baseColor in
  let sparkle := Rabs (sin (uTime * 2.0 + aRandom * 100.0)) in
  vadd baseColor (mkVec3 (sparkle * 0.2) (sparkle * 0.2) (sparkle * 0.2)).

(** The fragment shader: [None] is [discard], otherwise the colour and
    alpha of [gl_FragColor]. *)
Definition fragment (vColor : Vec3) (pointCoord : R * R) : option (Vec3 * R) :=
  let cx := 2.0 * fst pointCoord - 1.0 in
  let cy := 2.0 * snd pointCoord - 1.0 in
  if Rgtb (cx * cx + cy * cy) 1.0 then None
  else
    let alpha := 1.0 - Foliage.smoothstep 0.8 1.0 (sqrt (cx * cx + cy * cy)) in
    Some (vColor, alpha).

End FoliageShader.

(** Squared norm of a quaternion. *)
Definition qnorm2 (q : Quat) : R := qx q * qx q + qy q * qy q + qz q * qz q + qw q * qw q.

(** ** The Ornaments component around its data: hooks, mesh and render *)

Module OrnamentsComponent.
Import Ornaments.

(** The [THREE.InstancedMesh] behind [meshRef], as far as the colour effect
    sees it: the number of instances given to its constructor, and its
    colour buffer, which is null until the first [setColorAt].  A slot holds
    the argument of the [THREE.Color] copied into it; [None] (undefined)
    is white, which is also what a new buffer is filled with. *)
Record Mesh : Type := mkMesh {
  instances : nat;
  instanceColor : option (list (option string));
  colorNeedsUpdate : bool
}.

(** The mesh as the host creates it from [args={[geometry, undefined, count]}]. *)
Definition newMesh (count : nat) : Mesh := mkMesh count None false.

(** [InstancedMesh.setColorAt(i, c)]: the buffer is created on first use;
    a write beyond it is dropped. *)
Definition setColorAt (i : nat) (c : option string) (m : Mesh) : Mesh :=
  let buffer := default (replicate (instances m) None) (instanceColor m) in
  mkMesh (instances m) (Some (<[i := c]> buffer)) (colorNeedsUpdate m).

(** [data.forEach((d, i) => mesh.setColorAt(i, d.color))], index from [i]. *)
Fixpoint setColorsFrom (i : nat) (data : list Datum) (m : Mesh) : Mesh :=
  match data with
  | [] => m
  | d :: rest => setColorsFrom (S i) rest (setColorAt i (color d) m)
  end.

(** The [useLayoutEffect] callback: nothing without a mesh; otherwise the
    colours, then [instanceColor!.needsUpdate = true], which throws a
    TypeError when [instanceColor] is still null. *)
Definition useLayoutEffect (meshRef : option Mesh) (data : list Datum)
  : Completion (option Mesh) :=
  match meshRef with
  | None => Normal None
  | Some m =>
      let m' := setColorsFrom 0 data m in
      match instanceColor m' with
      | None => Thrown TypeError
      | Some buffer => Normal (Some (mkMesh (instances m') (Some buffer) true))
      end
  end.

(** An array passed as a prop is an object: it has an identity besides its
    items. *)
Record ArrayRef : Type := mkArrayRef { identity : nat; items : list string }.

Inductive OrnamentType : Type := ball | gift.

Definition sameType (a b : OrnamentType) : bool :=
  match a, b with
  | ball, ball | gift, gift => true
  | _, _ => false
  end.

(** [OrnamentProps]. *)
Record Props : Type := mkProps {
  progress : R;
  type : OrnamentType;
  count : Z;
  colorPalette : ArrayRef
}.

(** What [useMemo] keeps from one render to the next: the dependencies of
    its last computation and the result. *)
Record Memo : Type := mkMemo {
  dep_count : Z;
  dep_type : OrnamentType;
  dep_palette : nat;
  memoData : list Datum
}.

(** React compares each dependency with [Object.is]: the count and the type
    by value, the palette array by identity. *)
Definition sameDeps (m : Memo) (p : Props) : bool :=
  (dep_count m =? count p)%Z && sameType (dep_type m) (type p)
  && (dep_palette m =? identity (colorPalette p))%nat.

(** [useMemo(() => ..., [count, type, colorPalette])]. *)
Definition useMemo (prev : option Memo) (p : Props) : World -> Completion Memo * World :=
  fun w =>
    let compute :=
      match data (count p) (items (colorPalette p)) w with
      | (Normal l, w') =>
          (Normal (mkMemo (count p) (type p) (identity (colorPalette p)) l), w')
      | (Thrown e, w') => (Thrown e, w')
      end in
    match prev with
    | Some m => if sameDeps m p then (Normal m, w) else compute
    | None => compute
    end.

(** What one render leaves to the frame callback it registers. *)
Record Rendered : Type := mkRendered { tempObj : Object3D; memo : Memo }.

(** The body of the component, one render: the scratch object, the
    memoised data, and the geometry, whose constructor draws a uuid. *)
Definition render (prev : option Memo) (p : Props) : World -> Completion Rendered * World :=
  fun w =>
    let '(t, w1) := newObject3D w in
    match useMemo prev p w1 with
    | (Normal m, w2) =>
        let '(_, w3) := generateUUID w2 in
        (Normal (mkRendered t m), w3)
    | (Thrown e, w2) => (Thrown e, w2)
    end.



End OrnamentsComponent.

(** [SceneContent] in App.tsx, as far as it feeds the ornaments. *)
Module SceneContent.
Import OrnamentsComponent.

(** Evaluating an array literal creates a new array; [next] numbers the
    arrays created so far. *)
Definition arrayLiteral (items : list string) (next : nat) : ArrayRef * nat :=
  (mkArrayRef next items, S next).

Definition golds : list string :=
  ["#FFD700"; "#C0C0C0"; "#D4AF37"; "#B8860B"]%string.
Definition boxes : list string := ["#800000"; "#004225"; "#FFFFFF"]%string.

(** The props of the two [Ornaments] elements in one evaluation of
    [SceneContent]. *)
Definition ornamentProps (progress : R) (next : nat) : (Props * Props) * nat :=
  let '(a, next) := arrayLiteral golds next in
  let '(b, next) := arrayLiteral boxes next in
  ((mkProps progress ball 200 a, mkProps progress gift 50 b), next).

End SceneContent.

(** ** The signal filter in double precision

    [App.loop] above is the update rule over the reals.  The running code
    applies it to binary64 numbers, which round after every operation;
    [Double] is that computation, on Rocq's primitive floats. *)

Module Double.
Import Floats.
#[local] Set Warnings "-inexact-float".

(** One pass of [loop] on the numbers the program computes with: JavaScript
    numbers are binary64 floats, and so is the literal [0.05]. *)
Definition loop (isOpen : bool) (progress : float) : float :=
  let target := (if isOpen then 1 else 0)%float in
  (progress + (target - progress) * 0.05)%float.

(** [n] consecutive passes with the same classification. *)
Fixpoint ticks (n : nat) (isOpen : bool) (progress : float) : float :=
  match n with
  | O => progress
  | S n' => ticks n' isOpen (loop isOpen progress)
  end.


(** [useRef(0)]. *)
Definition progress0 : float := 0%float.



End Double.

(** * Properties *)

(** ** Arithmetic helpers *)

Lemma Rgtb_true a b : Rgtb a b = true <-> b < a.
Proof. unfold Rgtb. destruct (Rlt_dec b a); split; intros; try easy. Qed.

Lemma Rgtb_false a b : Rgtb a b = false <-> a <= b.
Proof.
  unfold Rgtb. destruct (Rlt_dec b a); split; intros; try easy; lra.
Qed.



(** ** Signal filter *)

Section SignalFilter.
Import App.


Lemma one_minus_k_pos : 0 < 1 - k < 1.
Proof. unfold k. lra. Qed.

(** One pass scales the signed error by [1 - k]. *)
Lemma tick_error open p :
  loop open p - targetOf open = (p - targetOf open) * (1 - k).
Proof. unfold loop, k. lra. Qed.

Lemma ticks_error n : forall open p,
  ticks n open p - targetOf open = (p - targetOf open) * (1 - k) ^ n.
Proof.
  induction n as [|n IH]; intros open p; simpl.
  - lra.
  - rewrite IH, tick_error. ring.
Qed.

Lemma pow_antitone n m : (n <= m)%nat -> (1 - k) ^ m <= (1 - k) ^ n.
Proof.
  intros Hnm. pose proof one_minus_k_pos as Hk.
  replace m with (n + (m - n))%nat by lia.
  rewrite pow_add.
  assert (0 < (1 - k) ^ n) by (apply pow_lt; lra).
  assert (Hle : (1 - k) ^ (m - n) <= 1 ^ (m - n)) by (apply pow_incr; lra).
  rewrite pow1 in Hle.
  set (a := (1 - k) ^ n) in *. set (b := (1 - k) ^ (m - n)) in *.
  nra.
Qed.


(** One pass keeps the progress inside [0,1]. *)
Lemma tick_bounded open p : 0 <= p <= 1 -> 0 <= loop open p <= 1.
Proof. intros Hp. unfold loop. destruct open; simpl; lra. Qed.

Lemma trace_bounded samples : forall p,
  0 <= p <= 1 -> Forall (fun q => 0 <= q <= 1) (trace samples p).
Proof.
  induction samples as [|open rest IH]; intros p Hp; simpl.
  - constructor; [exact Hp | constructor].
  - constructor; [exact Hp|]. apply IH, tick_bounded, Hp.
Qed.

Lemma run_last_of_trace samples : forall p,
  last (trace samples p) = Some (run samples p).
Proof.
  induction samples as [|open rest IH]; intros p; simpl; [reflexivity|].
  rewrite last_cons, IH. reflexivity.
Qed.

(** C2: along every sequence of ticks, each with target 0 or 1, the
    progress updated by [progress += (target - progress) * 0.05] from its
    initial value 0 lies in [0,1] at every tick, and so does the final
    value. *)
Theorem progress_bounded (samples : list bool) :
  Forall (fun p => 0 <= p <= 1) (trace samples progress0) /\
  0 <= run samples progress0 <= 1.
Proof.
  assert (H0 : 0 <= progress0 <= 1) by (unfold progress0; lra).
  pose proof (trace_bounded samples progress0 H0) as HF.
  split; [exact HF|].
  rewrite Forall_forall in HF. apply HF.
  apply last_Some_elem_of, run_last_of_trace.
Qed.

End SignalFilter.

(** ** The signal filter as computed *)

Section DoubleFilter.
Import Double.
























End DoubleFilter.

(** ** Missing samples *)

Section MissingSample.
Import GestureHandler App.

(** Without landmarks a fresh video frame yields the not-detected sample. *)
Lemma predict_no_landmarks last inp :
  refsReady inp = true -> currentTime inp <> last ->
  hasLandmarks (results inp) = false ->
  predict last inp = (currentTime inp, Sent notDetected).
Proof.
  intros Hr Ht Hl. unfold predict. rewrite Hr. simpl.
  destruct (Req_dec_T (currentTime inp) last) as [E|_]; [contradiction|].
  rewrite Hl. reflexivity.
Qed.

(** Every sample [predict] sends with [detected = false] has
    [isOpen = false]. *)
Lemma classify_detected landmarks s :
  classify landmarks = Some s -> s_detected s = true.
Proof.
  unfold classify. intros H.
  repeat match type of H with
         | (match ?o with _ => _ end) ≫= _ = _ => destruct o; simpl in H; try discriminate
         | mbind _ ?o = _ => destruct o; simpl in H; try discriminate
         end.
  inversion H. reflexivity.
Qed.

Lemma predict_sent last inp s :
  snd (predict last inp) = Sent s -> s_detected s = false -> s_isOpen s = false.
Proof.
  unfold predict.
  destruct (negb (refsReady inp)); simpl; [discriminate|].
  destruct (Req_dec_T (currentTime inp) last); simpl; [discriminate|].
  destruct (hasLandmarks (results inp)); simpl.
  - destruct (classify _) eqn:E; simpl; [|discriminate].
    intros [= <-] Hd. apply classify_detected in E. congruence.
  - intros [= <-]. reflexivity.
Qed.

Lemma reachable_closed_when_lost g :
  reachable g -> detected g = false -> isOpen g = false.
Proof.
  induction 1 as [|g last inp Hg IH]; [reflexivity|].
  destruct (snd (predict last inp)) as [|s|] eqn:E; simpl; auto.
  apply (predict_sent last inp s E).
Qed.

Lemma lost_aim_zero g : detected g = false -> handX g = 0 /\ handY g = 0.
Proof. unfold handX, handY. intros ->. split; reflexivity. Qed.

(** With the aim at (0,0) the camera offset from its base position
    shrinks by the factor 0.95 per frame. *)
Lemma camera_decay n : forall cam,
  vx (cameraSteps n 0 0 cam) = vx cam * (1 - 0.05) ^ n /\
  vy (cameraSteps n 0 0 cam) - 2 = (vy cam - 2) * (1 - 0.05) ^ n.
Proof.
  induction n as [|n IH]; intros cam; simpl.
  - split; lra.
  - destruct (IH (CameraRig 0 0 cam)) as [Hx Hy]. rewrite Hx.
    split; [|rewrite Hy]; unfold CameraRig, lerp; simpl; lra.
Qed.

Lemma ticks_decay n p : ticks n false p = p * (1 - k) ^ n.
Proof. pose proof (ticks_error n false p) as H. simpl in H. lra. Qed.

(** No sample at all: while the refs are not set, or the video time has
    not moved since the last processed frame, [predict] calls nothing and
    the gesture state is what it was. *)
Lemma predict_silent last inp :
  refsReady inp = false \/ currentTime inp = last ->
  predict last inp = (last, Silent).
Proof.
  intros [Hr|Ht]; unfold predict.
  - rewrite Hr. reflexivity.
  - destruct (negb (refsReady inp)); [reflexivity|].
    destruct (Req_dec_T (currentTime inp) last) as [_|Hne]; [reflexivity|contradiction].
Qed.

(** C8, as the claim states it, fails on a tick without a sample: with an
    open hand detected at (1, -1) and a video frame already processed,
    [predict] is silent, and the target stays 1 and the aim stays (1, -1). *)
Lemma stale_sample_held :
  let g := mkHandGestureData true (1, -1) true in
  let inp := mkPredictInput true 1 (Some []) in
  let g' := afterPredict g (snd (predict 1 inp)) in
  snd (predict 1 inp) = Silent /\ target g' = 1 /\ handX g' = 1 /\ handY g' = -1.
Proof.
  intros g inp g'. subst g'.
  rewrite (predict_silent 1 inp) by (right; reflexivity).
  simpl. repeat split; reflexivity.
Qed.

(** C8 (amended): a sample that reports no hand is handled as an ordinary
    sample and not as an error: when the detector returns no landmarks for
    a new video frame, [predict] sends the not-detected sample, the morph
    target is 0 (FORMED) and the aim handed to the camera is (0,0) whatever
    hand position was stored before; from then on the progress and the
    camera offset decay geometrically.  The same holds in the initial state
    and in every reachable gesture state with [detected = false].  A tick
    without any sample is different: while the video and landmarker refs
    are not set, or the video time has not changed, [predict] sends
    nothing and the gesture state, with its target and aim, is kept as it
    is. *)
Theorem missing_sample_is_formed
    (g : HandGestureData) (last : R) (inp : PredictInput)
    (n : nat) (p : R) (cam : Vec3) :
  (refsReady inp = true -> currentTime inp <> last ->
   hasLandmarks (results inp) = false ->
   let g' := afterPredict g (snd (predict last inp)) in
   snd (predict last inp) = Sent notDetected /\
   target g' = 0 /\ handX g' = 0 /\ handY g' = 0 /\
   ticks n (isOpen g') p = p * (1 - k) ^ n /\
   vx (cameraSteps n (handX g') (handY g') cam) = vx cam * (1 - 0.05) ^ n /\
   vy (cameraSteps n (handX g') (handY g') cam) - 2 = (vy cam - 2) * (1 - 0.05) ^ n) /\
  (refsReady inp = false \/ currentTime inp = last ->
   let g' := afterPredict g (snd (predict last inp)) in
   predict last inp = (last, Silent) /\
   g' = g /\ target g' = target g /\ handX g' = handX g /\ handY g' = handY g) /\
  (target initialGesture = 0 /\ handX initialGesture = 0 /\ handY initialGesture = 0) /\
  (forall g0, reachable g0 -> detected g0 = false ->
              target g0 = 0 /\ handX g0 = 0 /\ handY g0 = 0).
Proof.
  split; [|split; [|split]].
  - intros Hr Ht Hl g'. subst g'.
    rewrite (predict_no_landmarks last inp Hr Ht Hl). simpl.
    repeat split; try reflexivity.
    + apply ticks_decay.
    + apply camera_decay.
    + apply camera_decay.
  - intros Hs g'. subst g'. rewrite (predict_silent last inp Hs). simpl.
    repeat split; reflexivity.
  - repeat split; reflexivity.
  - intros g0 Hg0 Hd. split.
    + unfold target. rewrite (reachable_closed_when_lost g0); auto.
    + apply lost_aim_zero; assumption.
Qed.

(** A stale open hand at (1, -1): a new frame without landmarks resets
    target and aim; a frame already processed leaves them. *)
Lemma missing_sample_is_formed_witness :
  let g := mkHandGestureData true (1, -1) true in
  let inp := mkPredictInput true 1 (Some []) in
  (let g' := afterPredict g (snd (predict 0 inp)) in
   target g' = 0 /\ handX g' = 0 /\ handY g' = 0) /\
  afterPredict g (snd (predict 1 inp)) = g.
Proof.
  intros g inp.
  assert (H1 : refsReady inp = true) by reflexivity.
  assert (H2 : currentTime inp <> 0) by (simpl; lra).
  assert (H3 : hasLandmarks (results inp) = false) by reflexivity.
  split.
  - pose proof (proj1 (missing_sample_is_formed g 0 inp 0 0 vzero) H1 H2 H3) as H.
    simpl in H. decompose [and] H. repeat split; assumption.
  - apply (proj1 (proj2 (missing_sample_is_formed g 1 inp 0 0 vzero))).
    right. reflexivity.
Defined.

End MissingSample.

(** ** Running monadic code *)

(** Run the monadic operations of a straight-line program, leaving the
    heap operations and the arithmetic folded. *)
Ltac js_unfold :=
  unfold mbind, mret, JS_bind, JS_ret;
  cbv beta iota zeta delta
    [random newVector3 readV writeV set_heap get_world put_world advance
     heap rng tempQuat tempMatrix instanceMatrix fst snd].

Lemma forLoop_S {S : Type} start n (body : nat -> S -> JS S) s w :
  forLoop start (Datatypes.S n) body s w =
  let '(s', w') := body start s w in forLoop (Datatypes.S start) n body s' w'.
Proof. reflexivity. Qed.

(** ** Foliage generation *)

Section FoliageGeneration.
Import Foliage.

Lemma body_run i b w :
  body i b w =
  (let F := Spec.coneFormed treeHeight maxRadius (rng w 0%nat) (rng w 1%nat) (rng w 2%nat) in
   let C := Spec.shellChaos 15 10 (rng w 3%nat) (rng w 4%nat) (rng w 5%nat) in
   mkBuffers
     (<[(i * 3 + 2)%nat := vz F]> (<[(i * 3 + 1)%nat := vy F]> (<[(i * 3)%nat := vx F]> (positions b))))
     (<[(i * 3 + 2)%nat := vz C]> (<[(i * 3 + 1)%nat := vy C]> (<[(i * 3)%nat := vx C]> (chaosPositions b))))
     (<[i := rng w 6%nat]> (randoms b)),
   advance 7 w).
Proof.
  destruct w as [u h q m im]. unfold body. js_unfold.
  unfold Spec.coneFormed, Spec.shellChaos, Spec.radiusAtY. cbn [vx vy vz].
  replace (u 1%nat * PI * 2) with (u 1%nat * (2 * PI)) by ring.
  replace (u 4%nat * PI * 2) with (u 4%nat * (2 * PI)) by ring.
  replace (u 5%nat * 2 - 1) with (2 * u 5%nat - 1) by ring.
  reflexivity.
Qed.

Lemma attr3_insert_other array i j c v :
  i <> j -> (c < 3)%nat -> attr3 (<[(j * 3 + c)%nat := v]> array) i = attr3 array i.
Proof.
  intros Hij Hc. unfold attr3.
  rewrite !list_lookup_insert_ne by lia. reflexivity.
Qed.

Lemma attr3_insert3_other array i j x y z :
  i <> j ->
  attr3 (<[(j * 3 + 2)%nat := z]> (<[(j * 3 + 1)%nat := y]> (<[(j * 3)%nat := x]> array))) i
  = attr3 array i.
Proof.
  intros Hij.
  rewrite (attr3_insert_other _ i j 2), (attr3_insert_other _ i j 1) by (auto; lia).
  replace (j * 3)%nat with (j * 3 + 0)%nat by lia.
  apply attr3_insert_other; auto; lia.
Qed.

Lemma attr3_insert3_same array i x y z :
  (i * 3 + 2 < length array)%nat ->
  attr3 (<[(i * 3 + 2)%nat := z]> (<[(i * 3 + 1)%nat := y]> (<[(i * 3)%nat := x]> array))) i
  = Some (mkVec3 x y z).
Proof.
  intros Hlen. unfold attr3.
  rewrite (list_lookup_insert_ne _ (i * 3 + 2)%nat (i * 3)%nat) by lia.
  rewrite (list_lookup_insert_ne _ (i * 3 + 1)%nat (i * 3)%nat) by lia.
  rewrite list_lookup_insert_eq by lia.
  rewrite (list_lookup_insert_ne _ (i * 3 + 2)%nat (i * 3 + 1)%nat) by lia.
  rewrite list_lookup_insert_eq by (rewrite length_insert; lia).
  rewrite list_lookup_insert_eq by (rewrite !length_insert; lia).
  reflexivity.
Qed.

Lemma forLoop_body n : forall start b w,
  (3 * (start + n) <= length (positions b))%nat ->
  (3 * (start + n) <= length (chaosPositions b))%nat ->
  (start + n <= length (randoms b))%nat ->
  let r := forLoop start n body b w in
  (forall m, rng (snd r) m = rng w (7 * n + m)%nat) /\
  heap (snd r) = heap w /\
  length (positions (fst r)) = length (positions b) /\
  length (chaosPositions (fst r)) = length (chaosPositions b) /\
  length (randoms (fst r)) = length (randoms b) /\
  (forall i, (i < start)%nat -> entityAt (fst r) i = entityAt b i) /\
  (forall i, (start <= i < start + n)%nat ->
             entityAt (fst r) i = Some (drawn (rng w) (i - start))).
Proof.
  induction n as [|n IH]; intros start b w Hp Hc Hr.
  - simpl. repeat split; auto. intros i Hi. lia.
  - rewrite forLoop_S, body_run. cbv beta iota zeta.
    set (F := Spec.coneFormed _ _ _ _ _). set (C := Spec.shellChaos _ _ _ _ _).
    set (b1 := mkBuffers _ _ _).
    assert (Hp1 : length (positions b1) = length (positions b))
      by (simpl; rewrite !length_insert; reflexivity).
    assert (Hc1 : length (chaosPositions b1) = length (chaosPositions b))
      by (simpl; rewrite !length_insert; reflexivity).
    assert (Hr1 : length (randoms b1) = length (randoms b))
      by (simpl; rewrite !length_insert; reflexivity).
    destruct (IH (S start) b1 (advance 7 w)) as (Hrng & Hheap & Lp & Lc & Lr & Hold & Hnew);
      try lia.
    assert (Hat : entityAt b1 start = Some (F, C, rng w 6%nat)).
    { unfold entityAt, b1. simpl.
      rewrite !attr3_insert3_same by lia. simpl.
      rewrite list_lookup_insert_eq by lia. reflexivity. }
    assert (Hbefore : forall i, (i < start)%nat -> entityAt b1 i = entityAt b i).
    { intros i Hi. unfold entityAt, b1. simpl.
      rewrite !attr3_insert3_other by lia.
      rewrite list_lookup_insert_ne by lia. reflexivity. }
    split; [|split; [|split; [|split; [|split; [|split]]]]].
    + intros m. rewrite Hrng. simpl. f_equal. lia.
    + rewrite Hheap. reflexivity.
    + lia.
    + lia.
    + lia.
    + intros i Hi. rewrite Hold by lia. apply Hbefore, Hi.
    + intros i Hi. destruct (decide (i = start)) as [->|Hne].
      * rewrite Hold by lia. rewrite Hat. unfold drawn.
        replace (start - start)%nat with 0%nat by lia. reflexivity.
      * rewrite Hnew by lia. unfold drawn. simpl rng.
        replace (i - start)%nat with (S (i - S start)) by lia.
        repeat f_equal; lia.
Qed.

Lemma generateN_entity n w i :
  (i < n)%nat ->
  entityAt (fst (generateN n w)) i = Some (drawn (rng w) i) /\
  heap (snd (generateN n w)) = heap w.
Proof.
  intros Hi. unfold generateN.
  destruct (forLoop_body n 0
              (mkBuffers (replicate (n * 3) 0) (replicate (n * 3) 0) (replicate n 0)) w)
    as (_ & Hheap & _ & _ & _ & _ & Hnew); simpl; rewrite ?length_replicate; try lia.
  split; [|exact Hheap].
  rewrite Hnew by lia. replace (i - 0)%nat with i by lia. reflexivity.
Qed.

Lemma entityAt_attr3 b i p c a :
  entityAt b i = Some (p, c, a) ->
  attr3 (positions b) i = Some p /\ attr3 (chaosPositions b) i = Some c /\
  randoms b !! i = Some a.
Proof.
  unfold entityAt.
  destruct (attr3 (positions b) i), (attr3 (chaosPositions b) i), (randoms b !! i);
    intros [= <- <- <-] || discriminate. auto.
Qed.

(** The geometry of one cone sample. *)
Lemma coneFormed_geometry H Rm uY uA uR :
  0 < H -> 0 <= Rm -> 0 <= uY < 1 -> 0 <= uA < 1 -> 0 <= uR < 1 ->
  let y := uY * H in
  let p := Spec.coneFormed H Rm uY uA uR in
  0 <= y < H /\
  0 <= uA * (2 * PI) < 2 * PI /\
  0 <= Spec.radiusAtY H Rm y <= Rm /\
  vy p = y - H / 3 /\
  vx p * vx p + vz p * vz p = uR * (Spec.radiusAtY H Rm y) ^ 2 /\
  vx p * vx p + vz p * vz p <= (Spec.radiusAtY H Rm y) ^ 2.
Proof.
  intros HH HR HY HA HU y p.
  assert (Hy : 0 <= y < H) by (unfold y; nra).
  assert (Hrad : 0 <= Spec.radiusAtY H Rm y <= Rm).
  { unfold Spec.radiusAtY.
    assert (0 <= (H - y) / H <= 1).
    { split.
      - apply Rmult_le_pos; [lra|]. left. apply Rinv_0_lt_compat, HH.
      - apply (Rmult_le_reg_r H); [exact HH|]. unfold Rdiv.
        rewrite Rmult_assoc, Rinv_l by lra. lra. }
    nra. }
  assert (Hsq : vx p * vx p + vz p * vz p = uR * (Spec.radiusAtY H Rm y) ^ 2).
  { unfold p, Spec.coneFormed. simpl. fold y.
    set (a := uA * (2 * PI)). set (rad := Spec.radiusAtY H Rm y).
    pose proof (sin2_cos2 a) as Hsc. unfold Rsqr in Hsc.
    pose proof (sqrt_sqrt uR (proj1 HU)) as Hs.
    transitivity ((sqrt uR * sqrt uR) * (rad * rad) * (sin a * sin a + cos a * cos a)); [ring|].
    rewrite Hs, Hsc. ring. }
  pose proof PI_RGT_0 as Hpi.
  repeat split; try lra; nra.
Qed.

Lemma count_positive : (0 < count)%nat.
Proof. vm_compute. apply le_n_S, Nat.le_0_l. Qed.

(** C3: every formed foliage position written by the generation loop is the
    cone sample of the specification applied to the loop's next three
    draws: height [y = U1 * treeHeight] in [0, treeHeight), radius bound
    [radiusAtY = (treeHeight - y)/treeHeight * maxRadius] (0 at the apex),
    angle [U2 * 2*pi] in [0, 2*pi), radial distance [sqrt(U3) * radiusAtY]
    (so the squared distance from the axis is [U3 * radiusAtY^2] and the
    point is inside the cone), [x = r cos(angle)], [z = r sin(angle)], and
    height recentred to [y - treeHeight/3]. *)
Theorem foliage_formed_sampling (w : World) (i : nat) :
  (i < count)%nat -> validDraws w ->
  let uY := rng w (7 * i)%nat in
  let uA := rng w (7 * i + 1)%nat in
  let uR := rng w (7 * i + 2)%nat in
  let y := uY * treeHeight in
  let rad := Spec.radiusAtY treeHeight maxRadius y in
  exists p,
    attr3 (positions (fst (generate w))) i = Some p /\
    p = Spec.coneFormed treeHeight maxRadius uY uA uR /\
    vx p = sqrt uR * rad * cos (uA * (2 * PI)) /\
    vy p = y - treeHeight / 3 /\
    vz p = sqrt uR * rad * sin (uA * (2 * PI)) /\
    0 <= y < treeHeight /\
    0 <= uA * (2 * PI) < 2 * PI /\
    0 <= rad <= maxRadius /\
    Spec.radiusAtY treeHeight maxRadius treeHeight = 0 /\
    vx p * vx p + vz p * vz p = uR * rad ^ 2 /\
    vx p * vx p + vz p * vz p <= rad ^ 2.
Proof.
  intros Hi Hv uY uA uR y rad.
  destruct (generateN_entity count w i Hi) as [He _].
  apply entityAt_attr3 in He. destruct He as (Hp & _ & _).
  eexists. split; [exact Hp|].
  destruct (coneFormed_geometry treeHeight maxRadius uY uA uR) as (G1 & G2 & G3 & G4 & G5 & G6);
    try apply Hv; try (unfold treeHeight, maxRadius; lra).
  repeat split; try assumption; try reflexivity; try apply G1; try apply G2; try apply G3.
  unfold Spec.radiusAtY, treeHeight, maxRadius. lra.
Qed.

Lemma foliage_formed_sampling_witness :
  exists p,
    attr3 (positions (fst (generate (constDraws (1 / 2))))) 0 = Some p /\
    vy p = 1 / 2 * treeHeight - treeHeight / 3.
Proof.
  assert (Hv : validDraws (constDraws (1 / 2))) by (intros n; simpl; lra).
  destruct (foliage_formed_sampling (constDraws (1 / 2)) 0 count_positive Hv)
    as (p & Hp & _ & _ & Hy & _).
  exists p. split; [exact Hp | exact Hy].
Defined.

End FoliageGeneration.

(** ** Heap allocation *)

Section Allocation.

Lemma fresh_lookup (h : gmap loc Vec3) : h !! fresh (dom h) = None.
Proof. apply not_elem_of_dom, is_fresh. Qed.

Lemma fresh_not_old (h : gmap loc Vec3) l : is_Some (h !! l) -> fresh (dom h) <> l.
Proof.
  intros Hl E. rewrite <- E, fresh_lookup in Hl. destruct Hl; discriminate.
Qed.

Lemma insert_fresh_old (h : gmap loc Vec3) l v :
  is_Some (h !! l) -> <[fresh (dom h) := v]> h !! l = h !! l.
Proof. intros Hl. apply lookup_insert_ne, fresh_not_old, Hl. Qed.

End Allocation.

(** ** Ornament generation *)

Section OrnamentGeneration.
Import Ornaments.

Lemma entity_spec palette w :
  let r := entity palette w in
  generatedFrom palette (rng w) (heap (snd r)) (fst r) /\
  (forall m, rng (snd r) m = rng w (13 + m)%nat) /\
  (forall l, is_Some (heap w !! l) -> heap (snd r) !! l = heap w !! l) /\
  tempQuat (snd r) = tempQuat w /\ tempMatrix (snd r) = tempMatrix w /\
  instanceMatrix (snd r) = instanceMatrix w.
Proof.
  destruct w as [u h q tm im]. unfold entity. js_unfold.
  set (l1 := fresh (dom h)).
  unfold valueAt. rewrite lookup_insert_eq. cbn [default].
  rewrite insert_insert_eq.
  set (h1 := <[l1 := _]> h).
  set (l2 := fresh (dom h1)).
  set (h2 := <[l2 := _]> h1).
  set (l3 := fresh (dom h2)).
  assert (H12 : l2 <> l1).
  { apply fresh_not_old. unfold h1. rewrite lookup_insert_eq. eauto. }
  assert (H32 : l3 <> l2).
  { apply fresh_not_old. unfold h2. rewrite lookup_insert_eq. eauto. }
  assert (H31 : l3 <> l1).
  { apply fresh_not_old. unfold h2. rewrite lookup_insert_ne by auto.
    unfold h1. rewrite lookup_insert_eq. eauto. }
  unfold generatedFrom. cbn.
  repeat split.
  - rewrite lookup_insert_ne by auto. unfold h2. rewrite lookup_insert_eq. reflexivity.
  - rewrite lookup_insert_eq. unfold Spec.shellChaos.
    replace (u 4%nat * PI * 2) with (u 4%nat * (2 * PI)) by ring.
    replace (u 5%nat * 2 - 1) with (2 * u 5%nat - 1) by ring.
    reflexivity.
  - rewrite lookup_insert_ne by auto. unfold h2. rewrite lookup_insert_ne by auto.
    unfold h1. rewrite lookup_insert_eq. reflexivity.
  - intros l Hl.
    assert (l1 <> l) by (apply fresh_not_old, Hl).
    assert (Hl1 : is_Some (h1 !! l)) by (unfold h1; rewrite lookup_insert_ne by auto; exact Hl).
    assert (l2 <> l) by (apply fresh_not_old, Hl1).
    assert (Hl2 : is_Some (h2 !! l)) by (unfold h2; rewrite lookup_insert_ne by auto; exact Hl1).
    assert (l3 <> l) by (apply fresh_not_old, Hl2).
    rewrite lookup_insert_ne by auto. unfold h2. rewrite lookup_insert_ne by auto.
    unfold h1. rewrite lookup_insert_ne by auto. reflexivity.
Qed.

Lemma mapM_cons {A B : Type} (f : A -> JS B) a l w :
  mapM f (a :: l) w =
  let '(b, w1) := f a w in let '(bs, w2) := mapM f l w1 in (b :: bs, w2).
Proof. reflexivity. Qed.

Lemma generatedFrom_mono palette u (h h' : gmap loc Vec3) d :
  (forall l, is_Some (h !! l) -> h' !! l = h !! l) ->
  generatedFrom palette u h d -> generatedFrom palette u h' d.
Proof.
  intros Hh (H1 & H2 & H3 & H4 & H5 & H6 & H7).
  unfold generatedFrom.
  rewrite !Hh by (rewrite ?H1, ?H2, ?H5; eauto).
  repeat split; assumption.
Qed.

Lemma generatedFrom_ext palette (u u' : nat -> R) h d :
  (forall m, u m = u' m) ->
  generatedFrom palette u h d -> generatedFrom palette u' h d.
Proof.
  intros Hu. unfold generatedFrom. rewrite !Hu. auto.
Qed.

Lemma mapM_entity palette n : forall w,
  let r := mapM (fun _ : R => entity palette) (replicate n 0) w in
  length (fst r) = n /\
  (forall m, rng (snd r) m = rng w (13 * n + m)%nat) /\
  (forall l, is_Some (heap w !! l) -> heap (snd r) !! l = heap w !! l) /\
  (forall i d, fst r !! i = Some d ->
               generatedFrom palette (fun m => rng w (13 * i + m)%nat) (heap (snd r)) d).
Proof.
  induction n as [|n IH]; intros w.
  - simpl. split; [reflexivity|]. split; [reflexivity|]. split; [reflexivity|].
    intros i d Hd. rewrite lookup_nil in Hd. discriminate.
  - simpl replicate. rewrite mapM_cons.
    pose proof (entity_spec palette w) as He. cbv zeta in He.
    destruct (entity palette w) as [d1 w1]. simpl in He.
    destruct He as (Hg & Hrng1 & Hold1 & _).
    specialize (IH w1). cbv zeta in IH.
    destruct (mapM _ (replicate n 0) w1) as [ds w2]. simpl in IH.
    destruct IH as (Hlen & Hrng2 & Hold2 & Hall).
    cbv zeta. simpl.
    split; [lia|].
    split; [intros m; rewrite Hrng2, Hrng1; f_equal; lia|].
    split.
    { intros l Hl. rewrite Hold2, Hold1; auto. rewrite Hold1; auto. }
    intros [|i] d Hd; simpl in Hd.
    + injection Hd as <-.
      apply (generatedFrom_mono _ _ (heap w1)); [exact Hold2|].
      eapply generatedFrom_ext; [|exact Hg]. intros m. reflexivity.
    + apply Hall in Hd.
      eapply generatedFrom_ext; [|exact Hd].
      intros m. simpl. rewrite Hrng1. f_equal. lia.
Qed.

Lemma data_valid count palette w :
  validArrayLength count = true ->
  exists l w',
    data count palette w = (Normal l, w') /\
    length l = Z.to_nat count /\
    (forall l0, is_Some (heap w !! l0) -> heap w' !! l0 = heap w !! l0) /\
    (forall i d, l !! i = Some d ->
                 generatedFrom palette (fun m => rng w (13 * i + m)%nat) (heap w') d).
Proof.
  intros Hv. unfold data. rewrite Hv.
  pose proof (mapM_entity palette (Z.to_nat count) w) as H. cbv zeta in H.
  destruct (mapM _ _ w) as [l w']. simpl in H.
  destruct H as (H1 & _ & H3 & H4).
  exists l, w'. auto.
Qed.

Lemma data_invalid count palette w :
  validArrayLength count = false -> data count palette w = (Thrown RangeError, w).
Proof. intros Hv. unfold data. rewrite Hv. reflexivity. Qed.

Lemma floorIndex_in_range u n :
  0 <= u < 1 -> (0 < n)%nat -> (floorIndex (u * INR n) < n)%nat.
Proof.
  intros Hu Hn. unfold floorIndex.
  assert (0 < INR n) by (apply lt_0_INR; exact Hn).
  destruct (base_Int_part (u * INR n)) as [Hle Hgt].
  assert (Hlo : (0 <= Int_part (u * INR n))%Z).
  { apply Z.lt_succ_r. apply lt_IZR. rewrite succ_IZR. simpl. nra. }
  assert (Hhi : (Int_part (u * INR n) < Z.of_nat n)%Z).
  { apply lt_IZR. rewrite <- INR_IZR_INZ. nra. }
  lia.
Qed.

(** Colours written into a buffer that exists: each entity's slot gets
    its colour when the slot is inside the buffer, and the length stays. *)
Lemma setColorsFrom_buffer data : forall i0 m buffer,
  OrnamentsComponent.instanceColor m = Some buffer ->
  exists buffer',
    OrnamentsComponent.setColorsFrom i0 data m
    = OrnamentsComponent.mkMesh (OrnamentsComponent.instances m) (Some buffer')
                                (OrnamentsComponent.colorNeedsUpdate m) /\
    length buffer' = length buffer /\
    (forall j, (j < i0)%nat -> buffer' !! j = buffer !! j) /\
    (forall k d, data !! k = Some d -> (i0 + k < length buffer)%nat ->
                 buffer' !! (i0 + k)%nat = Some (color d)).
Proof.
  induction data as [|d rest IH]; intros i0 m buffer Hb.
  - exists buffer. simpl. destruct m as [n ic u]. simpl in *. subst ic.
    split; [reflexivity|]. split; [reflexivity|]. split; [auto|].
    intros k d Hk. rewrite lookup_nil in Hk. discriminate.
  - simpl OrnamentsComponent.setColorsFrom.
    set (m1 := OrnamentsComponent.setColorAt i0 (color d) m).
    assert (Hb1 : OrnamentsComponent.instanceColor m1 = Some (<[i0 := color d]> buffer)).
    { unfold m1, OrnamentsComponent.setColorAt. rewrite Hb. reflexivity. }
    destruct (IH (S i0) m1 _ Hb1) as (b' & Hm & Hlen & Hlow & Hat).
    exists b'. split; [exact Hm|].
    rewrite length_insert in Hlen, Hat.
    split; [exact Hlen|]. split.
    + intros j Hj. rewrite Hlow by lia. apply list_lookup_insert_ne. lia.
    + intros [|k] d' Hk Hin; simpl in Hk.
      * injection Hk as <-. rewrite Nat.add_0_r in *. rewrite Hlow by lia.
        apply list_lookup_insert_eq. exact Hin.
      * replace (i0 + S k)%nat with (S i0 + k)%nat by lia. apply Hat; [exact Hk | lia].
Qed.

(** The colour effect on a mesh that has just been created for [n]
    instances: it throws for an empty entity list, and otherwise leaves a
    colour buffer of [n] slots with each entity's colour in its slot. *)
Lemma useLayoutEffect_first n data :
  (data = [] ->
   OrnamentsComponent.useLayoutEffect (Some (OrnamentsComponent.newMesh n)) data
   = Thrown TypeError) /\
  (data <> [] ->
   exists buffer,
     OrnamentsComponent.useLayoutEffect (Some (OrnamentsComponent.newMesh n)) data
     = Normal (Some (OrnamentsComponent.mkMesh n (Some buffer) true)) /\
     length buffer = n /\
     forall k d, data !! k = Some d -> (k < n)%nat -> buffer !! k = Some (color d)).
Proof.
  split; [intros ->; reflexivity|].
  intros Hne. destruct data as [|d rest]; [congruence|].
  unfold OrnamentsComponent.useLayoutEffect. simpl OrnamentsComponent.setColorsFrom.
  set (m1 := OrnamentsComponent.setColorAt 0 (color d) (OrnamentsComponent.newMesh n)).
  assert (Hb1 : OrnamentsComponent.instanceColor m1
                = Some (<[0%nat := color d]> (replicate n None))) by reflexivity.
  destruct (setColorsFrom_buffer rest 1 m1 _ Hb1) as (b' & Hm & Hlen & Hlow & Hat).
  rewrite Hm. cbn [OrnamentsComponent.instanceColor OrnamentsComponent.instances].
  rewrite length_insert, length_replicate in Hlen, Hat.
  exists b'. split; [reflexivity|]. split; [exact Hlen|].
  intros [|k] d' Hk Hin; simpl in Hk.
  - injection Hk as <-. rewrite Hlow by lia. apply list_lookup_insert_eq.
    rewrite length_replicate. exact Hin.
  - apply (Hat k d' Hk). lia.
Qed.

(** C9, as the claim states it, fails: with an empty palette and count 1,
    creation returns an entity whose colour is the undefined palette entry,
    and the colour effect that follows on the new mesh completes; nothing
    fails. *)
Lemma data_accepts_degenerate :
  exists d m,
    fst (data 1 [] (constDraws (1 / 2))) = Normal [d] /\ color d = None /\
    OrnamentsComponent.useLayoutEffect (Some (OrnamentsComponent.newMesh 1)) [d]
    = Normal (Some m).
Proof.
  destruct (data_valid 1 [] (constDraws (1 / 2)) eq_refl) as (l & w' & Hd & Hlen & _ & Hall).
  rewrite Hd. clear Hd.
  destruct l as [|d [|d' l]]; simpl in Hlen; [lia| |lia].
  destruct (proj2 (useLayoutEffect_first 1 [d])) as (b & Hb & _); [discriminate|].
  exists d. eexists. split; [reflexivity|]. split; [|exact Hb].
  destruct (Hall 0%nat d eq_refl) as (_ & _ & _ & _ & _ & Hc & _).
  rewrite Hc. apply lookup_nil.
Qed.

(** C9 (amended): entity-set creation validates neither the count nor the
    palette.  With a count that is not a valid array length (negative, or
    2^32 and above) it throws the RangeError of the array allocation.  With
    count 0 it returns an empty array, and the mount then fails in the
    colour effect, with a TypeError on the null colour buffer of the new
    mesh.  With a count from 1 to 2^32 - 1 it returns exactly that many
    entities and the colour effect completes, each entity's colour in its
    slot.  Each colour is the palette entry at the drawn index: always the
    undefined entry when the palette is empty, which fails nowhere, and a
    member of the palette when it is not. *)
Theorem ornaments_data_unvalidated (count : Z) (palette : list string) (w : World) :
  ((count < 0 \/ 2 ^ 32 <= count)%Z -> data count palette w = (Thrown RangeError, w)) /\
  ((0 <= count < 2 ^ 32)%Z ->
     exists l,
       fst (data count palette w) = Normal l /\
       length l = Z.to_nat count /\
       (count = 0%Z ->
          l = [] /\
          OrnamentsComponent.useLayoutEffect
            (Some (OrnamentsComponent.newMesh (Z.to_nat count))) l = Thrown TypeError) /\
       ((0 < count)%Z ->
          exists buffer,
            OrnamentsComponent.useLayoutEffect
              (Some (OrnamentsComponent.newMesh (Z.to_nat count))) l
            = Normal (Some (OrnamentsComponent.mkMesh (Z.to_nat count) (Some buffer) true)) /\
            length buffer = Z.to_nat count /\
            forall i d, l !! i = Some d -> buffer !! i = Some (color d)) /\
       (forall i d, l !! i = Some d ->
          color d = palette !! floorIndex (rng w (13 * i + 11)%nat * INR (length palette))) /\
       (palette = [] -> forall i d, l !! i = Some d -> color d = None) /\
       (palette <> [] -> validDraws w ->
          forall i d, l !! i = Some d -> exists c, color d = Some c /\ c ∈ palette)).
Proof.
  split.
  - intros Hc. apply data_invalid. unfold validArrayLength.
    apply andb_false_iff. destruct Hc; [left; lia | right; lia].
  - intros Hc.
    assert (Hv : validArrayLength count = true).
    { unfold validArrayLength. apply andb_true_iff. split; lia. }
    destruct (data_valid count palette w Hv) as (l & w' & Hd & Hlen & _ & Hall).
    exists l. rewrite Hd.
    assert (Hcol : forall i d, l !! i = Some d ->
              color d = palette !! floorIndex (rng w (13 * i + 11)%nat * INR (length palette))).
    { intros i d Hi. destruct (Hall i d Hi) as (_ & _ & _ & _ & _ & Hcd & _). exact Hcd. }
    split; [reflexivity|]. split; [exact Hlen|]. split; [|split; [|split; [|split]]].
    + intros ->. assert (l = []) as -> by (destruct l; [reflexivity | discriminate]).
      split; [reflexivity|]. apply (useLayoutEffect_first _ []). reflexivity.
    + intros Hpos.
      assert (Hne : l <> []) by (intros ->; simpl in Hlen; lia).
      destruct (proj2 (useLayoutEffect_first (Z.to_nat count) l) Hne) as (b & Hb & Hbl & Hat).
      exists b. split; [exact Hb|]. split; [exact Hbl|].
      intros i d Hi. apply (Hat i d Hi). apply lookup_lt_Some in Hi. lia.
    + exact Hcol.
    + intros -> i d Hi. rewrite (Hcol i d Hi). apply lookup_nil.
    + intros Hne Hdraws i d Hi. rewrite (Hcol i d Hi).
      assert (Hlt : (floorIndex (rng w (13 * i + 11)%nat * INR (length palette))
                     < length palette)%nat).
      { apply floorIndex_in_range; [apply Hdraws|]. destruct palette; [congruence | simpl; lia]. }
      destruct (lookup_lt_is_Some_2 _ _ Hlt) as [c Hcq].
      exists c. split; [exact Hcq|]. eapply list_elem_of_lookup_2, Hcq.
Qed.

Lemma ornaments_data_unvalidated_witness :
  data (-1) [] (constDraws (1 / 2)) = (Thrown RangeError, constDraws (1 / 2)) /\
  (exists l, fst (data 0 ["#800000"%string] (constDraws (1 / 2))) = Normal l /\
             OrnamentsComponent.useLayoutEffect (Some (OrnamentsComponent.newMesh 0)) l
             = Thrown TypeError) /\
  exists l, fst (data 2 ["#800000"%string] (constDraws (1 / 2))) = Normal l /\
            length l = 2%nat /\
            forall i d, l !! i = Some d -> exists c, color d = Some c /\ c ∈ ["#800000"%string].
Proof.
  split; [|split].
  - apply (ornaments_data_unvalidated (-1) [] (constDraws (1 / 2))). left. lia.
  - destruct (ornaments_data_unvalidated 0 ["#800000"%string] (constDraws (1 / 2)))
      as [_ H]. destruct H as (l & Hl & _ & H0 & _); [lia|].
    exists l. split; [exact Hl|]. apply (H0 eq_refl).
  - destruct (ornaments_data_unvalidated 2 ["#800000"%string] (constDraws (1 / 2)))
      as [_ H]. destruct H as (l & Hl & Hlen & _ & _ & _ & _ & Hmem); [lia|].
    exists l. split; [exact Hl|]. split; [exact Hlen|].
    apply Hmem; [discriminate|]. intros n. simpl. lra.
Defined.

End OrnamentGeneration.

(** ** Photo panel placement *)

Section PolaroidPlacement.
Import Polaroids.

Lemma polaroid_body_run i items w :
  body i items w = (items ++ [itemAt i (rng w 0%nat)], advance 1 w).
Proof. destruct w. reflexivity. Qed.

Lemma forLoop_polaroids n : forall start items w,
  fst (forLoop start n body items w) =
  items ++ List.map (fun j => itemAt (start + j) (rng w j)) (seq 0 n).
Proof.
  induction n as [|n IH]; intros start items w.
  - simpl. rewrite app_nil_r. reflexivity.
  - rewrite forLoop_S, polaroid_body_run, IH.
    rewrite <- app_assoc. f_equal. simpl. f_equal.
    + rewrite Nat.add_0_r. reflexivity.
    + rewrite <- seq_shift, List.map_map. apply List.map_ext.
      intros j. simpl. f_equal. lia.
Qed.

Lemma photos_items w :
  fst (photos w) = List.map (fun i => itemAt i (rng w i)) (seq 0 count).
Proof. unfold photos. rewrite forLoop_polaroids. reflexivity. Qed.

Lemma photos_lookup w i :
  (i < count)%nat -> fst (photos w) !! i = Some (itemAt i (rng w i)).
Proof.
  intros Hi. rewrite photos_items.
  change (List.map ?f ?l) with (f <$> l).
  rewrite list_lookup_fmap, lookup_seq_lt by exact Hi. reflexivity.
Qed.

(** C7: the code departs from the claim in the radius.  The top panel
    ([i = 11]) is placed at radius 6.5175, where the cone taper of the
    claim gives 0.375; the radius grows with the index (and so with
    height) instead of shrinking, and at the apex height it is 6.93, not
    0.  The angle [1.5 * i] and the height
    [(i/count) * treeHeight - treeHeight/3] are as claimed. *)
Theorem polaroid_radius_inverts_taper :
  spiralR (spiralY 11) = 6.5175 /\ taperR (spiralY 11) = 0.375 /\
  spiralR (spiralY 0) = 1.98 /\ taperR (spiralY 0) = 4.5 /\
  taperR (treeHeight - treeHeight / 3) = 0 /\
  spiralR (treeHeight - treeHeight / 3) = 6.93 /\
  spiralAngle 11 = 16.5 /\ spiralY 11 = 11 / 12 * 10 - 10 / 3.
Proof.
  unfold spiralR, taperR, spiralY, spiralAngle, count, treeHeight, maxRadius.
  simpl INR. repeat split; lra.
Qed.

Lemma spiralY_eq i : spiralY i = INR i * (5 / 6) - 10 / 3.
Proof. unfold spiralY, count, treeHeight. simpl INR. lra. Qed.

Lemma spiralR_eq i : spiralR (spiralY i) = (INR i / 12 + 2 / 5) * 4.95.
Proof. rewrite spiralY_eq. unfold spiralR, treeHeight, maxRadius. lra. Qed.

Lemma taperR_eq i : taperR (spiralY i) = (1 - INR i / 12) * 4.5.
Proof. rewrite spiralY_eq. unfold taperR, treeHeight, maxRadius. lra. Qed.

Lemma spiralY_injective i j : spiralY i = spiralY j -> i = j.
Proof. rewrite !spiralY_eq. intros H. apply INR_eq. lra. Qed.

Lemma spiralR_increasing i j :
  (i < j)%nat -> spiralR (spiralY i) < spiralR (spiralY j).
Proof. intros H. rewrite !spiralR_eq. apply lt_INR in H. lra. Qed.

Lemma taperR_decreasing i j :
  (i < j)%nat -> taperR (spiralY j) < taperR (spiralY i).
Proof. intros H. rewrite !taperR_eq. apply lt_INR in H. lra. Qed.

(** X20: the panel set is determined by the index, with angle [1.5 * i],
    height [(i/12) * 10 - 10/3] and a radius that is linear in the height; no
    two of the twelve formed positions coincide. *)
Lemma polaroid_spiral_layout (w : World) (i j : nat) :
  (i < count)%nat -> (j < count)%nat ->
  exists a b,
    fst (photos w) !! i = Some a /\ fst (photos w) !! j = Some b /\
    position a = mkVec3 (spiralR (spiralY i) * cos (INR i * 1.5))
                        (INR i / 12 * 10 - 10 / 3)
                        (spiralR (spiralY i) * sin (INR i * 1.5)) /\
    spiralR (spiralY i) = (INR i / 12 + 2 / 5) * 4.95 /\
    (i <> j -> position a <> position b).
Proof.
  intros Hi Hj. exists (itemAt i (rng w i)), (itemAt j (rng w j)).
  split; [apply photos_lookup, Hi|]. split; [apply photos_lookup, Hj|].
  split.
  { simpl. unfold spiralAngle. f_equal. unfold spiralY, count, treeHeight. simpl INR. lra. }
  split; [apply spiralR_eq|].
  intros Hne Heq. apply Hne, spiralY_injective.
  simpl in Heq. injection Heq as _ Hy _. exact Hy.
Qed.

End PolaroidPlacement.

(** ** Chaos positions *)

Section ChaosSampling.

Lemma shellChaos_geometry Rmin Rrange u1 u2 u3 :
  0 <= Rrange -> 0 <= u1 < 1 -> 0 <= u2 < 1 -> 0 <= u3 < 1 ->
  let p := Spec.shellChaos Rmin Rrange u1 u2 u3 in
  let radius := Rmin + u1 * Rrange in
  p = sphericalToCartesian radius (acos (2 * u3 - 1)) (u2 * (2 * PI)) /\
  Rmin <= radius <= Rmin + Rrange /\
  0 <= u2 * (2 * PI) < 2 * PI /\
  0 <= acos (2 * u3 - 1) <= PI /\
  cos (acos (2 * u3 - 1)) = 2 * u3 - 1 /\
  norm2 p = radius ^ 2.
Proof.
  intros HR H1 H2 H3 p radius.
  pose proof PI_RGT_0 as Hpi.
  split; [reflexivity|].
  split; [unfold radius; nra|].
  split; [nra|].
  split; [apply acos_bound|].
  split; [apply cos_acos; lra|].
  unfold p, Spec.shellChaos, norm2. cbn. fold radius.
  set (phi := acos (2 * u3 - 1)). set (theta := u2 * (2 * PI)).
  pose proof (sin2_cos2 phi) as Hphi. pose proof (sin2_cos2 theta) as Hth.
  unfold Rsqr in Hphi, Hth.
  transitivity (radius * radius *
                (sin phi * sin phi * (sin theta * sin theta + cos theta * cos theta)
                 + cos phi * cos phi)); [ring|].
  rewrite Hth, Rmult_1_r, Hphi. ring.
Qed.

Lemma chaosPosition_run w :
  let r := Polaroids.chaosPosition w in
  heap (snd r) !! fst r = Some (Polaroids.chaosOf (rng w 0%nat) (rng w 1%nat) (rng w 2%nat)) /\
  (forall m, rng (snd r) m = rng w (3 + m)%nat) /\
  (forall l, is_Some (heap w !! l) -> heap (snd r) !! l = heap w !! l).
Proof.
  destruct w as [u h q tm im]. unfold Polaroids.chaosPosition. js_unfold.
  split; [apply lookup_insert_eq|].
  split; [reflexivity|].
  intros l Hl. apply insert_fresh_old, Hl.
Qed.

Lemma chaosOf_geometry u1 u2 u3 :
  0 <= u1 < 1 -> 0 <= u3 < 1 ->
  let p := Polaroids.chaosOf u1 u2 u3 in
  vx p * vx p + vz p * vz p = (20 + u1 * 10) ^ 2 /\
  20 <= 20 + u1 * 10 < 30 /\
  vy p = (u3 - 0.5) * 20 /\ -10 <= vy p < 10.
Proof.
  intros H1 H3 p. unfold p, Polaroids.chaosOf. cbn.
  set (theta := u2 * PI * 2).
  pose proof (sin2_cos2 theta) as Hth. unfold Rsqr in Hth.
  repeat split; try lra.
  transitivity ((20 + u1 * 10) * (20 + u1 * 10)
                * (sin theta * sin theta + cos theta * cos theta)); [ring|].
  rewrite Hth. ring.
Qed.

Lemma acos_minus_1 : acos (-1) = PI.
Proof. replace (-1) with (- (1)) by lra. rewrite acos_opp, acos_1. lra. Qed.

(** C4, as the claim states it, fails for the photo panels.  With all three
    draws 0 the panel's chaos position is (20, -10, 0), while a spherical
    shell sample with polar angle [acos(2*0 - 1) = pi] lies on the axis
    whatever the shell's radii; and two panels with the same radius draw
    lie at different distances from the origin (squared 500 and 400), which
    no sampling by radius and direction allows. *)
Lemma photo_chaos_not_spherical :
  (let r := Polaroids.chaosPosition (constDraws 0) in
   heap (snd r) !! fst r = Some (mkVec3 20 (-10) 0) /\
   forall Rmin Rrange,
     heap (snd r) !! fst r <> Some (Spec.shellChaos Rmin Rrange 0 0 0)) /\
  norm2 (Polaroids.chaosOf 0 0 0) = 500 /\
  norm2 (Polaroids.chaosOf 0 0 (1 / 2)) = 400.
Proof.
  assert (Hc : Polaroids.chaosOf 0 0 0 = mkVec3 20 (-10) 0).
  { unfold Polaroids.chaosOf. cbn.
    replace (0 * PI * 2) with 0 by ring. rewrite cos_0, sin_0. f_equal; lra. }
  assert (Hd : Polaroids.chaosOf 0 0 (1 / 2) = mkVec3 20 0 0).
  { unfold Polaroids.chaosOf. cbn.
    replace (0 * PI * 2) with 0 by ring. rewrite cos_0, sin_0. f_equal; lra. }
  split; [|split].
  - destruct (chaosPosition_run (constDraws 0)) as (Hv & _). cbv zeta in *.
    simpl rng in Hv. rewrite Hv, Hc. split; [reflexivity|].
    intros Rmin Rrange [= Hx _ _]. revert Hx.
    replace (2 * 0 - 1) with (-1) by lra. rewrite acos_minus_1, sin_PI. lra.
  - rewrite Hc. unfold norm2. simpl. lra.
  - rewrite Hd. unfold norm2. simpl. lra.
Qed.

Lemma data_normal count palette w l w' :
  Ornaments.data count palette w = (Normal l, w') ->
  forall i d, l !! i = Some d ->
    Ornaments.generatedFrom palette (fun m => rng w (13 * i + m)%nat) (heap w') d.
Proof.
  intros Hd.
  destruct (Ornaments.validArrayLength count) eqn:Hv.
  - destruct (data_valid count palette w Hv) as (l0 & w0 & Hd0 & _ & _ & Hall).
    rewrite Hd0 in Hd. injection Hd as <- <-. exact Hall.
  - rewrite (data_invalid count palette w Hv) in Hd. discriminate.
Qed.

(** C4 (amended): foliage points and instanced ornaments sample each chaos
    position from a spherical shell: radius [Rmin + U * Rrange] in
    [Rmin, Rmin + Rrange] (15 and 10 for foliage, 10 and 15 for ornaments),
    theta [U * 2*pi] in [0, 2*pi), polar angle [phi = acos(2*U - 1)], and
    the standard spherical-to-Cartesian conversion, so the point lies at
    distance exactly the drawn radius from the origin.  Photo panels do
    not: each panel's chaos position is drawn from a cylindrical band,
    [(r cos theta, y, r sin theta)] with [r = 20 + U * 10],
    [theta = U * 2*pi] and height [y = (U - 0.5) * 20] in [-10, 10). *)
Theorem chaos_sampling (w : World) :
  validDraws w ->
  (forall i, (i < Foliage.count)%nat ->
     let u1 := rng w (7 * i + 3)%nat in
     let u2 := rng w (7 * i + 4)%nat in
     let u3 := rng w (7 * i + 5)%nat in
     exists p,
       Foliage.attr3 (Foliage.chaosPositions (fst (Foliage.generate w))) i = Some p /\
       p = Spec.shellChaos 15 10 u1 u2 u3 /\
       p = sphericalToCartesian (15 + u1 * 10) (acos (2 * u3 - 1)) (u2 * (2 * PI)) /\
       15 <= 15 + u1 * 10 <= 25 /\ 0 <= u2 * (2 * PI) < 2 * PI /\
       norm2 p = (15 + u1 * 10) ^ 2) /\
  (forall count palette l w',
     Ornaments.data count palette w = (Normal l, w') ->
     forall i d, l !! i = Some d ->
       let u1 := rng w (13 * i + 3)%nat in
       let u2 := rng w (13 * i + 4)%nat in
       let u3 := rng w (13 * i + 5)%nat in
       exists p,
         heap w' !! Ornaments.chaosPos d = Some p /\
         p = Spec.shellChaos 10 15 u1 u2 u3 /\
         p = sphericalToCartesian (10 + u1 * 15) (acos (2 * u3 - 1)) (u2 * (2 * PI)) /\
         10 <= 10 + u1 * 15 <= 25 /\ 0 <= u2 * (2 * PI) < 2 * PI /\
         norm2 p = (10 + u1 * 15) ^ 2) /\
  (let r := Polaroids.chaosPosition w in
   let u1 := rng w 0%nat in
   let u2 := rng w 1%nat in
   let u3 := rng w 2%nat in
   exists p,
     heap (snd r) !! fst r = Some p /\
     p = mkVec3 ((20 + u1 * 10) * cos (u2 * PI * 2)) ((u3 - 0.5) * 20)
                ((20 + u1 * 10) * sin (u2 * PI * 2)) /\
     vx p * vx p + vz p * vz p = (20 + u1 * 10) ^ 2 /\
     20 <= 20 + u1 * 10 < 30 /\ -10 <= vy p < 10).
Proof.
  intros Hv. split; [|split].
  - intros i Hi u1 u2 u3.
    destruct (generateN_entity Foliage.count w i Hi) as [He _].
    apply entityAt_attr3 in He. destruct He as (_ & Hc & _).
    eexists. split; [exact Hc|].
    destruct (shellChaos_geometry 15 10 u1 u2 u3) as (G1 & G2 & G3 & _ & _ & G6);
      try apply Hv; try lra.
    repeat split; try assumption; lra.
  - intros count palette l w' Hd i d Hi u1 u2 u3.
    destruct (data_normal count palette w l w' Hd i d Hi) as (_ & Hc & _).
    eexists. split; [exact Hc|].
    destruct (shellChaos_geometry 10 15 u1 u2 u3) as (G1 & G2 & G3 & _ & _ & G6);
      try apply Hv; try lra.
    repeat split; try assumption; lra.
  - intros r u1 u2 u3.
    destruct (chaosPosition_run w) as (Hp & _). fold r in Hp.
    eexists. split; [exact Hp|].
    destruct (chaosOf_geometry u1 u2 u3) as (G1 & G2 & G3 & G4 & G5); try apply Hv.
    repeat split; try assumption; try reflexivity; lra.
Qed.

Lemma chaos_sampling_witness :
  (exists p,
     Foliage.attr3 (Foliage.chaosPositions (fst (Foliage.generate (constDraws (1 / 2))))) 0
       = Some p /\
     norm2 p = (15 + 1 / 2 * 10) ^ 2) /\
  (exists l w',
     Ornaments.data 1 [] (constDraws (1 / 2)) = (Normal l, w') /\
     forall i d, l !! i = Some d ->
       exists p, heap w' !! Ornaments.chaosPos d = Some p /\ norm2 p = (10 + 1 / 2 * 15) ^ 2) /\
  (let r := Polaroids.chaosPosition (constDraws (1 / 2)) in
   exists p, heap (snd r) !! fst r = Some p /\ -10 <= vy p < 10).
Proof.
  assert (Hv : validDraws (constDraws (1 / 2))) by (intros n; simpl; lra).
  destruct (chaos_sampling (constDraws (1 / 2)) Hv) as (Hf & Ho & p & Hp & _ & _ & _ & Hy).
  split; [|split].
  - destruct (Hf 0%nat count_positive) as (q & Hq & _ & _ & _ & _ & Hn).
    exists q. split; [exact Hq | exact Hn].
  - destruct (data_valid 1 [] (constDraws (1 / 2)) eq_refl) as (l & w' & Hd & _).
    exists l, w'. split; [exact Hd|].
    intros i d Hi.
    destruct (Ho 1%Z [] l w' Hd i d Hi) as (q & Hq & _ & _ & _ & _ & Hn).
    exists q. split; [exact Hq | exact Hn].
  - exists p. split; [exact Hp | exact Hy].
Defined.

End ChaosSampling.

(** ** Reading and writing vectors *)

Lemma valueAt_Some (h : gmap loc Vec3) l v : h !! l = Some v -> valueAt h l = v.
Proof. unfold valueAt. intros ->. reflexivity. Qed.

Lemma valueAt_insert_eq (h : gmap loc Vec3) l v : valueAt (<[l := v]> h) l = v.
Proof. unfold valueAt. rewrite lookup_insert_eq. reflexivity. Qed.

Lemma valueAt_insert_ne (h : gmap loc Vec3) l l' v :
  l <> l' -> valueAt (<[l := v]> h) l' = valueAt h l'.
Proof. intros Hne. unfold valueAt. rewrite lookup_insert_ne by exact Hne. reflexivity. Qed.

Ltac heap_simpl :=
  repeat first
    [ rewrite insert_insert_eq
    | rewrite valueAt_insert_eq
    | rewrite valueAt_insert_ne by congruence
    | rewrite lookup_insert_eq
    | rewrite lookup_insert_ne by congruence ].

(** ** The ornament animator *)

Section OrnamentAnimator.
Import Ornaments.

Lemma step_spec tempObj lf t d i w :
  is_Some (heap w !! formPos d) -> is_Some (heap w !! chaosPos d) ->
  is_Some (heap w !! rotAxis d) ->
  is_Some (heap w !! o_position tempObj) -> is_Some (heap w !! o_scale tempObj) ->
  o_position tempObj <> rotAxis d -> o_position tempObj <> o_scale tempObj ->
  let w' := snd (step tempObj lf t d i w) in
  let pos := positionOf (valueAt (heap w) (formPos d)) (valueAt (heap w) (chaosPos d))
                        lf t (randomOffset d) in
  let q := orientationOf (tempQuat w) lf t (valueAt (heap w) (rotAxis d))
                         (rotSpeed d) (randomOffset d) in
  let sss := mkVec3 (scale d) (scale d) (scale d) in
  let tr := mkTransform pos q sss in
  rng w' = rng w /\
  tempQuat w' = q /\
  tempMatrix w' = tr /\
  instanceMatrix w' = (fun m => <[i := tr]> m) <$> instanceMatrix w /\
  heap w' !! o_position tempObj = Some pos /\
  heap w' !! o_scale tempObj = Some sss /\
  (forall l, is_Some (heap w !! l) -> l <> o_position tempObj -> l <> o_scale tempObj ->
             heap w' !! l = heap w !! l) /\
  (forall l, is_Some (heap w !! l) -> is_Some (heap w' !! l)).
Proof.
  intros Hf Hc Ha Hp Hs Hpa Hps.
  destruct w as [u h q tm im]. cbn [heap tempQuat instanceMatrix] in *.
  set (l0 := fresh (dom h)).
  assert (Hl0 : forall l, is_Some (h !! l) -> l0 <> l) by (intros l; apply fresh_not_old).
  pose proof (Hl0 _ Hf). pose proof (Hl0 _ Hc). pose proof (Hl0 _ Ha).
  pose proof (Hl0 _ Hp). pose proof (Hl0 _ Hs).
  unfold step, doRotation, rotationCall, orientationOf, rotateOnAxis, rotationSet,
    updateMatrix, setMatrixAt, positionOf.
  destruct (Rgtb lf 0.5); js_unfold; fold l0; heap_simpl;
    (split; [reflexivity|]); (split; [reflexivity|]); (split; [reflexivity|]);
    (split; [reflexivity|]); (split; [reflexivity|]); (split; [reflexivity|]);
    (split; [intros l Hl Hlp Hls; pose proof (Hl0 _ Hl); heap_simpl; reflexivity |
             intros l Hl; destruct (decide (l = o_scale tempObj)) as [->|];
             [heap_simpl; eauto|];
             destruct (decide (l = o_position tempObj)) as [->|];
             [heap_simpl; eauto|];
             pose proof (Hl0 _ Hl); heap_simpl; exact Hl]).
Qed.

Lemma separate_locs tempObj h d :
  separate tempObj h d ->
  (is_Some (h !! formPos d) /\ formPos d <> o_position tempObj /\ formPos d <> o_scale tempObj) /\
  (is_Some (h !! chaosPos d) /\ chaosPos d <> o_position tempObj /\ chaosPos d <> o_scale tempObj) /\
  (is_Some (h !! rotAxis d) /\ rotAxis d <> o_position tempObj /\ rotAxis d <> o_scale tempObj).
Proof.
  intros H. unfold separate, static in H.
  repeat split; apply H; repeat (apply list_elem_of_here || apply list_elem_of_further).
Qed.

Lemma separate_preserved tempObj (h h' : gmap loc Vec3) d :
  (forall l, is_Some (h !! l) -> is_Some (h' !! l)) ->
  separate tempObj h d -> separate tempObj h' d.
Proof.
  intros Hh H l Hl. destruct (H l Hl) as (H1 & H2 & H3). auto.
Qed.

Lemma orientationAfter_ext (h h' : gmap loc Vec3) lf t data : forall q,
  Forall (fun d => valueAt h' (rotAxis d) = valueAt h (rotAxis d)) data ->
  orientationAfter h' lf t q data = orientationAfter h lf t q data.
Proof.
  unfold orientationAfter.
  induction data as [|d rest IH]; intros q Hall; simpl; [reflexivity|].
  inversion Hall as [|? ? Hd Hrest]; subst. rewrite Hd. apply IH, Hrest.
Qed.

Lemma valueAt_preserved (h h' : gmap loc Vec3) l :
  h' !! l = h !! l -> valueAt h' l = valueAt h l.
Proof. unfold valueAt. intros ->. reflexivity. Qed.

(** The callback over the whole entity list: what each instance slot
    receives, and which heap cells can have changed. *)
Lemma forEachFrom_spec tempObj lf t data : forall i0 w m,
  wellFormed tempObj data w -> instanceMatrix w = Some m ->
  let w' := snd (forEachFrom i0 (step tempObj lf t) data w) in
  rng w' = rng w /\
  (forall l, is_Some (heap w !! l) -> l <> o_position tempObj -> l <> o_scale tempObj ->
             heap w' !! l = heap w !! l) /\
  (forall l, is_Some (heap w !! l) -> is_Some (heap w' !! l)) /\
  tempQuat w' = orientationAfter (heap w) lf t (tempQuat w) data /\
  exists m',
    instanceMatrix w' = Some m' /\ length m' = length m /\
    (forall j, (j < i0)%nat -> m' !! j = m !! j) /\
    (forall k d, data !! k = Some d -> (i0 + k < length m)%nat ->
       m' !! (i0 + k)%nat =
       Some (mkTransform
               (positionOf (valueAt (heap w) (formPos d)) (valueAt (heap w) (chaosPos d))
                           lf t (randomOffset d))
               (orientationAfter (heap w) lf t (tempQuat w) (take (S k) data))
               (mkVec3 (scale d) (scale d) (scale d)))).
Proof.
  induction data as [|d rest IH]; intros i0 w m Hwf Him.
  - simpl. repeat split; auto. exists m. repeat split; auto.
    intros k d Hd. rewrite lookup_nil in Hd. discriminate.
  - destruct Hwf as (Hall & Hp & Hs & Hps).
    inversion Hall as [|? ? Hd Hrest]; subst.
    destruct (separate_locs _ _ _ Hd) as ((Hf1 & Hf2 & Hf3) & (Hc1 & Hc2 & Hc3) & (Ha1 & Ha2 & Ha3)).
    pose proof (step_spec tempObj lf t d i0 w Hf1 Hc1 Ha1 Hp Hs (not_eq_sym Ha2) Hps) as Hstep.
    cbv zeta in Hstep.
    change (forEachFrom i0 (step tempObj lf t) (d :: rest) w)
      with (let '(_, w1) := step tempObj lf t d i0 w in
            forEachFrom (S i0) (step tempObj lf t) rest w1).
    destruct (step tempObj lf t d i0 w) as [[] w1]. cbn [snd] in Hstep.
    destruct Hstep as (Srng & Sq & _ & Sim & Spos & Sscale & Skeep & Slive).
    rewrite Him in Sim. cbn [fmap option_fmap option_map] in Sim.
    assert (Hwf1 : wellFormed tempObj rest w1).
    { split; [|split; [|split]]; auto.
      eapply Forall_impl; [exact Hrest|]. intros d'. apply separate_preserved, Slive. }
    specialize (IH (S i0) w1 _ Hwf1 Sim). cbv zeta in IH.
    destruct IH as (Irng & Ikeep & Ilive & Iq & m' & Im' & Ilen & Iold & Inew).
    assert (Hval : forall d', separate tempObj (heap w) d' ->
              valueAt (heap w1) (formPos d') = valueAt (heap w) (formPos d') /\
              valueAt (heap w1) (chaosPos d') = valueAt (heap w) (chaosPos d') /\
              valueAt (heap w1) (rotAxis d') = valueAt (heap w) (rotAxis d')).
    { intros d' Hd'.
      destruct (separate_locs _ _ _ Hd') as ((F1 & F2 & F3) & (C1 & C2 & C3) & (A1 & A2 & A3)).
      repeat split; apply valueAt_preserved, Skeep; assumption. }
    assert (Hori : forall l, Forall (separate tempObj (heap w)) l ->
              orientationAfter (heap w1) lf t (tempQuat w1) l =
              orientationAfter (heap w) lf t (tempQuat w) (d :: l)).
    { intros l Hl. rewrite Sq. unfold orientationAfter at 2. simpl fold_left.
      apply orientationAfter_ext.
      eapply Forall_impl; [exact Hl|]. intros d' Hd'. apply Hval, Hd'. }
    split; [congruence|].
    split.
    { intros l Hl H1 H2. rewrite Ikeep by auto. apply Skeep; auto. }
    split; [auto|].
    split; [rewrite Iq; apply Hori, Hrest|].
    exists m'. split; [exact Im'|].
    split; [rewrite Ilen, length_insert; reflexivity|].
    split.
    { intros j Hj. rewrite Iold by lia. apply list_lookup_insert_ne. lia. }
    intros [|k] d' Hd' Hk; simpl in Hd'.
    + injection Hd' as <-. rewrite Nat.add_0_r in *.
      rewrite Iold by lia. rewrite list_lookup_insert_eq by lia.
      unfold orientationAfter. simpl. reflexivity.
    + replace (i0 + S k)%nat with (S i0 + k)%nat by lia.
      rewrite (Inew k d' Hd') by (rewrite length_insert; lia).
      assert (Hsep : separate tempObj (heap w) d').
      { rewrite Forall_forall in Hrest. eapply Hrest, list_elem_of_lookup_2, Hd'. }
      destruct (Hval d' Hsep) as (V1 & V2 & _). rewrite V1, V2.
      rewrite firstn_cons, <- Hori; [reflexivity|].
      apply Forall_take, Hrest.
Qed.

Lemma frame_unmounted tempObj data progress clock w :
  instanceMatrix w = None -> frame tempObj data progress clock w = (tt, w).
Proof. intros H. unfold frame. rewrite H. reflexivity. Qed.

Lemma frame_mounted tempObj data progress clock w m :
  instanceMatrix w = Some m ->
  frame tempObj data progress clock w =
  forEachFrom 0 (step tempObj progress (elapsedTime clock)) data w.
Proof. intros H. unfold frame. rewrite H. reflexivity. Qed.

Lemma wellFormed_preserved tempObj data w w' :
  (forall l, is_Some (heap w !! l) -> is_Some (heap w' !! l)) ->
  wellFormed tempObj data w -> wellFormed tempObj data w'.
Proof.
  intros Hlive (Hall & Hp & Hs & Hps).
  split; [|split; [|split]]; auto.
  eapply Forall_impl; [exact Hall|]. intros d. apply separate_preserved, Hlive.
Qed.

(** One frame writes no live vector other than the two of [tempObj]. *)
Lemma frame_footprint tempObj data progress clock w :
  wellFormed tempObj data w ->
  let w' := snd (frame tempObj data progress clock w) in
  wellFormed tempObj data w' /\
  rng w' = rng w /\
  (forall l, is_Some (heap w !! l) -> l <> o_position tempObj -> l <> o_scale tempObj ->
             heap w' !! l = heap w !! l).
Proof.
  intros Hwf. destruct (instanceMatrix w) as [m|] eqn:Him.
  - rewrite (frame_mounted _ _ _ _ _ m Him).
    destruct (forEachFrom_spec tempObj progress (elapsedTime clock) data 0 w m Hwf Him)
      as (Hr & Hkeep & Hlive & _).
    split; [eapply wellFormed_preserved; eauto|]. split; assumption.
  - rewrite (frame_unmounted _ _ _ _ _ Him). simpl. auto.
Qed.


End OrnamentAnimator.

(** ** The photo animator *)

Section PhotoAnimator.
Import Polaroids.

Lemma photo_frame_unmounted ph progress t w :
  meshRef ph = None -> frame ph progress t w = (tt, w).
Proof. intros H. unfold frame. rewrite H. reflexivity. Qed.

Lemma photo_frame_spec ph g progress t w :
  meshRef ph = Some g -> wellFormed ph (heap w) ->
  let w' := snd (frame ph progress t w) in
  rng w' = rng w /\
  heap w' !! g_position g =
    Some (positionOf (valueAt (heap w) (formedPos ph)) (valueAt (heap w) (chaosPos ph))
                     progress t (phase ph)) /\
  (forall l, is_Some (heap w !! l) -> l <> g_position g -> l <> g_rotation g ->
             heap w' !! l = heap w !! l) /\
  (forall l, is_Some (heap w !! l) -> is_Some (heap w' !! l)).
Proof.
  intros Hg (Hf & Hc & Hgrp).
  destruct (Hgrp g Hg) as (Hp & Hr & Hpr & Hpf & Hpc & Hrf & Hrc).
  destruct w as [u h q tm im]. cbn [heap] in *.
  set (l0 := fresh (dom h)).
  assert (Hl0 : forall l, is_Some (h !! l) -> l0 <> l) by (intros l; apply fresh_not_old).
  pose proof (Hl0 _ Hf). pose proof (Hl0 _ Hc). pose proof (Hl0 _ Hp). pose proof (Hl0 _ Hr).
  unfold frame, positionOf. rewrite Hg. js_unfold. fold l0. heap_simpl.
  split; [reflexivity|]. split; [reflexivity|].
  split.
  - intros l Hl Hlp Hlr. pose proof (Hl0 _ Hl). heap_simpl. reflexivity.
  - intros l Hl.
    destruct (decide (l = g_rotation g)) as [->|]; [heap_simpl; eauto|].
    destruct (decide (l = g_position g)) as [->|]; [heap_simpl; eauto|].
    pose proof (Hl0 _ Hl). heap_simpl. exact Hl.
Qed.

End PhotoAnimator.

(** ** Endpoints of the morph *)

Section Endpoints.

Lemma smoothstep_0 : Foliage.smoothstep 0 1 0 = 0.
Proof.
  unfold Foliage.smoothstep, Foliage.clamp.
  replace ((0 - 0) / (1 - 0)) with 0 by lra.
  rewrite Rmax_left, Rmin_left by lra. lra.
Qed.

Lemma smoothstep_1 : Foliage.smoothstep 0 1 1 = 1.
Proof.
  unfold Foliage.smoothstep, Foliage.clamp.
  replace ((1 - 0) / (1 - 0)) with 1 by lra.
  rewrite Rmax_left, Rmin_left by lra. lra.
Qed.

Lemma finalPos_formed uTime position aChaosPos aRandom :
  Foliage.finalPos uTime 0 position aChaosPos aRandom = position.
Proof.
  unfold Foliage.finalPos. rewrite smoothstep_0.
  destruct position as [x y z]. unfold Foliage.mix3, Foliage.mix. simpl.
  f_equal; lra.
Qed.

Lemma finalPos_chaos uTime position aChaosPos aRandom :
  Foliage.finalPos uTime 1 position aChaosPos aRandom
  = vadd aChaosPos (Foliage.noise uTime aRandom).
Proof.
  unfold Foliage.finalPos. rewrite smoothstep_1.
  unfold Foliage.mix3, Foliage.mix, vadd. simpl. f_equal; lra.
Qed.

Lemma vertex_frame s u i p c a t progress :
  Foliage.shader s = Some u -> Foliage.entityAt (Foliage.buffers s) i = Some (p, c, a) ->
  Foliage.vertex (Foliage.frame t progress s) i = Some (Foliage.finalPos t progress p c a).
Proof.
  intros Hs He. unfold Foliage.vertex, Foliage.frame. rewrite Hs. simpl.
  rewrite He. reflexivity.
Qed.

Lemma ornament_positionOf_0 f c t off :
  Ornaments.positionOf f c 0 t off = vadd f (mkVec3 0 (sin (t * 1.0 + off) * 0.1) 0).
Proof. unfold Ornaments.positionOf, lerpVectors, vadd. simpl. f_equal; lra. Qed.

Lemma ornament_positionOf_1 f c t off :
  Ornaments.positionOf f c 1 t off = vadd c (mkVec3 0 (sin (t * 1.0 + off) * 0.1) 0).
Proof. unfold Ornaments.positionOf, lerpVectors, vadd. simpl. f_equal; lra. Qed.

Lemma photo_positionOf_0 f c t off :
  Polaroids.positionOf f c 0 t off = vadd f (mkVec3 0 (sin (t + off) * 0.2) 0).
Proof. unfold Polaroids.positionOf, lerpVectors, vadd. simpl. f_equal; lra. Qed.

Lemma photo_positionOf_1 f c t off :
  Polaroids.positionOf f c 1 t off = vadd c (mkVec3 0 (sin (t + off) * 0.2) 0).
Proof. unfold Polaroids.positionOf, lerpVectors, vadd. simpl. f_equal; lra. Qed.

(** The transform the frame callback writes for entity [k]. *)
Lemma frame_slot tempObj data progress clock w m k d :
  Ornaments.wellFormed tempObj data w -> instanceMatrix w = Some m ->
  (length data <= length m)%nat -> data !! k = Some d ->
  exists m',
    instanceMatrix (snd (Ornaments.frame tempObj data progress clock w)) = Some m' /\
    m' !! k =
    Some (mkTransform
            (Ornaments.positionOf (valueAt (heap w) (Ornaments.formPos d))
                                  (valueAt (heap w) (Ornaments.chaosPos d))
                                  progress (Ornaments.elapsedTime clock)
                                  (Ornaments.randomOffset d))
            (Ornaments.orientationAfter (heap w) progress (Ornaments.elapsedTime clock)
                                        (tempQuat w) (take (S k) data))
            (mkVec3 (Ornaments.scale d) (Ornaments.scale d) (Ornaments.scale d))).
Proof.
  intros Hwf Him Hlen Hk.
  rewrite (frame_mounted _ _ _ _ _ m Him).
  destruct (forEachFrom_spec tempObj progress (Ornaments.elapsedTime clock) data 0 w m Hwf Him)
    as (_ & _ & _ & _ & m' & Hm' & _ & _ & Hnew).
  exists m'. split; [exact Hm'|].
  apply (Hnew k d Hk). apply lookup_lt_Some in Hk. lia.
Qed.

(** C5, as the claim states it, fails for the foliage at progress 0: the
    shader blends the noise with the chaos position, so at progress 0 the
    output is the formed position alone.  At time 0 with [aRandom = 0] the
    noise is (0, 0.5, 0), yet a vertex formed at the origin stays there. *)
Lemma foliage_formed_endpoint_without_noise :
  Foliage.noise 0 0 = mkVec3 0 0.5 0 /\
  Foliage.finalPos 0 0 vzero vzero 0 = vzero /\
  Foliage.finalPos 0 0 vzero vzero 0 <> vadd vzero (Foliage.noise 0 0).
Proof.
  assert (Hn : Foliage.noise 0 0 = mkVec3 0 0.5 0).
  { unfold Foliage.noise.
    replace (0 * 0.5 + 0 * 10) with 0 by lra.
    replace (0 * 0.3 + 0 * 20) with 0 by lra.
    replace (0 * 0.7 + 0 * 30) with 0 by lra.
    rewrite sin_0, cos_0. f_equal; lra. }
  split; [exact Hn|]. split; [apply finalPos_formed|].
  rewrite finalPos_formed, Hn. unfold vadd, vzero. simpl.
  intros [= H]. lra.
Qed.

(** C5 (amended): at progress 0 exactly an ornament's and a photo panel's
    animated position is its formed position plus the oscillating offset
    only (on the y axis: amplitude 0.1 for ornaments, 0.2 for photos), and
    at progress 1 exactly it is its chaos position plus that offset only;
    for the foliage the offset is blended with the chaos position, so at
    progress 0 the position is the formed position alone, with neither
    chaos nor noise contribution, and at progress 1 it is the chaos
    position plus the noise. *)
Theorem endpoint_positions :
  (forall uTime position aChaosPos aRandom,
     Foliage.finalPos uTime 0 position aChaosPos aRandom = position /\
     Foliage.finalPos uTime 1 position aChaosPos aRandom
     = vadd aChaosPos (Foliage.noise uTime aRandom)) /\
  (forall s u i p c a t,
     Foliage.shader s = Some u ->
     Foliage.entityAt (Foliage.buffers s) i = Some (p, c, a) ->
     Foliage.vertex (Foliage.frame t 0 s) i = Some p /\
     Foliage.vertex (Foliage.frame t 1 s) i = Some (vadd c (Foliage.noise t a))) /\
  (forall tempObj data clock w m k d,
     Ornaments.wellFormed tempObj data w -> instanceMatrix w = Some m ->
     (length data <= length m)%nat -> data !! k = Some d ->
     let bob := mkVec3 0 (sin (Ornaments.elapsedTime clock * 1.0 + Ornaments.randomOffset d) * 0.1) 0 in
     (exists m' tr,
        instanceMatrix (snd (Ornaments.frame tempObj data 0 clock w)) = Some m' /\
        m' !! k = Some tr /\
        t_position tr = vadd (valueAt (heap w) (Ornaments.formPos d)) bob) /\
     (exists m' tr,
        instanceMatrix (snd (Ornaments.frame tempObj data 1 clock w)) = Some m' /\
        m' !! k = Some tr /\
        t_position tr = vadd (valueAt (heap w) (Ornaments.chaosPos d)) bob)) /\
  (forall ph g t w,
     Polaroids.meshRef ph = Some g -> Polaroids.wellFormed ph (heap w) ->
     let bob := mkVec3 0 (sin (t + Polaroids.phase ph) * 0.2) 0 in
     heap (snd (Polaroids.frame ph 0 t w)) !! Polaroids.g_position g
     = Some (vadd (valueAt (heap w) (Polaroids.formedPos ph)) bob) /\
     heap (snd (Polaroids.frame ph 1 t w)) !! Polaroids.g_position g
     = Some (vadd (valueAt (heap w) (Polaroids.chaosPos ph)) bob)).
Proof.
  split; [|split; [|split]].
  - intros. split; [apply finalPos_formed | apply finalPos_chaos].
  - intros s u i p c a t Hs He.
    rewrite !(vertex_frame s u i p c a) by assumption.
    rewrite finalPos_formed, finalPos_chaos. split; reflexivity.
  - intros tempObj data clock w m k d Hwf Him Hlen Hk bob. split.
    + destruct (frame_slot tempObj data 0 clock w m k d Hwf Him Hlen Hk) as (m' & Hm' & Hs).
      eexists m', _. split; [exact Hm'|]. split; [exact Hs|].
      simpl. apply ornament_positionOf_0.
    + destruct (frame_slot tempObj data 1 clock w m k d Hwf Him Hlen Hk) as (m' & Hm' & Hs).
      eexists m', _. split; [exact Hm'|]. split; [exact Hs|].
      simpl. apply ornament_positionOf_1.
  - intros ph g t w Hg Hwf bob. split.
    + destruct (photo_frame_spec ph g 0 t w Hg Hwf) as (_ & Hp & _).
      rewrite Hp, photo_positionOf_0. reflexivity.
    + destruct (photo_frame_spec ph g 1 t w Hg Hwf) as (_ & Hp & _).
      rewrite Hp, photo_positionOf_1. reflexivity.
Qed.

End Endpoints.

(** ** Sample scenes *)

Section SampleScenes.

Lemma ornament_sample_wellFormed :
  Ornaments.wellFormed Ornaments.sampleTemp [Ornaments.sampleDatum] Ornaments.sampleWorld.
Proof.
  unfold Ornaments.wellFormed, Ornaments.sampleWorld, Ornaments.sampleTemp,
    Ornaments.sampleHeap. cbn [heap Ornaments.o_position Ornaments.o_scale].
  split; [|split; [|split]].
  - constructor; [|constructor].
    intros l Hl. unfold Ornaments.static, Ornaments.sampleDatum in Hl. simpl in Hl.
    rewrite !elem_of_cons in Hl.
    destruct Hl as [-> | [-> | [-> | Hl]]]; [| | |apply elem_of_nil in Hl; contradiction];
      (split; [heap_simpl; eauto | simpl; split; lia]).
  - heap_simpl. eauto.
  - heap_simpl. eauto.
  - congruence.
Qed.

Lemma ornament_sample2_wellFormed :
  Ornaments.wellFormed Ornaments.sampleTemp Ornaments.sampleData2 Ornaments.sampleWorld2.
Proof.
  unfold Ornaments.wellFormed, Ornaments.sampleWorld2, Ornaments.sampleTemp,
    Ornaments.sampleHeap2, Ornaments.sampleData2.
  cbn [heap Ornaments.o_position Ornaments.o_scale].
  split; [|split; [|split]].
  - constructor; [|constructor; [|constructor]];
      intros l Hl; unfold Ornaments.static in Hl; simpl in Hl;
      rewrite !elem_of_cons in Hl;
      (destruct Hl as [-> | [-> | [-> | Hl]]]; [| | |apply elem_of_nil in Hl; contradiction]);
      (split; [heap_simpl; eauto | simpl; split; lia]).
  - heap_simpl. eauto.
  - heap_simpl. eauto.
  - congruence.
Qed.

Lemma photo_sample_wellFormed :
  Polaroids.wellFormed Polaroids.samplePhoto (heap Polaroids.sampleWorld).
Proof.
  unfold Polaroids.wellFormed, Polaroids.sampleWorld, Polaroids.samplePhoto,
    Polaroids.sampleHeap. cbn [heap Polaroids.formedPos Polaroids.chaosPos Polaroids.meshRef].
  split; [heap_simpl; eauto|]. split; [heap_simpl; eauto|].
  intros g [= <-]. cbn [Polaroids.g_position Polaroids.g_rotation].
  repeat split; try congruence; heap_simpl; eauto.
Qed.

End SampleScenes.

(** ** The state the components set up *)

Section Setup.

(** [new THREE.Object3D()] after the entity data exists: the scratch
    object's vectors are fresh, so the frame callback starts well formed. *)
Lemma newObject3D_wellFormed data w :
  Forall (fun d => forall l, l ∈ Ornaments.static d -> is_Some (heap w !! l)) data ->
  Ornaments.wellFormed (fst (Ornaments.newObject3D w)) data (snd (Ornaments.newObject3D w)).
Proof.
  intros Hlive. destruct w as [u h q tm im]. cbn [heap] in Hlive.
  unfold Ornaments.newObject3D, generateUUID. js_unfold.
  set (p := fresh (dom h)). set (h1 := <[p := _]> h). set (s := fresh (dom h1)).
  assert (Hp : forall l, is_Some (h !! l) -> p <> l) by (intros l; apply fresh_not_old).
  assert (Hs : forall l, is_Some (h1 !! l) -> s <> l) by (intros l; apply fresh_not_old).
  assert (Hsp : s <> p).
  { apply Hs. unfold h1. rewrite lookup_insert_eq. eauto. }
  unfold Ornaments.wellFormed. cbn [Ornaments.o_position Ornaments.o_scale].
  split; [|split; [|split]].
  - eapply Forall_impl; [exact Hlive|]. intros d Hd l Hl.
    specialize (Hd l Hl). pose proof (Hp l Hd) as Hpl.
    assert (Hl1 : is_Some (h1 !! l)) by (unfold h1; rewrite lookup_insert_ne by exact Hpl; exact Hd).
    pose proof (Hs l Hl1) as Hsl.
    cbn [heap Ornaments.o_position Ornaments.o_scale].
    split; [|split; congruence].
    rewrite lookup_insert_ne by exact Hsl. exact Hl1.
  - cbn [heap]. rewrite lookup_insert_ne by exact Hsp.
    unfold h1. rewrite lookup_insert_eq. eauto.
  - cbn [heap]. rewrite lookup_insert_eq. eauto.
  - congruence.
Qed.

(** Every vector of generated entity data is live. *)
Lemma data_live count palette w l w' :
  Ornaments.data count palette w = (Normal l, w') ->
  Forall (fun d => forall l0, l0 ∈ Ornaments.static d -> is_Some (heap w' !! l0)) l.
Proof.
  intros Hd. apply Forall_forall. intros d Hin.
  apply list_elem_of_lookup in Hin. destruct Hin as [i Hi].
  destruct (data_normal count palette w l w' Hd i d Hi) as (Hf & Hc & _ & _ & Ha & _).
  intros l0 Hl0. unfold Ornaments.static in Hl0. rewrite !elem_of_cons in Hl0.
  destruct Hl0 as [-> | [-> | [-> | Hl0]]]; eauto.
  apply elem_of_nil in Hl0. contradiction.
Qed.

(** A photo as it mounts. *)
Lemma mount_wellFormed it w :
  Polaroids.wellFormed (fst (Polaroids.mount it w)) (heap (snd (Polaroids.mount it w))).
Proof.
  destruct w as [u h q tm im].
  unfold Polaroids.mount, Polaroids.chaosPosition. js_unfold.
  set (f := fresh (dom h)). set (h1 := <[f := _]> h).
  set (c := fresh (dom h1)). set (h2 := <[c := _]> h1).
  set (gp := fresh (dom h2)). set (h3 := <[gp := _]> h2).
  set (gr := fresh (dom h3)).
  assert (Hcf : c <> f).
  { apply fresh_not_old. unfold h1. rewrite lookup_insert_eq. eauto. }
  assert (Hpc : gp <> c).
  { apply fresh_not_old. unfold h2. rewrite lookup_insert_eq. eauto. }
  assert (Hpf : gp <> f).
  { apply fresh_not_old. unfold h2, h1. rewrite lookup_insert_ne, lookup_insert_eq by exact Hcf. eauto. }
  assert (Hrp : gr <> gp).
  { apply fresh_not_old. unfold h3. rewrite lookup_insert_eq. eauto. }
  assert (Hrc : gr <> c).
  { apply fresh_not_old. unfold h3, h2.
    rewrite lookup_insert_ne, lookup_insert_eq by exact Hpc. eauto. }
  assert (Hrf : gr <> f).
  { apply fresh_not_old. unfold h3, h2, h1.
    rewrite lookup_insert_ne, lookup_insert_ne, lookup_insert_eq by assumption. eauto. }
  unfold Polaroids.wellFormed.
  cbn [Polaroids.formedPos Polaroids.chaosPos Polaroids.meshRef].
  unfold h3, h2, h1.
  split; [heap_simpl; eauto|]. split; [heap_simpl; eauto|].
  intros g [= <-]. cbn [Polaroids.g_position Polaroids.g_rotation].
  repeat split; try congruence; heap_simpl; eauto.
Qed.

End Setup.

(** ** Orientation of the ornaments *)

Section Orientation.
Import Ornaments.

Lemma Rgtb_half_true p : 0.5 < p -> Rgtb p 0.5 = true.
Proof. intros H. apply Rgtb_true, H. Qed.

Lemma Rgtb_half_false p : p <= 0.5 -> Rgtb p 0.5 = false.
Proof. intros H. apply Rgtb_false, H. Qed.

Lemma orientationAfter_snoc h lf t q data d :
  orientationAfter h lf t q (data ++ [d]) =
  orientationOf (orientationAfter h lf t q data) lf t (valueAt h (rotAxis d))
                (rotSpeed d) (randomOffset d).
Proof. unfold orientationAfter. rewrite fold_left_app. reflexivity. Qed.

(** A rotation set from the Euler angles (0, y, 0) is the rotation by [y]
    about the Y axis. *)
Lemma setFromEuler_y y : setFromEuler 0 y 0 = setFromAxisAngle (mkVec3 0 1 0) y.
Proof.
  unfold setFromEuler, setFromAxisAngle. simpl.
  replace (0 / 2) with 0 by lra. rewrite sin_0, cos_0. f_equal; ring.
Qed.

(** C6, as the claim states it, fails in the chaos branch, in two ways.
    The increment is [rotSpeed * 0.1] whatever the frame's time delta: for
    an ornament of rotation speed 1 in a frame 1/60 s after the previous
    one, the call is [rotateOnAxis(axis, 0.1)], not
    [rotateOnAxis(axis, 1/60)].  And the rotation is applied to the one
    scratch object shared by all ornaments, not to the ornament's own
    previous orientation: in a scene of two ornaments whose instance slots
    both hold the identity, the second slot receives the first ornament's
    rotation about X followed by its own about Y, not its own alone. *)
Lemma rotation_increment_ignores_delta :
  let clock := mkClock 1 (1 / 60) in
  (rotationCall 1 (elapsedTime clock) sampleDatum
     = RotateOnAxis (rotAxis sampleDatum) 0.1 /\
   rotationCall 1 (elapsedTime clock) sampleDatum
     <> RotateOnAxis (rotAxis sampleDatum) (rotSpeed sampleDatum * delta clock)) /\
  exists m' tr,
    instanceMatrix (snd (frame sampleTemp sampleData2 1 clock sampleWorld2)) = Some m' /\
    m' !! 1%nat = Some tr /\
    t_quaternion tr
    <> multiplyQuaternions qidentity (setFromAxisAngle (mkVec3 0 1 0) (1 * 0.1)).
Proof.
  assert (H : rotationCall 1 1 sampleDatum = RotateOnAxis (rotAxis sampleDatum) 0.1).
  { unfold rotationCall. rewrite Rgtb_half_true by lra.
    unfold sampleDatum. simpl. f_equal. lra. }
  simpl. split.
  { split; [exact H|]. rewrite H. unfold sampleDatum. simpl. intros [= Hd]. lra. }
  destruct (frame_slot sampleTemp sampleData2 1 (mkClock 1 (1 / 60)) sampleWorld2
              [tidentity; tidentity] 1%nat (mkDatum 5%nat 6%nat 0.5 1 7%nat None 0)
              ornament_sample2_wellFormed eq_refl (le_n 2) eq_refl) as (m' & Hm' & Hs).
  eexists m', _. split; [exact Hm'|]. split; [exact Hs|].
  cbn [t_quaternion].
  unfold orientationAfter, sampleData2, sampleWorld2, sampleHeap2.
  cbn [take fold_left heap tempQuat rotAxis rotSpeed randomOffset elapsedTime].
  unfold orientationOf. rewrite Rgtb_half_true by lra.
  heap_simpl.
  unfold multiplyQuaternions, setFromAxisAngle, qidentity. cbn [qx qy qz qw vx vy vz].
  pose proof PI2_1 as Hpi.
  assert (Hsin : 0 < sin (1 * 0.1 / 2)) by (apply sin_gt_0; lra).
  assert (Hcos : 0 < cos (1 * 0.1 / 2)) by (apply cos_gt_0; lra).
  set (sn := sin (1 * 0.1 / 2)) in *. set (cs := cos (1 * 0.1 / 2)) in *.
  intros [= Hx _ _ _]. nra.
Qed.

(** C6 (amended): for every instanced ornament on every frame, if
    [progress > 0.5] the orientation left in the shared scratch object by
    the previous ornament is advanced by a rotation about the ornament's
    own static axis by the fixed angle [rotSpeed * 0.1], whatever the
    frame's time delta; otherwise the orientation is set absolutely to the
    rotation by [elapsedTime * 0.2 + randomOffset] about the Y axis,
    whatever the scratch object held.  The switch at 0.5 is a hard
    threshold: 0.5 itself takes the absolute branch, and nothing is
    blended. *)
Theorem ornament_orientation tempObj data progress clock w m k d :
  wellFormed tempObj data w -> instanceMatrix w = Some m ->
  (length data <= length m)%nat -> data !! k = Some d ->
  let t := elapsedTime clock in
  let before := orientationAfter (heap w) progress t (tempQuat w) (take k data) in
  exists m' tr,
    instanceMatrix (snd (frame tempObj data progress clock w)) = Some m' /\
    m' !! k = Some tr /\
    (0.5 < progress ->
       rotationCall progress t d = RotateOnAxis (rotAxis d) (rotSpeed d * 0.1) /\
       t_quaternion tr =
       multiplyQuaternions before
         (setFromAxisAngle (valueAt (heap w) (rotAxis d)) (rotSpeed d * 0.1))) /\
    (progress <= 0.5 ->
       rotationCall progress t d = RotationSet 0 (t * 0.2 + randomOffset d) 0 /\
       t_quaternion tr = setFromEuler 0 (t * 0.2 + randomOffset d) 0 /\
       t_quaternion tr = setFromAxisAngle (mkVec3 0 1 0) (t * 0.2 + randomOffset d)) /\
    (forall dt, frame tempObj data progress (mkClock t dt) w
                = frame tempObj data progress clock w).
Proof.
  intros Hwf Him Hlen Hk t before.
  destruct (frame_slot tempObj data progress clock w m k d Hwf Him Hlen Hk) as (m' & Hm' & Hs).
  eexists m', _. split; [exact Hm'|]. split; [exact Hs|].
  cbn [t_quaternion].
  rewrite (take_S_r _ _ _ Hk), orientationAfter_snoc. fold t. fold before.
  unfold orientationOf, rotationCall.
  split; [|split].
  - intros Hp. rewrite Rgtb_half_true by exact Hp. split; reflexivity.
  - intros Hp. rewrite Rgtb_half_false by exact Hp.
    split; [reflexivity|]. split; [reflexivity|]. apply setFromEuler_y.
  - intros dt. reflexivity.
Qed.

Lemma ornament_orientation_witness :
  exists m' tr,
    instanceMatrix (snd (frame sampleTemp [sampleDatum] 1 (mkClock 1 (1 / 60)) sampleWorld))
      = Some m' /\
    m' !! 0%nat = Some tr /\
    t_quaternion tr =
    multiplyQuaternions qidentity (setFromAxisAngle (valueAt sampleHeap 2%nat) (1 * 0.1)).
Proof.
  destruct (ornament_orientation sampleTemp [sampleDatum] 1 (mkClock 1 (1 / 60))
              sampleWorld [tidentity] 0%nat sampleDatum
              ornament_sample_wellFormed eq_refl (le_n 1) eq_refl)
    as (m' & tr & Hm' & Htr & Hchaos & _).
  exists m', tr. split; [exact Hm'|]. split; [exact Htr|].
  apply Hchaos. lra.
Defined.

End Orientation.

(** ** Static entity data across frames *)

Section FrameEffect.

Lemma foliage_frame_buffers t p s :
  Foliage.buffers (Foliage.frame t p s) = Foliage.buffers s.
Proof. unfold Foliage.frame. destruct (Foliage.shader s); reflexivity. Qed.

Lemma foliage_frames_buffers fs : forall s,
  Foliage.buffers (Foliage.frames fs s) = Foliage.buffers s.
Proof.
  unfold Foliage.frames.
  induction fs as [|f rest IH]; intros s; simpl; [reflexivity|].
  rewrite IH. apply foliage_frame_buffers.
Qed.

Lemma photo_wellFormed_preserved ph (h h' : gmap loc Vec3) :
  (forall l, is_Some (h !! l) -> is_Some (h' !! l)) ->
  Polaroids.wellFormed ph h -> Polaroids.wellFormed ph h'.
Proof.
  intros Hlive (Hf & Hc & Hg). split; [auto|]. split; [auto|].
  intros g Hm. destruct (Hg g Hm) as (H1 & H2 & H3). auto.
Qed.

Lemma photo_frame_footprint ph progress t w :
  Polaroids.wellFormed ph (heap w) ->
  let w' := snd (Polaroids.frame ph progress t w) in
  Polaroids.wellFormed ph (heap w') /\
  heap w' !! Polaroids.formedPos ph = heap w !! Polaroids.formedPos ph /\
  heap w' !! Polaroids.chaosPos ph = heap w !! Polaroids.chaosPos ph.
Proof.
  intros Hwf. destruct (Polaroids.meshRef ph) as [g|] eqn:Hg.
  - destruct (photo_frame_spec ph g progress t w Hg Hwf) as (_ & _ & Hkeep & Hlive).
    split; [eapply photo_wellFormed_preserved; eauto|].
    destruct Hwf as (Hf & Hc & Hgrp).
    destruct (Hgrp g Hg) as (_ & _ & _ & Hpf & Hpc & Hrf & Hrc).
    split; apply Hkeep; auto.
  - rewrite (photo_frame_unmounted ph progress t w Hg). simpl. auto.
Qed.

Lemma photo_frames_footprint ph fs : forall w,
  Polaroids.wellFormed ph (heap w) ->
  let w' := snd (Polaroids.frames ph fs w) in
  Polaroids.wellFormed ph (heap w') /\
  heap w' !! Polaroids.formedPos ph = heap w !! Polaroids.formedPos ph /\
  heap w' !! Polaroids.chaosPos ph = heap w !! Polaroids.chaosPos ph.
Proof.
  induction fs as [|[progress t] rest IH]; intros w Hwf.
  - simpl. auto.
  - change (Polaroids.frames ph ((progress, t) :: rest) w)
      with (let '(_, w1) := Polaroids.frame ph progress t w in Polaroids.frames ph rest w1).
    pose proof (photo_frame_footprint ph progress t w Hwf) as H1. cbv zeta in H1.
    destruct (Polaroids.frame ph progress t w) as [[] w1]. cbn [snd] in H1.
    destruct H1 as (Hwf1 & Hf1 & Hc1).
    destruct (IH w1 Hwf1) as (Hwf2 & Hf2 & Hc2).
    split; [exact Hwf2|]. split; congruence.
Qed.

Lemma endpoint_positions_witness :
  (exists m' tr,
     instanceMatrix (snd (Ornaments.frame Ornaments.sampleTemp [Ornaments.sampleDatum] 0
                                          (Ornaments.mkClock 0 (1 / 60))
                                          Ornaments.sampleWorld)) = Some m' /\
     m' !! 0%nat = Some tr /\
     t_position tr = vadd (valueAt Ornaments.sampleHeap 0%nat)
                          (mkVec3 0 (sin (0 * 1.0 + 0) * 0.1) 0)) /\
  heap (snd (Polaroids.frame Polaroids.samplePhoto 1 0 Polaroids.sampleWorld)) !! 2%nat
  = Some (vadd (valueAt Polaroids.sampleHeap 1%nat) (mkVec3 0 (sin (0 + 0) * 0.2) 0)).
Proof.
  destruct endpoint_positions as (_ & _ & Ho & Hp).
  split.
  - apply (Ho Ornaments.sampleTemp [Ornaments.sampleDatum] (Ornaments.mkClock 0 (1 / 60))
              Ornaments.sampleWorld [tidentity] 0%nat Ornaments.sampleDatum
              ornament_sample_wellFormed eq_refl (le_n 1) eq_refl).
  - apply (Hp Polaroids.samplePhoto (Polaroids.mkGroup 2%nat 3%nat) 0 Polaroids.sampleWorld
              eq_refl photo_sample_wellFormed).
Defined.

End FrameEffect.

(** * Further properties of the code *)

(** ** The camera rig *)

Section Camera.
Import App.



Lemma CameraRig_box tx ty cam :
  -1 <= tx <= 1 -> -1 <= ty <= 1 ->
  -10 <= vx cam <= 10 -> -3 <= vy cam <= 7 ->
  -10 <= vx (CameraRig tx ty cam) <= 10 /\ -3 <= vy (CameraRig tx ty cam) <= 7.
Proof. intros Hx Hy Bx By. unfold CameraRig, lerp. simpl. split; lra. Qed.

(** X2: while the aim props stay in [-1,1], as hand positions are documented
    to be, the camera never leaves the box [-10,10] x [-3,7] at depth 18 once
    it is inside it; the camera's starting position (0, 4, 18) is inside. *)
Theorem camera_stays_in_box (aims : list (R * R)) (cam : Vec3) :
  Forall (fun a => -1 <= fst a <= 1 /\ -1 <= snd a <= 1) aims ->
  -10 <= vx cam <= 10 -> -3 <= vy cam <= 7 ->
  -10 <= vx (Scene.cameraRun aims cam) <= 10 /\
  -3 <= vy (Scene.cameraRun aims cam) <= 7 /\
  (aims <> [] -> vz (Scene.cameraRun aims cam) = 18).
Proof.
  unfold Scene.cameraRun. revert cam.
  induction aims as [|[tx ty] rest IH]; intros cam Hall Bx By.
  - simpl. repeat split; try lra. congruence.
  - inversion Hall as [|? ? [Hx Hy] Hrest]; subst. simpl in Hx, Hy. simpl fold_left.
    destruct (CameraRig_box tx ty cam Hx Hy Bx By) as [Bx' By'].
    destruct (IH (CameraRig tx ty cam) Hrest Bx' By') as (Rx & Ry & Rz).
    split; [exact Rx|]. split; [exact Ry|]. intros _.
    destruct rest as [|a rest']; [reflexivity|]. apply Rz. discriminate.
Qed.

Lemma camera_stays_in_box_witness :
  -10 <= vx (Scene.cameraRun [(1, -1); (0, 0)] Scene.cameraStart) <= 10 /\
  vz (Scene.cameraRun [(1, -1); (0, 0)] Scene.cameraStart) = 18.
Proof.
  destruct (camera_stays_in_box [(1, -1); (0, 0)] Scene.cameraStart) as (Hx & _ & Hz).
  - repeat constructor; simpl; lra.
  - simpl. lra.
  - simpl. lra.
  - split; [exact Hx|]. apply Hz. discriminate.
Defined.

End Camera.

(** ** The gesture classifier *)

Section Classifier.
Import GestureHandler.

(** The six landmarks [classify] reads. *)
Lemma classify_inv landmarks s :
  classify landmarks = Some s ->
  exists wrist thumbTip indexTip middleTip ringTip pinkyTip,
    landmarks !! 0%nat = Some wrist /\ landmarks !! 4%nat = Some thumbTip /\
    landmarks !! 8%nat = Some indexTip /\ landmarks !! 12%nat = Some middleTip /\
    landmarks !! 16%nat = Some ringTip /\ landmarks !! 20%nat = Some pinkyTip /\
    s = mkSample
          (Rgtb ((0 + tipDist wrist indexTip + tipDist wrist middleTip
                  + tipDist wrist ringTip + tipDist wrist pinkyTip) / 4) 0.3)
          (- ((lx thumbTip + lx pinkyTip) / 2 - 0.5) * 2)
          (- ((ly thumbTip + ly wrist) / 2 - 0.5) * 2)
          true.
Proof.
  unfold classify. intros H.
  destruct (landmarks !! 0%nat) as [wrist|]; simpl in H; [|discriminate].
  destruct (landmarks !! 4%nat) as [thumbTip|]; simpl in H; [|discriminate].
  destruct (landmarks !! 8%nat) as [indexTip|]; simpl in H; [|discriminate].
  destruct (landmarks !! 12%nat) as [middleTip|]; simpl in H; [|discriminate].
  destruct (landmarks !! 16%nat) as [ringTip|]; simpl in H; [|discriminate].
  destruct (landmarks !! 20%nat) as [pinkyTip|]; simpl in H; [|discriminate].
  injection H as <-.
  exists wrist, thumbTip, indexTip, middleTip, ringTip, pinkyTip.
  repeat split; try reflexivity.
  f_equal; lra.
Qed.

Lemma classify_complete landmarks wrist thumbTip indexTip middleTip ringTip pinkyTip :
  landmarks !! 0%nat = Some wrist -> landmarks !! 4%nat = Some thumbTip ->
  landmarks !! 8%nat = Some indexTip -> landmarks !! 12%nat = Some middleTip ->
  landmarks !! 16%nat = Some ringTip -> landmarks !! 20%nat = Some pinkyTip ->
  classify landmarks =
  Some (mkSample
          (Rgtb ((0 + tipDist wrist indexTip + tipDist wrist middleTip
                  + tipDist wrist ringTip + tipDist wrist pinkyTip) / 4) 0.3)
          (- ((lx thumbTip + lx pinkyTip) / 2 - 0.5) * 2)
          (- ((ly thumbTip + ly wrist) / 2 - 0.5) * 2)
          true).
Proof.
  intros H0 H4 H8 H12 H16 H20. unfold classify.
  rewrite H0. simpl. rewrite H4. simpl. rewrite H8. simpl. rewrite H12. simpl.
  rewrite H16. simpl. rewrite H20. simpl. f_equal. f_equal; lra.
Qed.

Lemma classify_enough landmarks :
  (21 <= length landmarks)%nat -> is_Some (classify landmarks).
Proof.
  intros Hlen.
  destruct (lookup_lt_is_Some_2 landmarks 0) as [w H0]; [lia|].
  destruct (lookup_lt_is_Some_2 landmarks 4) as [t H4]; [lia|].
  destruct (lookup_lt_is_Some_2 landmarks 8) as [i H8]; [lia|].
  destruct (lookup_lt_is_Some_2 landmarks 12) as [m H12]; [lia|].
  destruct (lookup_lt_is_Some_2 landmarks 16) as [r H16]; [lia|].
  destruct (lookup_lt_is_Some_2 landmarks 20) as [p H20]; [lia|].
  rewrite (classify_complete landmarks w t i m r p) by assumption. eauto.
Qed.

(** X3: the detected branch succeeds exactly when the hand has at least the 21
    landmarks of the hand model; with fewer, reading a missing landmark
    throws. *)
Theorem classify_needs_21_landmarks (landmarks : list Landmark) :
  is_Some (classify landmarks) <-> (21 <= length landmarks)%nat.
Proof.
  split.
  - intros [s Hs]. destruct (classify_inv landmarks s Hs)
      as (w & t & i & m & r & p & _ & _ & _ & _ & _ & H20 & _).
    apply lookup_lt_Some in H20. lia.
  - apply classify_enough.
Qed.

(** X4: for landmarks inside the normalised image the hand position sent to
    the application lies in [-1,1] on both axes, and the sample is marked
    detected. *)
Theorem classify_position_in_range (landmarks : list Landmark) (s : Sample) :
  Forall Scene.inImage landmarks -> classify landmarks = Some s ->
  -1 <= s_x s <= 1 /\ -1 <= s_y s <= 1 /\ s_detected s = true.
Proof.
  intros Hall Hs.
  destruct (classify_inv landmarks s Hs)
    as (w & t & i & m & r & p & H0 & H4 & _ & _ & _ & H20 & ->).
  rewrite Forall_lookup in Hall.
  destruct (Hall _ _ H0) as [_ Hwy]. destruct (Hall _ _ H4) as [Htx Hty].
  destruct (Hall _ _ H20) as [Hpx _].
  simpl. repeat split; lra.
Qed.

Lemma tipDist_mirror w p :
  tipDist (mkLandmark (1 - lx w) (ly w)) (mkLandmark (1 - lx p) (ly p)) = tipDist w p.
Proof. unfold tipDist. simpl. f_equal. ring. Qed.

(** X5: mirroring the hand left to right negates the horizontal position sent
    to the application and changes neither the vertical position nor the
    open/closed classification. *)
Theorem classify_mirror (landmarks : list Landmark) (s : Sample) :
  classify landmarks = Some s ->
  classify (Scene.mirror landmarks)
  = Some (mkSample (s_isOpen s) (- s_x s) (s_y s) (s_detected s)).
Proof.
  intros Hs.
  destruct (classify_inv landmarks s Hs)
    as (w & t & i & m & r & p & H0 & H4 & H8 & H12 & H16 & H20 & ->).
  unfold Scene.mirror. change (List.map ?f ?l) with (f <$> l).
  rewrite (classify_complete _ _ _ _ _ _ _
             (list_lookup_fmap_Some_2 _ _ _ _ H0) (list_lookup_fmap_Some_2 _ _ _ _ H4)
             (list_lookup_fmap_Some_2 _ _ _ _ H8) (list_lookup_fmap_Some_2 _ _ _ _ H12)
             (list_lookup_fmap_Some_2 _ _ _ _ H16) (list_lookup_fmap_Some_2 _ _ _ _ H20)).
  rewrite !tipDist_mirror. simpl. f_equal. f_equal. lra.
Qed.

Lemma classify_mirror_witness :
  let hand := replicate 21 (mkLandmark (1 / 4) (1 / 2)) in
  exists s, classify hand = Some s /\
            classify (Scene.mirror hand)
            = Some (mkSample (s_isOpen s) (- s_x s) (s_y s) (s_detected s)).
Proof.
  intros hand.
  destruct (classify_enough hand) as [s Hs]; [simpl; lia|].
  exists s. split; [exact Hs|]. apply (classify_mirror hand s Hs).
Defined.

Lemma classify_position_in_range_witness :
  let hand := replicate 21 (mkLandmark (1 / 4) (1 / 2)) in
  exists s, classify hand = Some s /\ -1 <= s_x s <= 1.
Proof.
  intros hand.
  destruct (classify_enough hand) as [s Hs]; [simpl; lia|].
  exists s. split; [exact Hs|].
  apply (classify_position_in_range hand s); [|exact Hs].
  apply Forall_replicate. unfold Scene.inImage. simpl. lra.
Defined.

(** X6: the hand counts as open exactly when its index, middle, ring and pinky
    tips lie at more than 0.3 from the wrist on average, in normalised image
    units; the thumb tip takes no part.  So a hand whose four tips are all
    farther than 0.3 is open and one whose four tips are all within 0.3 is
    closed. *)
Theorem classify_openness (landmarks : list Landmark) (s : Sample)
    (wrist indexTip middleTip ringTip pinkyTip : Landmark) :
  classify landmarks = Some s ->
  landmarks !! 0%nat = Some wrist -> landmarks !! 8%nat = Some indexTip ->
  landmarks !! 12%nat = Some middleTip -> landmarks !! 16%nat = Some ringTip ->
  landmarks !! 20%nat = Some pinkyTip ->
  let total := tipDist wrist indexTip + tipDist wrist middleTip
               + tipDist wrist ringTip + tipDist wrist pinkyTip in
  (s_isOpen s = true <-> 1.2 < total) /\
  (0.3 < tipDist wrist indexTip -> 0.3 < tipDist wrist middleTip ->
   0.3 < tipDist wrist ringTip -> 0.3 < tipDist wrist pinkyTip -> s_isOpen s = true) /\
  (tipDist wrist indexTip <= 0.3 -> tipDist wrist middleTip <= 0.3 ->
   tipDist wrist ringTip <= 0.3 -> tipDist wrist pinkyTip <= 0.3 -> s_isOpen s = false).
Proof.
  intros Hs H0 H8 H12 H16 H20 total.
  destruct (classify_inv landmarks s Hs)
    as (w & t & i & m & r & p & E0 & _ & E8 & E12 & E16 & E20 & ->).
  rewrite H0 in E0. rewrite H8 in E8. rewrite H12 in E12. rewrite H16 in E16.
  rewrite H20 in E20.
  injection E0 as <-. injection E8 as <-. injection E12 as <-.
  injection E16 as <-. injection E20 as <-.
  cbn [s_isOpen].
  split; [|split].
  - rewrite Rgtb_true. unfold total. split; intros; lra.
  - intros. apply Rgtb_true. lra.
  - intros. apply Rgtb_false. lra.
Qed.

Lemma classify_openness_witness :
  let hand := replicate 21 (mkLandmark (1 / 4) (1 / 2)) in
  exists s, classify hand = Some s /\ s_isOpen s = false.
Proof.
  intros hand.
  destruct (classify_enough hand) as [s Hs]; [simpl; lia|].
  exists s. split; [exact Hs|].
  assert (Hd : tipDist (mkLandmark (1 / 4) (1 / 2)) (mkLandmark (1 / 4) (1 / 2)) <= 0.3).
  { unfold tipDist. simpl.
    replace ((1 / 4 - 1 / 4) * ((1 / 4 - 1 / 4) * 1) + (1 / 2 - 1 / 2) * ((1 / 2 - 1 / 2) * 1))
      with 0 by lra.
    rewrite sqrt_0. lra. }
  apply (classify_openness hand s (mkLandmark (1 / 4) (1 / 2)) (mkLandmark (1 / 4) (1 / 2))
           (mkLandmark (1 / 4) (1 / 2)) (mkLandmark (1 / 4) (1 / 2))
           (mkLandmark (1 / 4) (1 / 2)) Hs eq_refl eq_refl eq_refl eq_refl eq_refl);
    exact Hd.
Defined.

(** X7: [predict] never handles one video frame twice: called again at the
    same video time it sends nothing and leaves its state alone, whatever the
    first call did. *)
Theorem predict_same_frame_silent (last : R) (inp : PredictInput) :
  predict (fst (predict last inp)) inp = (fst (predict last inp), Silent).
Proof.
  unfold predict at 2 3.
  destruct (negb (refsReady inp)) eqn:Hr.
  - simpl. unfold predict. rewrite Hr. reflexivity.
  - destruct (Req_dec_T (currentTime inp) last) as [E|NE].
    + simpl. unfold predict. rewrite Hr.
      destruct (Req_dec_T (currentTime inp) last); [reflexivity | contradiction].
    + unfold predict. rewrite Hr.
      destruct (hasLandmarks (results inp)); [destruct (classify _)|]; simpl;
        (destruct (Req_dec_T (currentTime inp) (currentTime inp)); [reflexivity | congruence]).
Qed.

End Classifier.

(** ** Dynamics of the progress filter *)

Section FilterDynamics.
Import App.

Lemma ticks_closed_form n open p :
  ticks n open p = targetOf open + (p - targetOf open) * (1 - k) ^ n.
Proof. pose proof (ticks_error n open p). lra. Qed.

Lemma pow_k_bounds n : 0 < (1 - k) ^ n <= 1 /\ (1 - k) ^ (S n) <= (1 - k) ^ n.
Proof.
  pose proof one_minus_k_pos as Hk.
  assert (0 < (1 - k) ^ n) by (apply pow_lt; lra).
  pose proof (pow_antitone 0 n (Nat.le_0_l n)) as H0. simpl in H0.
  pose proof (pow_antitone n (S n) (Nat.le_succ_diag_r n)) as H1.
  repeat split; lra.
Qed.

(** X8: the progress moves toward its target without ever overshooting or
    turning back: under a sustained open hand it never decreases and stays at
    most 1, under a sustained closed or lost hand it never increases and stays
    at least 0. *)
Theorem progress_monotone (n : nat) (p0 : R) :
  0 <= p0 <= 1 ->
  (p0 <= ticks n true p0 /\ ticks n true p0 <= ticks (S n) true p0 <= 1) /\
  (0 <= ticks (S n) false p0 <= ticks n false p0 /\ ticks n false p0 <= p0).
Proof.
  intros Hp.
  rewrite !ticks_closed_form. cbn [targetOf].
  destruct (pow_k_bounds n) as ([Hpos Hle] & Hstep).
  assert (0 < (1 - k) ^ S n) by (apply pow_lt; pose proof one_minus_k_pos; lra).
  set (a := (1 - k) ^ n) in *. set (b := (1 - k) ^ S n) in *.
  repeat split; nra.
Qed.

Lemma progress_monotone_witness :
  ticks 3 true 0 <= ticks 4 true 0 <= 1 /\ ticks 3 false 1 <= 1.
Proof.
  split.
  - apply (progress_monotone 3 0). lra.
  - apply (progress_monotone 3 1). lra.
Defined.

End FilterDynamics.

(** ** The foliage shaders *)

Section Shaders.
Import Foliage.

Lemma clamp_range x : 0 <= clamp x 0 1 <= 1.
Proof.
  unfold clamp, Rmin, Rmax.
  destruct (Rle_dec x 0); destruct (Rle_dec _ 1); lra.
Qed.

Lemma clamp_low x : x <= 0 -> clamp x 0 1 = 0.
Proof.
  intros H. unfold clamp, Rmin, Rmax.
  destruct (Rle_dec x 0); destruct (Rle_dec _ 1); lra.
Qed.

Lemma clamp_high x : 1 <= x -> clamp x 0 1 = 1.
Proof.
  intros H. unfold clamp, Rmin, Rmax.
  destruct (Rle_dec x 0); destruct (Rle_dec _ 1); lra.
Qed.

Lemma clamp_mid x : 0 <= x <= 1 -> clamp x 0 1 = x.
Proof.
  intros H. unfold clamp, Rmin, Rmax.
  destruct (Rle_dec x 0); destruct (Rle_dec _ 1); lra.
Qed.

Lemma clamp_monotone x y : x <= y -> clamp x 0 1 <= clamp y 0 1.
Proof.
  intros H. unfold clamp, Rmin, Rmax.
  destruct (Rle_dec x 0); destruct (Rle_dec y 0);
    repeat match goal with |- context [Rle_dec ?a ?b] => destruct (Rle_dec a b) end; lra.
Qed.

Lemma hermite_range t : 0 <= t <= 1 -> 0 <= t * t * (3 - 2 * t) <= 1.
Proof.
  intros Ht.
  assert (H0 : 0 <= t * t) by (apply Rmult_le_pos; lra).
  assert (H1 : 0 <= (1 - t) * (1 - t)) by (apply Rmult_le_pos; lra).
  assert (H2 : 0 <= t * t * (3 - 2 * t)) by (apply Rmult_le_pos; lra).
  assert (H3 : 0 <= (1 - t) * (1 - t) * (1 + 2 * t)) by (apply Rmult_le_pos; lra).
  assert (H4 : 1 - t * t * (3 - 2 * t) = (1 - t) * (1 - t) * (1 + 2 * t)) by ring.
  lra.
Qed.

Lemma hermite_monotone a b : 0 <= a -> a <= b -> b <= 1 ->
  a * a * (3 - 2 * a) <= b * b * (3 - 2 * b).
Proof.
  intros Ha Hab Hb.
  assert (H : b * b * (3 - 2 * b) - a * a * (3 - 2 * a)
              = (b - a) * (a * (3 - 2 * a - b) + b * (3 - 2 * b - a))) by ring.
  assert (0 <= a * (3 - 2 * a - b)) by (apply Rmult_le_pos; lra).
  assert (0 <= b * (3 - 2 * b - a)) by (apply Rmult_le_pos; lra).
  assert (0 <= (b - a) * (a * (3 - 2 * a - b) + b * (3 - 2 * b - a)))
    by (apply Rmult_le_pos; lra).
  lra.
Qed.

Lemma ratio_monotone e0 e1 x y :
  e0 < e1 -> x <= y -> (x - e0) / (e1 - e0) <= (y - e0) / (e1 - e0).
Proof.
  intros He Hxy. unfold Rdiv. apply Rmult_le_compat_r; [|lra].
  left. apply Rinv_0_lt_compat. lra.
Qed.

(** [smoothstep] between two edges [e0 < e1]: 0 up to the lower edge, 1 from
    the upper edge on, the cubic [t*t*(3 - 2*t)] of the normalised argument
    in between, always within [0,1], and never decreasing. *)
Theorem smoothstep_shape (e0 e1 x y : R) :
  e0 < e1 ->
  0 <= smoothstep e0 e1 x <= 1 /\
  (x <= e0 -> smoothstep e0 e1 x = 0) /\
  (e1 <= x -> smoothstep e0 e1 x = 1) /\
  (e0 <= x <= e1 ->
     let t := (x - e0) / (e1 - e0) in smoothstep e0 e1 x = t * t * (3 - 2 * t)) /\
  (x <= y -> smoothstep e0 e1 x <= smoothstep e0 e1 y).
Proof.
  intros He.
  assert (Hinv : 0 < / (e1 - e0)) by (apply Rinv_0_lt_compat; lra).
  assert (Hone : (e1 - e0) / (e1 - e0) = 1) by (field; lra).
  unfold smoothstep.
  split; [apply hermite_range, clamp_range|].
  split; [|split; [|split]].
  - intros Hx. rewrite clamp_low; [lra|].
    pose proof (ratio_monotone e0 e1 x e0 He Hx) as H.
    replace ((e0 - e0) / (e1 - e0)) with 0 in H by (unfold Rdiv; ring). exact H.
  - intros Hx. rewrite clamp_high; [lra|].
    pose proof (ratio_monotone e0 e1 e1 x He Hx) as H. rewrite Hone in H. exact H.
  - intros [Hx0 Hx1]. cbv zeta. rewrite clamp_mid; [reflexivity|].
    pose proof (ratio_monotone e0 e1 e0 x He Hx0) as H0.
    pose proof (ratio_monotone e0 e1 x e1 He Hx1) as H1.
    replace ((e0 - e0) / (e1 - e0)) with 0 in H0 by (unfold Rdiv; ring).
    rewrite Hone in H1. split; assumption.
  - intros Hxy.
    pose proof (clamp_range ((x - e0) / (e1 - e0))) as Ha.
    pose proof (clamp_range ((y - e0) / (e1 - e0))) as Hb.
    apply hermite_monotone; try lra.
    apply clamp_monotone, ratio_monotone; assumption.
Qed.

Lemma smoothstep_shape_witness :
  0 <= smoothstep 0 1 (1 / 2) <= 1 /\ smoothstep 0.8 1.0 (1 / 2) = 0.
Proof.
  split.
  - apply (smoothstep_shape 0 1 (1 / 2) (1 / 2)). lra.
  - apply (smoothstep_shape 0.8 1.0 (1 / 2) (1 / 2)); lra.
Defined.

Lemma mix_between a b t :
  0 <= t <= 1 -> Rmin a b <= mix a b t <= Rmax a b.
Proof.
  intros Ht. unfold mix, Rmin, Rmax. destruct (Rle_dec a b); split; nra.
Qed.

Lemma noise_bound uTime aRandom :
  Rabs (vx (noise uTime aRandom)) <= 0.5 /\
  Rabs (vy (noise uTime aRandom)) <= 0.5 /\
  Rabs (vz (noise uTime aRandom)) <= 0.5.
Proof.
  unfold noise. simpl.
  pose proof (SIN_bound (uTime * 0.5 + aRandom * 10)).
  pose proof (COS_bound (uTime * 0.3 + aRandom * 20)).
  pose proof (SIN_bound (uTime * 0.7 + aRandom * 30)).
  repeat split; apply Rabs_le; lra.
Qed.

(** X10: the foliage position for any progress value, in or out of [0,1]: a
    progress at or below 0 gives the formed position, one at or above 1 the
    chaos position plus noise, and in every case each coordinate lies between
    the formed coordinate and the displaced chaos coordinate; the noise
    displaces the chaos position by at most 0.5 on each axis. *)
Theorem foliage_position_clamped (uTime uProgress : R) (position aChaosPos : Vec3) (aRandom : R) :
  let p := finalPos uTime uProgress position aChaosPos aRandom in
  let target := vadd aChaosPos (noise uTime aRandom) in
  (uProgress <= 0 -> p = position) /\
  (1 <= uProgress -> p = target) /\
  Rmin (vx position) (vx target) <= vx p <= Rmax (vx position) (vx target) /\
  Rmin (vy position) (vy target) <= vy p <= Rmax (vy position) (vy target) /\
  Rmin (vz position) (vz target) <= vz p <= Rmax (vz position) (vz target) /\
  Rabs (vx target - vx aChaosPos) <= 0.5 /\
  Rabs (vy target - vy aChaosPos) <= 0.5 /\
  Rabs (vz target - vz aChaosPos) <= 0.5.
Proof.
  intros p target.
  assert (H01 : (0 : R) < 1) by lra.
  destruct (smoothstep_shape 0 1 uProgress uProgress H01) as (Hr & Hlo & Hhi & _).
  unfold p, finalPos. fold target.
  split; [|split].
  - intros Hp. rewrite (Hlo Hp). destruct position as [x y z].
    unfold mix3, mix. simpl. f_equal; lra.
  - intros Hp. rewrite (Hhi Hp). destruct target as [x y z].
    unfold mix3, mix. simpl. f_equal; lra.
  - unfold mix3. cbn [vx vy vz].
    split; [apply mix_between, Hr|]. split; [apply mix_between, Hr|].
    split; [apply mix_between, Hr|].
    destruct (noise_bound uTime aRandom) as (Nx & Ny & Nz).
    unfold target, vadd. cbn [vx vy vz].
    replace (vx aChaosPos + vx (noise uTime aRandom) - vx aChaosPos)
      with (vx (noise uTime aRandom)) by ring.
    replace (vy aChaosPos + vy (noise uTime aRandom) - vy aChaosPos)
      with (vy (noise uTime aRandom)) by ring.
    replace (vz aChaosPos + vz (noise uTime aRandom) - vz aChaosPos)
      with (vz (noise uTime aRandom)) by ring.
    auto.
Qed.

Lemma foliage_position_clamped_witness :
  finalPos 0 (-1) (mkVec3 1 2 3) vzero 0 = mkVec3 1 2 3 /\
  finalPos 0 2 (mkVec3 1 2 3) vzero 0 = vadd vzero (noise 0 0).
Proof.
  split.
  - apply (foliage_position_clamped 0 (-1) (mkVec3 1 2 3) vzero 0). lra.
  - apply (foliage_position_clamped 0 2 (mkVec3 1 2 3) vzero 0). lra.
Defined.

End Shaders.

(** ** Point size, colour and the fragment shader *)

Section PointAppearance.
Import Foliage FoliageShader.

Lemma sparkle_range x : 0 <= Rabs (sin x) * 0.2 <= 0.2.
Proof.
  pose proof (Rabs_pos (sin x)). pose proof (SIN_bound x) as Hs.
  assert (Rabs (sin x) <= 1) by (apply Rabs_le; lra). lra.
Qed.

(** X11: a vertex is a gold highlight exactly when its [aRandom] exceeds 0.9:
    then its base colour is gold and its size lies strictly between 0.4275 and
    0.45; otherwise its base colour is the height-dependent blend of dark
    green and emerald and its size lies between 0.15 and 0.285.  In both cases
    the sparkle adds the same amount, between 0 and 0.2, to every channel. *)
Theorem vertex_appearance (uTime : R) (position : Vec3) (aRandom : R) :
  0 <= aRandom < 1 ->
  let sparkle := Rabs (sin (uTime * 2.0 + aRandom * 100.0)) * 0.2 in
  let glitter := mkVec3 sparkle sparkle sparkle in
  0 <= sparkle <= 0.2 /\
  (0.9 < aRandom ->
     vColor uTime position aRandom = vadd cGold glitter /\
     0.4275 < size aRandom < 0.45) /\
  (aRandom <= 0.9 ->
     vColor uTime position aRandom
     = vadd (mix3 cDarkGreen cEmerald ((vy position + 5.0) / 15.0 + aRandom * 0.2)) glitter /\
     0.15 <= size aRandom <= 0.285).
Proof.
  intros Ha sparkle glitter.
  split; [apply sparkle_range|].
  unfold vColor, size, mix. fold sparkle. fold glitter.
  split.
  - intros Hg. rewrite (proj2 (Rgtb_true aRandom 0.9) Hg). split; [reflexivity | lra].
  - intros Hg. rewrite (proj2 (Rgtb_false aRandom 0.9) Hg). split; [reflexivity | lra].
Qed.

Lemma vertex_appearance_witness :
  vColor 0 vzero 0.95 = vadd cGold (mkVec3 (Rabs (sin (0 * 2.0 + 0.95 * 100.0)) * 0.2)
                                           (Rabs (sin (0 * 2.0 + 0.95 * 100.0)) * 0.2)
                                           (Rabs (sin (0 * 2.0 + 0.95 * 100.0)) * 0.2)) /\
  0.15 <= size 0.5 <= 0.285.
Proof.
  split.
  - apply (vertex_appearance 0 vzero 0.95); lra.
  - apply (vertex_appearance 0 vzero 0.5); lra.
Defined.

Lemma sqrt_le_08 r : 0 <= r <= 0.64 -> sqrt r <= 0.8.
Proof.
  intros Hr. replace 0.8 with (sqrt (0.8 * 0.8)) by (apply sqrt_square; lra).
  apply sqrt_le_1_alt. lra.
Qed.

(** X12: the fragment shader keeps exactly the fragments inside the unit disc
    of the point sprite and discards the rest; a kept fragment carries the
    vertex colour unchanged and an alpha in [0,1], which is 1 within 0.8 of
    the centre and 0 on the rim. *)
Theorem fragment_disc (colour : Vec3) (pointCoord : R * R) :
  let cx := 2 * fst pointCoord - 1 in
  let cy := 2 * snd pointCoord - 1 in
  let d2 := cx * cx + cy * cy in
  (fragment colour pointCoord = None <-> 1 < d2) /\
  (d2 <= 1 ->
     exists alpha,
       fragment colour pointCoord = Some (colour, alpha) /\
       0 <= alpha <= 1 /\
       (d2 <= 0.64 -> alpha = 1) /\
       (d2 = 1 -> alpha = 0)).
Proof.
  intros cx cy d2. unfold fragment.
  replace (2.0 * fst pointCoord - 1.0) with cx by (unfold cx; lra).
  replace (2.0 * snd pointCoord - 1.0) with cy by (unfold cy; lra).
  fold d2.
  assert (Hd2 : 0 <= d2) by (unfold d2; nra).
  assert (He : 0.8 < 1.0) by lra.
  split.
  - destruct (Rgtb d2 1.0) eqn:E.
    + apply Rgtb_true in E. split; [intros _; lra | reflexivity].
    + apply Rgtb_false in E. split; [discriminate | intros; lra].
  - intros Hin. rewrite (proj2 (Rgtb_false d2 1.0)) by lra.
    eexists. split; [reflexivity|].
    destruct (smoothstep_shape 0.8 1.0 (sqrt d2) (sqrt d2) He) as (Hr & Hlo & Hhi & _).
    split; [lra|]. split.
    + intros Hc. rewrite Hlo; [lra|]. apply sqrt_le_08. lra.
    + intros H1. rewrite Hhi; [lra|]. rewrite H1, sqrt_1. lra.
Qed.

Lemma fragment_disc_witness :
  exists alpha, fragment cGold (1 / 2, 1 / 2) = Some (cGold, alpha) /\ alpha = 1.
Proof.
  destruct (fragment_disc cGold (1 / 2, 1 / 2)) as [_ H].
  destruct H as (alpha & Hf & _ & Hc & _); [simpl; lra|].
  exists alpha. split; [exact Hf|]. apply Hc. simpl. lra.
Defined.

End PointAppearance.

(** ** The foliage buffers *)

Section FoliageBuffers.
Import Foliage.

Lemma generateN_shape n w :
  let r := generateN n w in
  length (positions (fst r)) = (n * 3)%nat /\
  length (chaosPositions (fst r)) = (n * 3)%nat /\
  length (randoms (fst r)) = n /\
  heap (snd r) = heap w /\
  (forall m, rng (snd r) m = rng w (7 * n + m)%nat).
Proof.
  unfold generateN.
  destruct (forLoop_body n 0
              (mkBuffers (replicate (n * 3) 0) (replicate (n * 3) 0) (replicate n 0)) w)
    as (Hrng & Hheap & Lp & Lc & Lr & _); cbn [positions chaosPositions randoms];
    rewrite ?length_replicate; try lia.
  cbn [positions chaosPositions randoms] in Lp, Lc, Lr.
  rewrite length_replicate in Lp, Lc, Lr.
  cbv zeta. repeat split; assumption.
Qed.

Lemma generateN_buffers n w :
  let r := generateN n w in
  length (positions (fst r)) = (n * 3)%nat /\
  length (chaosPositions (fst r)) = (n * 3)%nat /\
  length (randoms (fst r)) = n /\
  heap (snd r) = heap w /\
  (forall m, rng (snd r) m = rng w (7 * n + m)%nat) /\
  (forall i, (i < n)%nat -> randoms (fst r) !! i = Some (rng w (7 * i + 6)%nat)) /\
  (forall i, (n <= i)%nat -> entityAt (fst r) i = None).
Proof.
  intros r. unfold r.
  destruct (generateN_shape n w) as (Lp & Lc & Lr & Hh & Hrng).
  assert (Hrand : forall i, (i < n)%nat ->
            randoms (fst (generateN n w)) !! i = Some (rng w (7 * i + 6)%nat)).
  { intros i Hi. destruct (generateN_entity n w i Hi) as [He _].
    apply entityAt_attr3 in He. apply He. }
  split; [exact Lp|]. split; [exact Lc|]. split; [exact Lr|]. split; [exact Hh|].
  split; [exact Hrng|]. split; [exact Hrand|].
  intros i Hi. unfold entityAt.
  rewrite (lookup_ge_None_2 (randoms (fst (generateN n w))) i) by lia.
  destruct (attr3 _ i); [destruct (attr3 _ i)|]; reflexivity.
Qed.

(** X13: generation fills three buffers of 3 * count, 3 * count and count
    floats and nothing beyond them; it takes exactly seven draws per point,
    so the next consumer of the random source starts at draw 7 * count; it
    creates no vector object; and each point's [aRandom] is taken from the
    seventh draw of its group. *)
Theorem foliage_buffers (w : World) :
  let r := generate w in
  length (positions (fst r)) = (count * 3)%nat /\
  length (chaosPositions (fst r)) = (count * 3)%nat /\
  length (randoms (fst r)) = count /\
  heap (snd r) = heap w /\
  (forall m, rng (snd r) m = rng w (7 * count + m)%nat) /\
  (forall i, (i < count)%nat -> randoms (fst r) !! i = Some (rng w (7 * i + 6)%nat)) /\
  (forall i, (count <= i)%nat -> entityAt (fst r) i = None).
Proof. exact (generateN_buffers count w). Qed.

Lemma foliage_buffers_witness :
  randoms (fst (generate (constDraws (1 / 2)))) !! 0%nat = Some (1 / 2) /\
  forall m, rng (snd (generate (constDraws (1 / 2)))) m = 1 / 2.
Proof.
  pose proof (foliage_buffers (constDraws (1 / 2))) as H. cbv zeta in H.
  destruct H as (_ & _ & _ & _ & Hrng & Hrand & _).
  split.
  - pose proof (Hrand 0%nat count_positive) as H0.
    change (rng (constDraws (1 / 2)) (7 * 0 + 6)) with (1 / 2) in H0. exact H0.
  - intros m. rewrite Hrng. reflexivity.
Defined.

End FoliageBuffers.

(** ** Attributes of the generated ornaments *)

Section OrnamentAttributes.
Import Ornaments.

Lemma data_draws count palette w l w' :
  data count palette w = (Normal l, w') ->
  forall m, rng w' m = rng w (13 * length l + m)%nat.
Proof.
  unfold data. destruct (validArrayLength count); [|discriminate].
  pose proof (mapM_entity palette (Z.to_nat count) w) as Hm.
  destruct (mapM (fun _ : R => entity palette) (replicate (Z.to_nat count) 0) w) as [l0 w0].
  cbn [fst snd] in Hm. destruct Hm as (Hlen & Hrng & _).
  intros [= <- <-]. rewrite Hlen. exact Hrng.
Qed.

Lemma formedOf_geometry u1 u2 u3 :
  0 <= u1 < 1 -> 0 <= u3 < 1 ->
  let p := formedOf u1 u2 u3 in
  let rAtY := Spec.radiusAtY treeHeight maxRadius (u1 * treeHeight) in
  0 < rAtY <= maxRadius /\
  -4 <= vy p < 8 /\
  vx p * vx p + vz p * vz p = (rAtY * (0.8 + u3 * 0.3)) ^ 2 /\
  (0.8 * rAtY) ^ 2 <= vx p * vx p + vz p * vz p < (1.1 * rAtY) ^ 2.
Proof.
  intros H1 H3. cbv zeta.
  unfold formedOf, Spec.radiusAtY, treeHeight, maxRadius. cbn [vx vy vz].
  set (rA := (12 - u1 * 12) / 12 * 5.5).
  assert (HrA : 0 < rA <= 5.5) by (unfold rA; lra).
  set (a := u2 * PI * 2).
  assert (Hsq : rA * (0.8 + u3 * 0.3) * cos a * (rA * (0.8 + u3 * 0.3) * cos a) +
                rA * (0.8 + u3 * 0.3) * sin a * (rA * (0.8 + u3 * 0.3) * sin a)
                = (rA * (0.8 + u3 * 0.3)) ^ 2).
  { pose proof (sin2_cos2 a) as Hsc. unfold Rsqr in Hsc.
    replace (rA * (0.8 + u3 * 0.3) * cos a * (rA * (0.8 + u3 * 0.3) * cos a) +
             rA * (0.8 + u3 * 0.3) * sin a * (rA * (0.8 + u3 * 0.3) * sin a))
      with ((rA * (0.8 + u3 * 0.3)) ^ 2 * (sin a * sin a + cos a * cos a)) by ring.
    rewrite Hsc. ring. }
  split; [exact HrA|]. split; [lra|]. split; [exact Hsq|].
  rewrite Hsq.
  set (s := 0.8 + u3 * 0.3). assert (Hs : 0.8 <= s < 1.1) by (unfold s; lra).
  split.
  - apply pow_incr. split; [lra|]. apply Rmult_le_reg_l with (r := 1); [lra|]. nra.
  - assert (0 <= rA * s) by nra. assert (rA * s < 1.1 * rA) by nra.
    simpl. nra.
Qed.

(** X14: with draws in [0,1), every generated ornament has a scale in
    [0.3,0.7), a rotation speed in [-1,1) and a phase in [0,100); its formed
    position is at a height in [-4,8) and at a distance from the axis between
    0.8 and 1.1 times the cone radius at its height, so up to a tenth outside
    the cone of radius 5.5; and the set takes exactly thirteen draws per
    ornament. *)
Theorem ornament_attributes count palette w l w' :
  validDraws w ->
  data count palette w = (Normal l, w') ->
  (forall m, rng w' m = rng w (13 * length l + m)%nat) /\
  forall i d, l !! i = Some d ->
    0.3 <= scale d < 0.7 /\ -1 <= rotSpeed d < 1 /\ 0 <= randomOffset d < 100 /\
    exists p,
      heap w' !! formPos d = Some p /\
      let rAtY := Spec.radiusAtY treeHeight maxRadius (rng w (13 * i)%nat * treeHeight) in
      0 < rAtY <= maxRadius /\
      -4 <= vy p < 8 /\
      (0.8 * rAtY) ^ 2 <= vx p * vx p + vz p * vz p < (1.1 * rAtY) ^ 2.
Proof.
  intros Hv Hd. split; [exact (data_draws _ _ _ _ _ Hd)|].
  intros i d Hi.
  destruct (data_normal count palette w l w' Hd i d Hi) as (Hf & _ & Hs & Hr & _ & _ & Ho).
  pose proof (Hv (13 * i + 6)%nat) as H6. pose proof (Hv (13 * i + 7)%nat) as H7.
  pose proof (Hv (13 * i + 12)%nat) as H12.
  split; [rewrite Hs; lra|]. split; [rewrite Hr; lra|]. split; [rewrite Ho; lra|].
  eexists. split; [exact Hf|].
  destruct (formedOf_geometry (rng w (13 * i + 0)%nat) (rng w (13 * i + 1)%nat)
              (rng w (13 * i + 2)%nat) (Hv _) (Hv _)) as (G1 & G2 & _ & G4).
  replace (13 * i + 0)%nat with (13 * i)%nat in * by lia.
  cbv zeta. split; [exact G1|]. split; [exact G2|]. exact G4.
Qed.

Lemma ornament_attributes_witness :
  exists l w',
    data 1 [] (constDraws (1 / 2)) = (Normal l, w') /\ length l = 1%nat /\
    forall i d, l !! i = Some d -> 0.3 <= scale d < 0.7.
Proof.
  destruct (data_valid 1 [] (constDraws (1 / 2)) eq_refl) as (l & w' & Hd & Hlen & _ & _).
  exists l, w'. split; [exact Hd|]. split; [exact Hlen|].
  intros i d Hi.
  destruct (ornament_attributes 1 [] (constDraws (1 / 2)) l w') as [_ H].
  - intros n. simpl. lra.
  - exact Hd.
  - apply (H i d Hi).
Defined.

Lemma normalize_unit v :
  norm2 v <> 0 -> norm2 (normalize v) = 1.
Proof.
  intros Hn. unfold normalize.
  assert (Hpos : 0 <= norm2 v) by (unfold norm2; nra).
  assert (Hlen : sqrt (norm2 v) <> 0).
  { intros E. apply sqrt_eq_0 in E; [contradiction|exact Hpos]. }
  destruct (Req_dec_T (sqrt (norm2 v)) 0) as [E|_]; [contradiction|].
  pose proof (sqrt_sqrt (norm2 v) Hpos) as Hss.
  set (len := sqrt (norm2 v)) in *.
  unfold norm2 at 1. cbn [vx vy vz].
  replace (vx v * (1 / len) * (vx v * (1 / len)) + vy v * (1 / len) * (vy v * (1 / len)) +
           vz v * (1 / len) * (vz v * (1 / len)))
    with (norm2 v / (len * len)) by (unfold norm2; field; exact Hlen).
  rewrite Hss. field. exact Hn.
Qed.

Lemma normalize_zero v : norm2 v = 0 -> normalize v = vzero.
Proof.
  intros Hn. unfold normalize. rewrite Hn, sqrt_0.
  destruct (Req_dec_T 0 0) as [_|E]; [|contradiction].
  assert (vx v = 0 /\ vy v = 0 /\ vz v = 0) as (-> & -> & ->).
  { unfold norm2 in Hn. repeat split; nra. }
  unfold vzero. f_equal; lra.
Qed.

Lemma normalize_octant v :
  0 <= vx v -> 0 <= vy v -> 0 <= vz v ->
  0 <= vx (normalize v) /\ 0 <= vy (normalize v) /\ 0 <= vz (normalize v).
Proof.
  intros Hx Hy Hz. unfold normalize.
  set (d := if Req_dec_T (sqrt (norm2 v)) 0 then 1 else sqrt (norm2 v)).
  assert (Hd : 0 < d).
  { unfold d. destruct (Req_dec_T (sqrt (norm2 v)) 0) as [|Hne]; [lra|].
    pose proof (sqrt_pos (norm2 v)). lra. }
  assert (0 < 1 / d) by (apply Rdiv_lt_0_compat; lra).
  cbn [vx vy vz]. repeat split; apply Rmult_le_pos; lra.
Qed.

(** X15: with draws in [0,1), every ornament's rotation axis has no negative
    component; it is a unit vector unless its three draws are all 0, and then
    it is the zero vector. *)
Theorem ornament_axis count palette w l w' :
  validDraws w ->
  data count palette w = (Normal l, w') ->
  forall i d, l !! i = Some d ->
    exists a,
      heap w' !! rotAxis d = Some a /\
      0 <= vx a /\ 0 <= vy a /\ 0 <= vz a /\
      let drawn := mkVec3 (rng w (13 * i + 8)%nat) (rng w (13 * i + 9)%nat)
                          (rng w (13 * i + 10)%nat) in
      (drawn <> vzero -> norm2 a = 1) /\
      (drawn = vzero -> a = vzero).
Proof.
  intros Hv Hd i d Hi.
  destruct (data_normal count palette w l w' Hd i d Hi) as (_ & _ & _ & _ & Ha & _).
  eexists. split; [exact Ha|].
  pose proof (Hv (13 * i + 8)%nat) as H8. pose proof (Hv (13 * i + 9)%nat) as H9.
  pose proof (Hv (13 * i + 10)%nat) as H10.
  set (v := mkVec3 _ _ _).
  destruct (normalize_octant v) as (Ox & Oy & Oz); try (unfold v; cbn [vx vy vz]; lra).
  split; [exact Ox|]. split; [exact Oy|]. split; [exact Oz|]. cbv zeta. split.
  - intros Hne. apply normalize_unit. intros Hn. apply Hne.
    unfold v, norm2 in Hn. cbn [vx vy vz] in Hn. unfold v, vzero. f_equal; nra.
  - intros E. apply normalize_zero. rewrite E. unfold norm2, vzero. cbn [vx vy vz]. ring.
Qed.

Lemma ornament_axis_witness :
  exists l w',
    data 1 [] (constDraws (1 / 2)) = (Normal l, w') /\ length l = 1%nat /\
    forall i d, l !! i = Some d ->
      exists a, heap w' !! rotAxis d = Some a /\ 0 <= vx a.
Proof.
  destruct (data_valid 1 [] (constDraws (1 / 2)) eq_refl) as (l & w' & Hd & Hlen & _ & _).
  exists l, w'. split; [exact Hd|]. split; [exact Hlen|].
  intros i d Hi.
  destruct (ornament_axis 1 [] (constDraws (1 / 2)) l w') with (i := i) (d := d)
    as (a & Ha & Hx & _).
  - intros n. simpl. lra.
  - exact Hd.
  - exact Hi.
  - exists a. split; assumption.
Defined.

End OrnamentAttributes.

(** ** The scratch orientation stays a rotation *)

Section UnitOrientation.
Import Ornaments.

Lemma qnorm2_multiply a b :
  qnorm2 (multiplyQuaternions a b) = qnorm2 a * qnorm2 b.
Proof. unfold qnorm2, multiplyQuaternions. cbn [qx qy qz qw]. ring. Qed.

Lemma qnorm2_axisAngle axis angle :
  qnorm2 (setFromAxisAngle axis angle) =
  norm2 axis * (sin (angle / 2) * sin (angle / 2)) + cos (angle / 2) * cos (angle / 2).
Proof. unfold qnorm2, setFromAxisAngle, norm2. cbn [qx qy qz qw]. ring. Qed.

Lemma qnorm2_axisAngle_unit axis angle :
  norm2 axis = 1 -> qnorm2 (setFromAxisAngle axis angle) = 1.
Proof.
  intros Hn. rewrite qnorm2_axisAngle, Hn.
  pose proof (sin2_cos2 (angle / 2)) as H. unfold Rsqr in H. lra.
Qed.

Lemma qnorm2_euler x y z : qnorm2 (setFromEuler x y z) = 1.
Proof.
  unfold qnorm2, setFromEuler. cbn [qx qy qz qw].
  pose proof (sin2_cos2 (x / 2)) as H1. pose proof (sin2_cos2 (y / 2)) as H2.
  pose proof (sin2_cos2 (z / 2)) as H3. unfold Rsqr in *.
  set (s1 := sin (x / 2)) in *. set (c1 := cos (x / 2)) in *.
  set (s2 := sin (y / 2)) in *. set (c2 := cos (y / 2)) in *.
  set (s3 := sin (z / 2)) in *. set (c3 := cos (z / 2)) in *.
  transitivity ((s1 * s1 + c1 * c1) * (s2 * s2 + c2 * c2) * (s3 * s3 + c3 * c3)); [ring|].
  rewrite H1, H2, H3. ring.
Qed.

Lemma orientationOf_unit q lf t axis speed offset :
  qnorm2 q = 1 -> norm2 axis = 1 -> qnorm2 (orientationOf q lf t axis speed offset) = 1.
Proof.
  intros Hq Ha. unfold orientationOf. destruct (Rgtb lf 0.5).
  - rewrite qnorm2_multiply, Hq, qnorm2_axisAngle_unit by exact Ha. ring.
  - apply qnorm2_euler.
Qed.

Lemma orientationAfter_unit h lf t data : forall q,
  Forall (fun d => norm2 (valueAt h (rotAxis d)) = 1) data ->
  qnorm2 q = 1 -> qnorm2 (orientationAfter h lf t q data) = 1.
Proof.
  unfold orientationAfter. induction data as [|d rest IH]; intros q Hall Hq.
  - exact Hq.
  - inversion Hall as [|? ? Hd Hrest]; subst. simpl fold_left.
    apply IH; [exact Hrest|]. apply orientationOf_unit; assumption.
Qed.

Lemma frame_orientation tempObj data progress clock w m :
  wellFormed tempObj data w -> instanceMatrix w = Some m ->
  tempQuat (snd (frame tempObj data progress clock w)) =
  orientationAfter (heap w) progress (elapsedTime clock) (tempQuat w) data.
Proof.
  intros Hwf Him. rewrite (frame_mounted _ _ _ _ _ _ Him).
  destruct (forEachFrom_spec tempObj progress (elapsedTime clock) data 0 w m Hwf Him)
    as (_ & _ & _ & Hq & _).
  exact Hq.
Qed.

Lemma axes_preserved tempObj data (w w' : World) :
  wellFormed tempObj data w ->
  (forall l, is_Some (heap w !! l) -> l <> o_position tempObj -> l <> o_scale tempObj ->
             heap w' !! l = heap w !! l) ->
  Forall (fun d => norm2 (valueAt (heap w) (rotAxis d)) = 1) data ->
  Forall (fun d => norm2 (valueAt (heap w') (rotAxis d)) = 1) data.
Proof.
  intros (Hsep & _) Hkeep Hall.
  rewrite Forall_forall in *. intros d Hd.
  destruct (separate_locs _ _ _ (Hsep d Hd)) as (_ & _ & Ha & Hap & Has).
  rewrite (valueAt_preserved (heap w) (heap w') (rotAxis d)); [apply Hall, Hd|].
  apply Hkeep; assumption.
Qed.

Lemma frame_unit tempObj data progress clock w :
  wellFormed tempObj data w ->
  Forall (fun d => norm2 (valueAt (heap w) (rotAxis d)) = 1) data ->
  qnorm2 (tempQuat w) = 1 ->
  qnorm2 (tempQuat (snd (frame tempObj data progress clock w))) = 1.
Proof.
  intros Hwf Hall Hq. destruct (instanceMatrix w) as [m|] eqn:Him.
  - rewrite (frame_orientation _ _ _ _ _ m Hwf Him).
    apply orientationAfter_unit; assumption.
  - rewrite (frame_unmounted _ _ _ _ _ Him). exact Hq.
Qed.

Lemma frames_unit tempObj data fs : forall w,
  wellFormed tempObj data w ->
  Forall (fun d => norm2 (valueAt (heap w) (rotAxis d)) = 1) data ->
  qnorm2 (tempQuat w) = 1 ->
  let w' := snd (frames tempObj data fs w) in
  wellFormed tempObj data w' /\
  Forall (fun d => norm2 (valueAt (heap w') (rotAxis d)) = 1) data /\
  qnorm2 (tempQuat w') = 1.
Proof.
  induction fs as [|[p c] rest IH]; intros w Hwf Hall Hq.
  - simpl. auto.
  - cbv zeta. simpl frames. unfold mbind, JS_bind.
    destruct (frame tempObj data p c w) as [[] w1] eqn:E.
    destruct (frame_footprint tempObj data p c w Hwf) as (Hwf1 & _ & Hkeep).
    pose proof (frame_unit tempObj data p c w Hwf Hall Hq) as Hq1.
    rewrite E in Hwf1, Hkeep, Hq1. cbn [snd] in Hwf1, Hkeep, Hq1.
    apply IH; [exact Hwf1| |exact Hq1].
    exact (axes_preserved tempObj data w w1 Hwf Hkeep Hall).
Qed.

(** X16: when every ornament's axis is a unit vector and the scratch object
    starts as a rotation, it is still one after any number of frames, whatever
    their progress and clock, and every instance written on the next frame
    gets a unit quaternion: the relative turns of the chaotic branch never
    accumulate a change of scale. *)
Theorem orientation_stays_unit tempObj data fs progress clock w :
  wellFormed tempObj data w ->
  Forall (fun d => norm2 (valueAt (heap w) (rotAxis d)) = 1) data ->
  qnorm2 (tempQuat w) = 1 ->
  let w1 := snd (frames tempObj data fs w) in
  qnorm2 (tempQuat w1) = 1 /\
  qnorm2 (tempQuat (snd (frame tempObj data progress clock w1))) = 1 /\
  forall m k d,
    instanceMatrix w1 = Some m -> (length data <= length m)%nat -> data !! k = Some d ->
    exists m' tr,
      instanceMatrix (snd (frame tempObj data progress clock w1)) = Some m' /\
      m' !! k = Some tr /\ qnorm2 (t_quaternion tr) = 1.
Proof.
  intros Hwf Hall Hq.
  destruct (frames_unit tempObj data fs w Hwf Hall Hq) as (Hwf1 & Hall1 & Hq1).
  cbv zeta. set (w1 := snd (frames tempObj data fs w)) in *.
  split; [exact Hq1|]. split; [apply frame_unit; assumption|].
  intros m k d Him Hlen Hk.
  destruct (frame_slot tempObj data progress clock w1 m k d Hwf1 Him Hlen Hk)
    as (m' & Hm' & Hs).
  eexists m', _. split; [exact Hm'|]. split; [exact Hs|].
  cbn [t_quaternion]. apply orientationAfter_unit; [|exact Hq1].
  apply Forall_take. exact Hall1.
Qed.

Lemma orientation_stays_unit_witness :
  qnorm2 (tempQuat (snd (frames sampleTemp sampleData2
                                [(1, mkClock 0 0); (0, mkClock 1 1)] sampleWorld2))) = 1.
Proof.
  apply (orientation_stays_unit sampleTemp sampleData2
           [(1, mkClock 0 0); (0, mkClock 1 1)] 1 (mkClock 2 1) sampleWorld2).
  - apply ornament_sample2_wellFormed.
  - repeat constructor; vm_compute; ring.
  - vm_compute. ring.
Defined.

(** A degenerate axis is not harmless: the turn about the zero vector is
    not a rotation, and scales the orientation by [cos] of half the angle. *)
Lemma zero_axis_shrinks q angle :
  qnorm2 (multiplyQuaternions q (setFromAxisAngle vzero angle)) =
  qnorm2 q * (cos (angle / 2) * cos (angle / 2)).
Proof.
  rewrite qnorm2_multiply, qnorm2_axisAngle. unfold norm2, vzero. cbn [vx vy vz]. ring.
Qed.

End UnitOrientation.

(** ** The instance buffer *)

Section InstanceBuffer.
Import Ornaments.

(** Whatever the store, one callback touches the instance buffer only by
    the write into its own slot. *)
Lemma step_instance tempObj lf t d i w :
  exists tr,
    instanceMatrix (snd (step tempObj lf t d i w)) =
    (fun m => <[i := tr]> m) <$> instanceMatrix w.
Proof.
  destruct w as [u h q tm im].
  unfold step, doRotation, rotationCall, rotateOnAxis, rotationSet, updateMatrix, setMatrixAt.
  destruct (Rgtb lf 0.5); js_unfold; eexists; reflexivity.
Qed.

Lemma forEachFrom_instance tempObj lf t data : forall i0 w m,
  instanceMatrix w = Some m ->
  exists m',
    instanceMatrix (snd (forEachFrom i0 (step tempObj lf t) data w)) = Some m' /\
    length m' = length m /\
    forall j, (j < i0 \/ i0 + length data <= j)%nat -> m' !! j = m !! j.
Proof.
  induction data as [|d rest IH]; intros i0 w m Him.
  - exists m. simpl. auto.
  - simpl forEachFrom. unfold mbind, JS_bind.
    destruct (step_instance tempObj lf t d i0 w) as [tr Hs].
    destruct (step tempObj lf t d i0 w) as [[] w1]. cbn [snd] in Hs.
    rewrite Him in Hs. cbn [fmap option_fmap option_map] in Hs.
    destruct (IH (S i0) w1 _ Hs) as (m' & Hm' & Hlen & Hout).
    exists m'. split; [exact Hm'|]. split.
    + rewrite Hlen. apply length_insert.
    + intros j Hj. cbn [length] in Hj. rewrite Hout by lia.
      apply list_lookup_insert_ne. lia.
Qed.

(** X17: the frame callback never resizes the instance buffer and writes only
    the slots of its entities: slots from [data.length] on keep their
    transforms, and an entity whose index is beyond the buffer is dropped
    silently.  This holds in every store, well formed or not. *)
Theorem instance_buffer_shape tempObj data progress clock w m :
  instanceMatrix w = Some m ->
  exists m',
    instanceMatrix (snd (frame tempObj data progress clock w)) = Some m' /\
    length m' = length m /\
    forall j, (length data <= j)%nat -> m' !! j = m !! j.
Proof.
  intros Him. rewrite (frame_mounted _ _ _ _ _ m Him).
  destruct (forEachFrom_instance tempObj progress (elapsedTime clock) data 0 w m Him)
    as (m' & Hm' & Hlen & Hout).
  exists m'. split; [exact Hm'|]. split; [exact Hlen|].
  intros j Hj. apply Hout. lia.
Qed.

Lemma instance_buffer_shape_witness :
  exists m',
    instanceMatrix (snd (frame sampleTemp sampleData2 1 (mkClock 0 0) sampleWorld)) = Some m' /\
    length m' = 1%nat.
Proof.
  destruct (instance_buffer_shape sampleTemp sampleData2 1 (mkClock 0 0) sampleWorld
              [tidentity] eq_refl) as (m' & Hm' & Hlen & _).
  exists m'. split; [exact Hm'|exact Hlen].
Defined.

End InstanceBuffer.

(** ** Renders of the Ornaments component *)

Section ComponentRender.
Import Ornaments OrnamentsComponent.

Lemma generateUUID_run w : generateUUID w = (tt, advance 4 w).
Proof. destruct w. reflexivity. Qed.

Lemma newObject3D_spec w :
  let r := newObject3D w in
  (forall m, rng (snd r) m = rng w (4 + m)%nat) /\
  instanceMatrix (snd r) = instanceMatrix w /\
  tempQuat (snd r) = qidentity /\
  (forall l, is_Some (heap w !! l) -> heap (snd r) !! l = heap w !! l) /\
  is_Some (heap (snd r) !! o_position (fst r)) /\
  is_Some (heap (snd r) !! o_scale (fst r)) /\
  o_position (fst r) <> o_scale (fst r).
Proof.
  pose proof (newObject3D_wellFormed [] w (Forall_nil_2 _)) as (_ & Hp & Hs & Hps).
  cbv zeta. split; [|split; [|split; [|split; [|split; [exact Hp|split; [exact Hs|exact Hps]]]]]].
  - destruct w as [u h q tm im]. unfold newObject3D, generateUUID. js_unfold. reflexivity.
  - destruct w as [u h q tm im]. unfold newObject3D, generateUUID. js_unfold. reflexivity.
  - destruct w as [u h q tm im]. unfold newObject3D, generateUUID. js_unfold. reflexivity.
  - clear Hp Hs Hps. destruct w as [u h q tm im]. unfold newObject3D, generateUUID. js_unfold.
    intros l Hl.
    set (p := fresh (dom h)). set (h1 := <[p := _]> h). set (s := fresh (dom h1)).
    assert (Hp : p <> l) by (apply fresh_not_old; exact Hl).
    assert (Hl1 : is_Some (h1 !! l)) by (unfold h1; rewrite lookup_insert_ne by exact Hp; exact Hl).
    assert (Hs : s <> l) by (apply fresh_not_old; exact Hl1).
    rewrite lookup_insert_ne by exact Hs. unfold h1. rewrite lookup_insert_ne by exact Hp.
    reflexivity.
Qed.

(** The three vectors of a new entity are new objects. *)
Lemma entity_fresh palette w l :
  l ∈ static (fst (entity palette w)) -> heap w !! l = None.
Proof.
  destruct w as [u h q tm im]. unfold entity. js_unfold.
  set (l1 := fresh (dom h)).
  unfold valueAt. rewrite lookup_insert_eq. cbn [default].
  rewrite insert_insert_eq.
  set (h1 := <[l1 := _]> h).
  set (l2 := fresh (dom h1)).
  set (h2 := <[l2 := _]> h1).
  set (l3 := fresh (dom h2)).
  cbn [static formPos chaosPos rotAxis heap].
  assert (H1 : h !! l1 = None) by apply fresh_lookup.
  assert (H2 : h !! l2 = None).
  { pose proof (fresh_lookup h1) as H. fold l2 in H. unfold h1 in H.
    apply lookup_insert_None in H. apply H. }
  assert (H3 : h !! l3 = None).
  { pose proof (fresh_lookup h2) as H. fold l3 in H. unfold h2 in H.
    apply lookup_insert_None in H. destruct H as [H _]. unfold h1 in H.
    apply lookup_insert_None in H. apply H. }
  unfold static. cbn [formPos chaosPos rotAxis].
  rewrite !elem_of_cons. intros [-> | [-> | [-> | Hl]]]; try assumption.
  apply elem_of_nil in Hl. contradiction.
Qed.

Lemma mapM_entity_fresh palette n : forall w d l,
  d ∈ fst (mapM (fun _ : R => entity palette) (replicate n 0) w) ->
  l ∈ static d -> heap w !! l = None.
Proof.
  induction n as [|n IH]; intros w d l Hd Hl.
  - simpl in Hd. apply elem_of_nil in Hd. contradiction.
  - simpl replicate in Hd. rewrite mapM_cons in Hd.
    pose proof (entity_fresh palette w l) as Hf.
    pose proof (entity_spec palette w) as He. cbv zeta in He.
    destruct (entity palette w) as [d1 w1]. cbn [fst snd] in *.
    destruct He as (_ & _ & Hold & _).
    specialize (IH w1 d l).
    destruct (mapM _ (replicate n 0) w1) as [ds w2]. cbn [fst snd] in *.
    apply elem_of_cons in Hd. destruct Hd as [->|Hd]; [apply Hf, Hl|].
    specialize (IH Hd Hl).
    destruct (heap w !! l) as [v|] eqn:E; [|reflexivity].
    rewrite Hold in IH by (rewrite E; eauto). rewrite E in IH. discriminate.
Qed.

Lemma data_fresh count palette w l w' :
  data count palette w = (Normal l, w') ->
  forall d l0, d ∈ l -> l0 ∈ static d -> heap w !! l0 = None.
Proof.
  unfold data. destruct (validArrayLength count); [|discriminate].
  pose proof (mapM_entity_fresh palette (Z.to_nat count) w) as Hf.
  destruct (mapM (fun _ : R => entity palette) (replicate (Z.to_nat count) 0) w) as [l1 w1].
  cbn [fst] in Hf. intros [= <- <-]. exact Hf.
Qed.

Lemma data_throws count palette w e w' :
  data count palette w = (Thrown e, w') -> validArrayLength count = false.
Proof.
  unfold data. destruct (validArrayLength count); [|reflexivity].
  destruct (mapM _ _ w). discriminate.
Qed.

(** A render that computes its data: the first one, or one whose
    dependencies differ from the memoised ones. *)
Lemma render_computes prev p w :
  (prev = None \/ exists m, prev = Some m /\ sameDeps m p = false) ->
  validArrayLength (count p) = true ->
  exists t l w',
    render prev p w
    = (Normal (mkRendered t (mkMemo (count p) (type p) (identity (colorPalette p)) l)), w') /\
    length l = Z.to_nat (count p) /\
    wellFormed t l w' /\
    tempQuat w' = qidentity /\
    (forall m, rng w' m = rng w (4 + 13 * length l + 4 + m)%nat) /\
    (forall l0, is_Some (heap w !! l0) -> heap w' !! l0 = heap w !! l0) /\
    (forall d l0, d ∈ l -> l0 ∈ static d -> heap w !! l0 = None) /\
    (forall i d, l !! i = Some d ->
       generatedFrom (items (colorPalette p)) (fun m => rng w (4 + 13 * i + m)%nat)
                     (heap w') d).
Proof.
  intros Hprev Hv. unfold render.
  pose proof (newObject3D_spec w) as Ht. cbv zeta in Ht.
  destruct (newObject3D w) as [t w1]. cbn [fst snd] in Ht.
  destruct Ht as (Hr1 & _ & Hq1 & Hold1 & Hp1 & Hs1 & Hps).
  assert (Hum : useMemo prev p w1 =
                match data (count p) (items (colorPalette p)) w1 with
                | (Normal l, w') =>
                    (Normal (mkMemo (count p) (type p) (identity (colorPalette p)) l), w')
                | (Thrown e, w') => (Thrown e, w')
                end).
  { unfold useMemo. destruct Hprev as [->|(m & -> & Hm)]; [reflexivity|].
    rewrite Hm. reflexivity. }
  rewrite Hum. clear Hum.
  destruct (data_valid (count p) (items (colorPalette p)) w1 Hv)
    as (l & w2 & Hd & Hlen & Hold2 & Hall).
  pose proof (data_draws _ _ _ _ _ Hd) as Hr2.
  pose proof (data_fresh _ _ _ _ _ Hd) as Hfresh.
  pose proof (data_live _ _ _ _ _ Hd) as Hlive.
  assert (Hq2 : tempQuat w2 = tempQuat w1).
  { clear -Hd. unfold data in Hd. destruct (validArrayLength (count p)); [|discriminate].
    revert Hd. generalize (Z.to_nat (count p)). intros n. revert w1 l w2.
    induction n as [|n IH]; intros w1 l w2 Hd.
    - simpl in Hd. injection Hd as _ <-. reflexivity.
    - simpl replicate in Hd. rewrite mapM_cons in Hd.
      pose proof (entity_spec (items (colorPalette p)) w1) as He. cbv zeta in He.
      destruct (entity (items (colorPalette p)) w1) as [d1 wa]. cbn [fst snd] in He.
      destruct He as (_ & _ & _ & Hq & _).
      specialize (IH wa).
      destruct (mapM _ (replicate n 0) wa) as [ds wb].
      injection Hd as _ <-. rewrite <- Hq. apply (IH ds wb). reflexivity. }
  rewrite Hd, generateUUID_run.
  exists t, l, (advance 4 w2).
  split; [reflexivity|]. split; [exact Hlen|].
  assert (Hheap : heap (advance 4 w2) = heap w2) by reflexivity.
  split.
  { unfold wellFormed. rewrite Hheap. split; [|split; [|split]].
    - apply Forall_forall. intros d Hin l0 Hl0.
      rewrite Forall_forall in Hlive.
      split; [apply (Hlive d Hin l0 Hl0)|].
      pose proof (Hfresh d l0 Hin Hl0) as Hnone.
      split; intros ->; rewrite Hnone in *; [destruct Hp1|destruct Hs1]; discriminate.
    - rewrite Hold2 by exact Hp1. exact Hp1.
    - rewrite Hold2 by exact Hs1. exact Hs1.
    - exact Hps. }
  split; [change (tempQuat (advance 4 w2)) with (tempQuat w2); congruence|].
  split.
  { intros m. change (rng (advance 4 w2) m) with (rng w2 (4 + m)%nat).
    rewrite Hr2, Hr1. f_equal. lia. }
  split.
  { intros l0 Hl0. rewrite Hheap, Hold2, Hold1; auto. rewrite Hold1; auto. }
  split.
  { intros d l0 Hin Hl0. pose proof (Hfresh d l0 Hin Hl0) as Hnone.
    destruct (heap w !! l0) as [v|] eqn:E; [|reflexivity].
    rewrite Hold1 in Hnone by (rewrite E; eauto). rewrite E in Hnone. discriminate. }
  intros i d Hi. rewrite Hheap.
  eapply generatedFrom_ext; [|apply (Hall i d Hi)].
  intros m. cbn beta. rewrite Hr1. f_equal.
Qed.

(** A render whose dependencies are the memoised ones keeps the data and
    only makes a new scratch object and geometry. *)
Lemma render_keeps m p w :
  sameDeps m p = true ->
  Forall (fun d => forall l, l ∈ static d -> is_Some (heap w !! l)) (memoData m) ->
  exists t w',
    render (Some m) p w = (Normal (mkRendered t m), w') /\
    wellFormed t (memoData m) w' /\
    (forall k, rng w' k = rng w (8 + k)%nat) /\
    (forall l, is_Some (heap w !! l) -> heap w' !! l = heap w !! l).
Proof.
  intros Hm Hlive. unfold render, useMemo.
  pose proof (newObject3D_wellFormed (memoData m) w Hlive) as Hwf.
  pose proof (newObject3D_spec w) as Ht. cbv zeta in Ht.
  destruct (newObject3D w) as [t w1]. cbn [fst snd] in *.
  destruct Ht as (Hr1 & _ & _ & Hold1 & _).
  rewrite Hm, generateUUID_run.
  exists t, (advance 4 w1). split; [reflexivity|]. split; [exact Hwf|]. split.
  - intros k. change (rng (advance 4 w1) k) with (rng w1 (4 + k)%nat).
    rewrite Hr1. f_equal.
  - intros l Hl. apply Hold1, Hl.
Qed.

Lemma literal_misses m items next progress type count :
  (dep_palette m < next)%nat ->
  sameDeps m (mkProps progress type count (fst (SceneContent.arrayLiteral items next))) = false.
Proof.
  intros Hlt. unfold sameDeps. cbn [colorPalette SceneContent.arrayLiteral fst identity].
  apply andb_false_iff. right. apply Nat.eqb_neq. lia.
Qed.





(** C10: for the ornaments the code departs from the claim.  [SceneContent]
    writes each palette as an array literal, so every evaluation of it
    passes a new array with the same items, and the array is a dependency
    of the memo that holds the entity set.  So when [SceneContent] is
    evaluated again, as every change of progress makes it, each ornament
    set ([balls] is the set of 200, otherwise the set of 50) is not kept
    but computed anew, in whatever store [w2] the render runs: every
    entity's formed position, chaos position, scale, rotation speed, axis,
    colour and phase come from the draws of the new render, and its
    vectors are new objects. *)
Theorem ornament_data_redrawn_on_rerender
    (balls : bool) (progress1 progress2 : R) (next : nat) (w1 w2 : World) :
  let pick := fun x : Props * Props => if balls then fst x else snd x in
  let first := SceneContent.ornamentProps progress1 next in
  let second := SceneContent.ornamentProps progress2 (snd first) in
  let p1 := pick (fst first) in
  let p2 := pick (fst second) in
  let palette := if balls then SceneContent.golds else SceneContent.boxes in
  let n := if balls then 200%nat else 50%nat in
  items (colorPalette p1) = palette /\ items (colorPalette p2) = palette /\
  type p2 = type p1 /\ count p2 = count p1 /\
  identity (colorPalette p2) <> identity (colorPalette p1) /\
  exists r1 w1' r2 w2',
    render None p1 w1 = (Normal r1, w1') /\
    render (Some (memo r1)) p2 w2 = (Normal r2, w2') /\
    length (memoData (memo r1)) = n /\
    length (memoData (memo r2)) = n /\
    (forall i d, memoData (memo r1) !! i = Some d ->
       generatedFrom palette (fun m => rng w1 (4 + 13 * i + m)%nat) (heap w1') d) /\
    (forall i d, memoData (memo r2) !! i = Some d ->
       generatedFrom palette (fun m => rng w2 (4 + 13 * i + m)%nat) (heap w2') d /\
       forall l, l ∈ static d -> heap w2 !! l = None).
Proof.
  cbv zeta. unfold SceneContent.ornamentProps, SceneContent.arrayLiteral. cbn [fst snd].
  destruct balls; cbn [items colorPalette type count identity].
  - split; [reflexivity|]. split; [reflexivity|]. split; [reflexivity|].
    split; [reflexivity|]. split; [lia|].
    destruct (render_computes None
                (mkProps progress1 ball 200 (mkArrayRef next SceneContent.golds)) w1
                (or_introl eq_refl) eq_refl)
      as (t1 & l1 & w1' & Hr1 & Hlen1 & _ & _ & _ & _ & _ & Hgen1).
    destruct (render_computes
                (Some (mkMemo 200 ball next l1))
                (mkProps progress2 ball 200 (mkArrayRef (S (S next)) SceneContent.golds)) w2)
      as (t2 & l2 & w2' & Hr2 & Hlen2 & _ & _ & _ & _ & Hfresh2 & Hgen2).
    { right. eexists. split; [reflexivity|]. unfold sameDeps.
      cbn [dep_count dep_type dep_palette count type colorPalette identity].
      apply andb_false_iff. right. apply Nat.eqb_neq. lia. }
    { reflexivity. }
    cbn [count type colorPalette identity items] in *.
    eexists _, w1', _, w2'. split; [exact Hr1|]. cbn [memo].
    split; [exact Hr2|]. cbn [memo memoData].
    split; [exact Hlen1|]. split; [exact Hlen2|]. split; [exact Hgen1|].
    intros i d Hi. split; [apply (Hgen2 i d Hi)|].
    intros l Hl. apply (Hfresh2 d l); [|exact Hl]. eapply list_elem_of_lookup_2, Hi.
  - split; [reflexivity|]. split; [reflexivity|]. split; [reflexivity|].
    split; [reflexivity|]. split; [lia|].
    destruct (render_computes None
                (mkProps progress1 gift 50 (mkArrayRef (S next) SceneContent.boxes)) w1
                (or_introl eq_refl) eq_refl)
      as (t1 & l1 & w1' & Hr1 & Hlen1 & _ & _ & _ & _ & _ & Hgen1).
    destruct (render_computes
                (Some (mkMemo 50 gift (S next) l1))
                (mkProps progress2 gift 50 (mkArrayRef (S (S (S next))) SceneContent.boxes)) w2)
      as (t2 & l2 & w2' & Hr2 & Hlen2 & _ & _ & _ & _ & Hfresh2 & Hgen2).
    { right. eexists. split; [reflexivity|]. unfold sameDeps.
      cbn [dep_count dep_type dep_palette count type colorPalette identity].
      apply andb_false_iff. right. apply Nat.eqb_neq. lia. }
    { reflexivity. }
    cbn [count type colorPalette identity items] in *.
    eexists _, w1', _, w2'. split; [exact Hr1|]. cbn [memo].
    split; [exact Hr2|]. cbn [memo memoData].
    split; [exact Hlen1|]. split; [exact Hlen2|]. split; [exact Hgen1|].
    intros i d Hi. split; [apply (Hgen2 i d Hi)|].
    intros l Hl. apply (Hfresh2 d l); [|exact Hl]. eapply list_elem_of_lookup_2, Hi.
Qed.

(** The mount render with every draw 1/4, then the render of the first
    tick with every draw 3/4: the first ball has scale 0.4, then 0.6. *)
Lemma ornament_data_redrawn_on_rerender_witness :
  let p1 := fst (fst (SceneContent.ornamentProps 0 0)) in
  let p2 := fst (fst (SceneContent.ornamentProps 0.05 2)) in
  exists r1 w1' r2 w2' d1 d2,
    render None p1 (constDraws (1 / 4)) = (Normal r1, w1') /\
    render (Some (memo r1)) p2 (constDraws (3 / 4)) = (Normal r2, w2') /\
    memoData (memo r1) !! 0%nat = Some d1 /\ memoData (memo r2) !! 0%nat = Some d2 /\
    scale d1 = 0.4 /\ scale d2 = 0.6.
Proof.
  intros p1 p2.
  destruct (ornament_data_redrawn_on_rerender true 0 0.05 0
              (constDraws (1 / 4)) (constDraws (3 / 4)))
    as (_ & _ & _ & _ & _ & r1 & w1' & r2 & w2' & Hr1 & Hr2 & Hlen1 & Hlen2 & Hgen1 & Hgen2).
  destruct (lookup_lt_is_Some_2 (memoData (memo r1)) 0) as [d1 Hd1]; [lia|].
  destruct (lookup_lt_is_Some_2 (memoData (memo r2)) 0) as [d2 Hd2]; [lia|].
  exists r1, w1', r2, w2', d1, d2.
  split; [exact Hr1|]. split; [exact Hr2|]. split; [exact Hd1|]. split; [exact Hd2|].
  destruct (Hgen1 0%nat d1 Hd1) as (_ & _ & Hs1 & _).
  destruct (Hgen2 0%nat d2 Hd2) as ((_ & _ & Hs2 & _) & _).
  cbn [rng constDraws] in Hs1, Hs2. split; lra.
Defined.

End ComponentRender.

(** ** Where the animated ornaments can be *)

Section AnimatedBox.
Import Ornaments.

Lemma lerp_between a b p :
  0 <= p <= 1 -> Rmin a b <= a + (b - a) * p <= Rmax a b.
Proof.
  intros Hp. unfold Rmin, Rmax. destruct (Rle_dec a b) as [Hab|Hab]; split; nra.
Qed.

(** X19: while progress is in [0,1], which the filter guarantees, every
    instance is written inside the box spanned by its formed and its chaos
    position, widened by the float amplitude 0.1 in height only; its scale is
    the entity's scale on all three axes. *)
Theorem ornament_in_box tempObj data progress clock w m k d :
  wellFormed tempObj data w -> instanceMatrix w = Some m ->
  (length data <= length m)%nat -> data !! k = Some d ->
  0 <= progress <= 1 ->
  let f := valueAt (heap w) (formPos d) in
  let c := valueAt (heap w) (chaosPos d) in
  exists m' tr,
    instanceMatrix (snd (frame tempObj data progress clock w)) = Some m' /\
    m' !! k = Some tr /\
    Rmin (vx f) (vx c) <= vx (t_position tr) <= Rmax (vx f) (vx c) /\
    Rmin (vy f) (vy c) - 0.1 <= vy (t_position tr) <= Rmax (vy f) (vy c) + 0.1 /\
    Rmin (vz f) (vz c) <= vz (t_position tr) <= Rmax (vz f) (vz c) /\
    t_scale tr = mkVec3 (scale d) (scale d) (scale d).
Proof.
  intros Hwf Him Hlen Hk Hp. cbv zeta.
  destruct (frame_slot tempObj data progress clock w m k d Hwf Him Hlen Hk)
    as (m' & Hm' & Hs).
  eexists m', _. split; [exact Hm'|]. split; [exact Hs|].
  cbn [t_position t_scale]. unfold positionOf, lerpVectors. cbn [vx vy vz].
  set (f := valueAt (heap w) (formPos d)). set (c := valueAt (heap w) (chaosPos d)).
  pose proof (lerp_between (vx f) (vx c) progress Hp) as Bx.
  pose proof (lerp_between (vy f) (vy c) progress Hp) as By.
  pose proof (lerp_between (vz f) (vz c) progress Hp) as Bz.
  pose proof (SIN_bound (elapsedTime clock * 1.0 + randomOffset d)) as Hsin.
  split; [exact Bx|]. split; [lra|]. split; [exact Bz|]. reflexivity.
Qed.

Lemma ornament_in_box_witness :
  exists m' tr,
    instanceMatrix (snd (frame sampleTemp [sampleDatum] (1 / 2) (mkClock 0 0) sampleWorld))
    = Some m' /\
    m' !! 0%nat = Some tr /\
    1 <= vx (t_position tr) <= 10.
Proof.
  destruct (ornament_in_box sampleTemp [sampleDatum] (1 / 2) (mkClock 0 0) sampleWorld
              [tidentity] 0%nat sampleDatum)
    as (m' & tr & Hm' & Htr & Hx & _).
  - apply ornament_sample_wellFormed.
  - reflexivity.
  - simpl. lia.
  - reflexivity.
  - lra.
  - exists m', tr. split; [exact Hm'|]. split; [exact Htr|].
    replace (valueAt (heap sampleWorld) (formPos sampleDatum)) with (mkVec3 1 2 3) in Hx
      by reflexivity.
    replace (valueAt (heap sampleWorld) (chaosPos sampleDatum)) with (mkVec3 10 20 30) in Hx
      by reflexivity.
    cbn [vx] in Hx. unfold Rmin, Rmax in Hx.
    destruct (Rle_dec 1 10); lra.
Defined.

End AnimatedBox.

(** ** The photo panels *)

Section PhotoPanels.
Import Polaroids.

Lemma forLoop_polaroids_world n : forall start items w,
  snd (forLoop start n body items w) = advance n w.
Proof.
  induction n as [|n IH]; intros start items w.
  - destruct w. reflexivity.
  - rewrite forLoop_S, polaroid_body_run, IH. destruct w. reflexivity.
Qed.

Lemma INR_below_count i : (i < count)%nat -> 0 <= INR i <= 11.
Proof.
  intros Hi. split; [apply pos_INR|].
  assert (Hle : (i <= 11)%nat) by (unfold count in Hi; lia).
  apply le_INR in Hle. simpl in Hle. lra.
Qed.

(** X21: every panel faces outward, as the source comment says: with the panel
    turned by [rotation.y] about the vertical axis, its normal [(sin ry, 0,
    cos ry)] is the direction from the axis to the panel, which stands at a
    radius between 1.98 and 6.5175.  The panel is not tilted, its image is the
    one numbered by its index, its phase is hundred times its draw, and the
    set takes exactly twelve draws. *)
Theorem polaroid_faces_outward w i :
  (i < count)%nat ->
  exists a,
    fst (photos w) !! i = Some a /\ urlIndex a = i /\
    let r := spiralR (spiralY i) in
    let ry := vy (rotation a) in
    1.98 <= r <= 6.5175 /\
    position a = mkVec3 (r * sin ry) (spiralY i) (r * cos ry) /\
    vx (rotation a) = 0 /\ vz (rotation a) = 0 /\
    randomOffset a = rng w i * 100 /\
    forall m, rng (snd (photos w)) m = rng w (count + m)%nat.
Proof.
  intros Hi. exists (itemAt i (rng w i)).
  split; [apply photos_lookup, Hi|]. split; [reflexivity|]. cbv zeta.
  pose proof (INR_below_count i Hi) as Hb.
  split; [rewrite spiralR_eq; lra|].
  unfold itemAt. cbn [position rotation randomOffset vx vy vz].
  split.
  - replace (- spiralAngle i + PI / 2) with (PI / 2 - spiralAngle i) by ring.
    rewrite <- cos_shift, <- sin_shift. reflexivity.
  - split; [reflexivity|]. split; [reflexivity|]. split; [reflexivity|].
    intros m. unfold photos. rewrite forLoop_polaroids_world. reflexivity.
Qed.

Lemma polaroid_faces_outward_witness :
  exists a, fst (photos (constDraws (1 / 2))) !! 3%nat = Some a /\ urlIndex a = 3%nat.
Proof.
  destruct (polaroid_faces_outward (constDraws (1 / 2)) 3) as (a & Ha & Hu & _).
  - unfold count. lia.
  - exists a. split; assumption.
Defined.

Lemma polaroid_spiral_layout_witness :
  exists a b,
    fst (photos (constDraws (1 / 2))) !! 2%nat = Some a /\
    fst (photos (constDraws (1 / 2))) !! 5%nat = Some b /\
    position a <> position b.
Proof.
  destruct (polaroid_spiral_layout (constDraws (1 / 2)) 2 5) as (a & b & Ha & Hb & _ & _ & Hne).
  - unfold count. lia.
  - unfold count. lia.
  - exists a, b. split; [exact Ha|]. split; [exact Hb|]. apply Hne. lia.
Defined.

Lemma photo_frame_rotation ph g progress t w :
  meshRef ph = Some g ->
  heap (snd (frame ph progress t w)) !! g_rotation g =
  Some (mkVec3 (lerp (vx (baseRotation ph) + sin t * 0.1) (t * 0.5 + phase ph) progress)
               (lerp (vy (baseRotation ph) + cos t * 0.1) (t * 0.3) progress)
               (lerp (vz (baseRotation ph)) (t * 0.2) progress)).
Proof.
  intros Hg. destruct w as [u h q tm im].
  unfold frame. rewrite Hg. js_unfold. cbn [vx vy vz].
  rewrite lookup_insert_eq. reflexivity.
Qed.

(** X22: the panel's rotation on a frame: each Euler angle is the blend of the
    item's angle and the tumbling angle ([0.5 t + phase], [0.3 t], [0.2 t]),
    plus a sway on x and y of amplitude 0.1 that fades out linearly with
    progress.  So at progress 0 the panel stays within 0.1 of its neat
    orientation, and at progress 1 it has exactly the tumbling one.  The
    rotation is the callback's last write, so this holds in every store. *)
Theorem photo_rotation ph g progress t w :
  meshRef ph = Some g -> 0 <= progress <= 1 ->
  exists r,
    heap (snd (frame ph progress t w)) !! g_rotation g = Some r /\
    Rabs (vx r - lerp (vx (baseRotation ph)) (t * 0.5 + phase ph) progress)
      <= 0.1 * (1 - progress) /\
    Rabs (vy r - lerp (vy (baseRotation ph)) (t * 0.3) progress)
      <= 0.1 * (1 - progress) /\
    vz r = lerp (vz (baseRotation ph)) (t * 0.2) progress.
Proof.
  intros Hg Hp. eexists. split; [apply (photo_frame_rotation ph g progress t w Hg)|].
  cbn [vx vy vz]. unfold lerp.
  pose proof (SIN_bound t) as Hs. pose proof (COS_bound t) as Hc.
  set (s := sin t) in *. set (c := cos t) in *.
  assert (Hq : 0 <= 1 - progress) by lra. set (q := 1 - progress) in *.
  assert (0 <= q * (1 - s)) by (apply Rmult_le_pos; lra).
  assert (0 <= q * (1 + s)) by (apply Rmult_le_pos; lra).
  assert (0 <= q * (1 - c)) by (apply Rmult_le_pos; lra).
  assert (0 <= q * (1 + c)) by (apply Rmult_le_pos; lra).
  split; [apply Rabs_le; lra|]. split; [apply Rabs_le; lra|]. reflexivity.
Qed.

Lemma photo_rotation_witness :
  exists r,
    heap (snd (frame samplePhoto 1 2 sampleWorld)) !! 3%nat = Some r /\
    vz r = lerp 0 (2 * 0.2) 1.
Proof.
  destruct (photo_rotation samplePhoto (mkGroup 2%nat 3%nat) 1 2 sampleWorld)
    as (r & Hr & _ & _ & Hz).
  - reflexivity.
  - lra.
  - exists r. split; [exact Hr|exact Hz].
Defined.

Lemma mount_values it w :
  let r := mount it w in
  heap (snd r) !! formedPos (fst r) = Some (position it) /\
  heap (snd r) !! chaosPos (fst r)
  = Some (chaosOf (rng w 0%nat) (rng w 1%nat) (rng w 2%nat)) /\
  baseRotation (fst r) = rotation it /\ phase (fst r) = randomOffset it /\
  (exists g, meshRef (fst r) = Some g) /\
  (forall m, rng (snd r) m = rng w (3 + m)%nat) /\
  (forall l, is_Some (heap w !! l) -> heap (snd r) !! l = heap w !! l).
Proof.
  destruct w as [u h q tm im]. destruct it as [ui [px py pz] rot off].
  unfold mount, chaosPosition, chaosOf. js_unfold.
  cbn [formedPos chaosPos meshRef baseRotation phase position rotation randomOffset vx vy vz].
  set (f := fresh (dom h)). set (h1 := <[f := _]> h).
  set (c := fresh (dom h1)). set (h2 := <[c := _]> h1).
  set (gp := fresh (dom h2)). set (h3 := <[gp := _]> h2).
  set (gr := fresh (dom h3)).
  assert (Hcf : c <> f).
  { apply fresh_not_old. unfold h1. rewrite lookup_insert_eq. eauto. }
  assert (Hpc : gp <> c).
  { apply fresh_not_old. unfold h2. rewrite lookup_insert_eq. eauto. }
  assert (Hpf : gp <> f).
  { apply fresh_not_old. unfold h2, h1. rewrite lookup_insert_ne, lookup_insert_eq by exact Hcf. eauto. }
  assert (Hrp : gr <> gp).
  { apply fresh_not_old. unfold h3. rewrite lookup_insert_eq. eauto. }
  assert (Hrc : gr <> c).
  { apply fresh_not_old. unfold h3, h2.
    rewrite lookup_insert_ne, lookup_insert_eq by exact Hpc. eauto. }
  assert (Hrf : gr <> f).
  { apply fresh_not_old. unfold h3, h2, h1.
    rewrite lookup_insert_ne, lookup_insert_ne, lookup_insert_eq by assumption. eauto. }
  split; [unfold h3, h2, h1; heap_simpl; reflexivity|].
  split; [unfold h3, h2, h1; heap_simpl; reflexivity|].
  split; [reflexivity|]. split; [reflexivity|]. split; [eauto|].
  split; [reflexivity|].
  intros l Hl.
  assert (Hfl : f <> l) by (apply fresh_not_old; exact Hl).
  assert (Hl1 : is_Some (h1 !! l)) by (unfold h1; rewrite lookup_insert_ne by exact Hfl; exact Hl).
  assert (Hcl : c <> l) by (apply fresh_not_old; exact Hl1).
  assert (Hl2 : is_Some (h2 !! l)) by (unfold h2; rewrite lookup_insert_ne by exact Hcl; exact Hl1).
  assert (Hgl : gp <> l) by (apply fresh_not_old; exact Hl2).
  assert (Hl3 : is_Some (h3 !! l)) by (unfold h3; rewrite lookup_insert_ne by exact Hgl; exact Hl2).
  assert (Hrl : gr <> l) by (apply fresh_not_old; exact Hl3).
  unfold h3, h2, h1. heap_simpl. reflexivity.
Qed.

(** X23: a panel from the loop to the screen: the item the loop pushed for
    index [i] is mounted in any store and animated for any number of frames.
    The photo then still has the item's spiral position as its formed
    position, the band point of its own three draws as its chaos position, and
    the item's rotation and phase; mounting takes three draws and touches no
    vector that existed before. *)
Theorem photo_pipeline w0 i it w fs :
  fst (photos w0) !! i = Some it ->
  let r := mount it w in
  let w3 := snd (frames (fst r) fs (snd r)) in
  it = itemAt i (rng w0 i) /\
  wellFormed (fst r) (heap w3) /\
  heap w3 !! formedPos (fst r) = Some (position it) /\
  heap w3 !! chaosPos (fst r) = Some (chaosOf (rng w 0%nat) (rng w 1%nat) (rng w 2%nat)) /\
  baseRotation (fst r) = rotation it /\ phase (fst r) = randomOffset it /\
  (forall m, rng (snd r) m = rng w (3 + m)%nat) /\
  (forall l, is_Some (heap w !! l) -> heap (snd r) !! l = heap w !! l).
Proof.
  intros Hit. cbv zeta.
  assert (Hi : (i < count)%nat).
  { apply lookup_lt_Some in Hit. rewrite photos_items in Hit.
    rewrite length_map, length_seq in Hit. exact Hit. }
  split.
  { rewrite (photos_lookup w0 i Hi) in Hit. injection Hit as <-. reflexivity. }
  destruct (mount_values it w) as (Mf & Mc & Mr & Mp & _ & Mrng & Mold).
  pose proof (mount_wellFormed it w) as Hwf.
  destruct (photo_frames_footprint (fst (mount it w)) fs (snd (mount it w)) Hwf)
    as (Hwf3 & Ff & Fc).
  split; [exact Hwf3|]. split; [rewrite Ff; exact Mf|]. split; [rewrite Fc; exact Mc|].
  split; [exact Mr|]. split; [exact Mp|]. split; [exact Mrng|exact Mold].
Qed.

Lemma photo_pipeline_witness :
  exists it,
    fst (photos (constDraws (1 / 2))) !! 3%nat = Some it /\
    baseRotation (fst (mount it (constDraws (1 / 4)))) = rotation it.
Proof.
  exists (itemAt 3 (1 / 2)).
  assert (H : fst (photos (constDraws (1 / 2))) !! 3%nat = Some (itemAt 3 (1 / 2))).
  { apply (photos_lookup (constDraws (1 / 2)) 3). unfold count. lia. }
  split; [exact H|].
  apply (photo_pipeline (constDraws (1 / 2)) 3 (itemAt 3 (1 / 2)) (constDraws (1 / 4))
           [(1, 0); (0, 1)] H).
Defined.

End PhotoPanels.
